(** * Supervised-learning notebooks: training, evaluation and assessment

    A shallow embedding of the code cells of the two course notebooks
    (the IRIS classification notebook and "CL1 - Linear regression"):
    label encoding, data splitting and batching, the training loops with
    their loss and accuracy bookkeeping, the validation pass, and the final
    assessment by accuracy and confusion matrix.

    Python values are modelled as follows: a class label ([int]) as [Z], a
    length or a count as [nat], [str] as [string], a list or a
    one-dimensional tensor as [list], a raised exception as the [Raise]
    branch of [Py.result].  The quotient of two ints ([/] on ints) is kept
    as the exact fraction in [Q]; the float scores and losses that the
    network and the loss function produce are an abstract type with the
    operations the cells apply to them, so no law of floating-point
    arithmetic is built in.  What a random generator draws (the shuffled
    index order of a pass, the permutation behind a split) is an explicit
    argument.  The model, the loss and the optimizer are collaborators of
    the loops and are assumed to return; the functions of torch and
    scikit-learn that the cells call are modelled by their documented
    behaviour. *)

From Stdlib Require Import String Bool Arith ZArith QArith Lia List Permutation Sorted.
Import ListNotations.

Set Implicit Arguments.

(** ** Python exceptions *)

Module Py.

Inductive exn : Type :=
| ValueError (msg : string)
| ZeroDivisionError
| AssertionError
| IndexError
| AttributeError.

Inductive result (A : Type) : Type :=
| Ok (a : A)
| Raise (e : exn).

Arguments Ok {A} a.
Arguments Raise {A} e.

Definition bind {A B} (m : result A) (k : A -> result B) : result B :=
  match m with
  | Ok a => k a
  | Raise e => Raise e
  end.

Definition raises {A} (m : result A) : Prop := exists e, m = Raise e.

(** [list(map(f, xs))] for an [f] that may raise: the first exception
    leaves the comprehension. *)
Fixpoint map_list {A B} (f : A -> result B) (xs : list A) : result (list B) :=
  match xs with
  | [] => Ok []
  | x :: xs' =>
      bind (f x) (fun y => bind (map_list f xs') (fun ys => Ok (y :: ys)))
  end.

End Py.

Import Py.

Notation "x <- m ;; k" := (Py.bind m (fun x => k))
  (at level 61, m at next level, right associativity).

Close Scope Q_scope.
Open Scope nat_scope.

(** ** Label encoding (classification notebook, section 2.1) *)

(** [def encode_species(species)] *)
Definition encode_species (species : string) : result Z :=
  if String.eqb species "setosa" then Ok 0%Z
  else if String.eqb species "versicolor" then Ok 1%Z
  else if String.eqb species "virginica" then Ok 2%Z
  else Raise (ValueError ("Species '" ++ species ++ "' is not recognized.")%string).

(** [y = np.array(list(map(encode_species, dataset['species'].values)))] *)
Definition encode_labels (species : list string) : result (list Z) :=
  map_list encode_species species.

Definition recognized (species : string) : Prop :=
  species = "setosa"%string \/ species = "versicolor"%string \/
  species = "virginica"%string.

(** ** Datasets, splits and loaders (library collaborators) *)

Module Data.

Section Generic.
Variable A : Type.

(** [dataset[i]] *)
Definition getitem (ds : list A) (i : nat) : result A :=
  match nth_error ds i with
  | Some a => Ok a
  | None => Raise IndexError
  end.

(** [x[indices]] (fancy indexing by an index array) *)
Definition take_rows (ds : list A) (indices : list nat) : result (list A) :=
  map_list (getitem ds) indices.

(** Modelled from the spec: the batch sampler of torch's [DataLoader]
    (library code, not in the notebooks), "iterate in fixed-size
    batches" with the default [drop_last=False]: indices are appended to
    the current batch, a batch is yielded when it reaches [batch_size],
    and a last, shorter batch is yielded when it is not empty. *)
Fixpoint batch_sampler (batch_size : nat) (batch : list nat)
         (sampler : list nat) : list (list nat) :=
  match sampler with
  | [] => match batch with [] => [] | _ :: _ => [batch] end
  | idx :: rest =>
      let batch' := batch ++ [idx] in
      if Nat.eqb (length batch') batch_size
      then batch' :: batch_sampler batch_size [] rest
      else batch_sampler batch_size batch' rest
  end.

Record loader : Type := mk_loader {
  dl_dataset : list A;
  dl_batch_size : nat;
  dl_shuffle : bool
}.

(** Modelled from the spec: [DataLoader(dataset, batch_size=..,
    shuffle=..)] (library code); a batch size that is not positive is
    rejected by the constructor. *)
Definition DataLoader (dataset : list A) (batch_size : nat) (shuffle : bool)
  : result loader :=
  if Nat.eqb batch_size 0
  then Raise (ValueError "batch_size should be a positive integer value")
  else Ok (mk_loader dataset batch_size shuffle).

(** The index order of one pass: [range(len(dataset))] without
    shuffling, otherwise the permutation [drawn] from the random
    generator for this pass. *)
Definition sampler_order (dl : loader) (drawn : list nat) : list nat :=
  if dl_shuffle dl then drawn else seq 0 (length (dl_dataset dl)).

(** [for batch in data_loader]: the batches of one pass, in order. *)
Definition iterate (dl : loader) (drawn : list nat) : result (list (list A)) :=
  map_list (take_rows (dl_dataset dl))
           (batch_sampler (dl_batch_size dl) [] (sampler_order dl drawn)).

(** [Subset(dataset, indices)] *)
Record subset : Type := mk_subset {
  ss_dataset : list A;
  ss_indices : list nat
}.

Definition subset_len (s : subset) : nat := length (ss_indices s).

Definition subset_items (s : subset) : result (list A) :=
  take_rows (ss_dataset s) (ss_indices s).

(** Consecutive slices [indices[offset - length : offset]]. *)
Fixpoint slices (lengths : list nat) (indices : list nat) : list (list nat) :=
  match lengths with
  | [] => []
  | n :: rest => firstn n indices :: slices rest (skipn n indices)
  end.

(** Modelled from the spec: torch's [random_split(dataset, lengths)]
    (library code): the lengths must sum to the dataset's length, a
    random permutation [drawn] of all indices is cut into consecutive
    slices of the given lengths, one [Subset] per slice. *)
Definition random_split (dataset : list A) (lengths : list nat)
           (drawn : list nat) : result (list subset) :=
  if Nat.eqb (list_sum lengths) (length dataset)
  then Ok (map (mk_subset dataset) (slices lengths drawn))
  else Raise (ValueError
    "Sum of input lengths does not equal the length of the input dataset!").

End Generic.

Arguments mk_loader {A}.
Arguments mk_subset {A}.

(** [TensorDataset(xs, ys)]: both tensors must have the same first
    dimension (the constructor asserts it); sample [i] is the pair
    [(xs[i], ys[i])]. *)
Definition TensorDataset {A B : Type} (xs : list A) (ys : list B)
  : result (list (A * B)) :=
  if Nat.eqb (length xs) (length ys) then Ok (combine xs ys)
  else Raise AssertionError.

(** [permutation[n_test : n_test + n_train]] and [permutation[:n_test]] *)
Definition split_indices (n n_test : nat) (drawn : list nat)
  : list nat * list nat :=
  (firstn (n - n_test) (skipn n_test drawn), firstn n_test drawn).

(** Modelled from the spec: scikit-learn's [train_test_split(x, y,
    test_size=.., random_state=..)] (library code).  [n_test] is the
    number of test samples the library derives from [test_size] (45 of
    150 for 0.3); the first [n_test] indices of the permutation [drawn]
    from the seeded generator are the test indices, the remaining ones
    the training indices, and [x] and [y] are indexed by the same index
    arrays.  Result: [(x_train, x_test, y_train, y_test)]. *)
Definition train_test_split {A B : Type} (x : list A) (y : list B)
           (n_test : nat) (drawn : list nat)
  : result (list A * list A * list B * list B) :=
  if negb (Nat.eqb (length x) (length y))
  then Raise (ValueError "Found input variables with inconsistent numbers of samples")
  else if Nat.leb (length x) n_test
  then Raise (ValueError "the resulting train set will be empty")
  else
    let '(train, test) := split_indices (length x) n_test drawn in
    x_train <- take_rows x train ;;
    x_test <- take_rows x test ;;
    y_train <- take_rows y train ;;
    y_test <- take_rows y test ;;
    Ok (x_train, x_test, y_train, y_test).

End Data.

Import Data.

(** ** The collaborators of the loops

    The loops are polymorphic in the model, the loss and the optimizer.
    [Target] is the type of a sample's target: a class index ([Z]) for the
    classifier, a float for the regressor. *)

Record Learner (Target : Type) : Type := {
  Feat : Type;            (* one row of [b_x] *)
  Scalar : Type;          (* a float: a score or a loss *)
  Params : Type;          (* the values of [model.parameters()] *)
  Grad : Type;            (* the [.grad] buffers of the parameters *)
  OptState : Type;        (* the optimizer's own state *)
  (* [model(xb)] on one row: [self.lin(xb)] *)
  forward : Params -> Feat -> list Scalar;
  (* [loss_fn(pred, b_y)] *)
  loss_fn : list (list Scalar) -> list Target -> Scalar;
  (* what [loss.backward()] adds to [.grad]: the gradient of
     [loss_fn(model(b_x), b_y)] at the parameters of the forward pass *)
  grad_of : Params -> list Feat -> list Target -> Grad;
  gzero : Grad;
  gadd : Grad -> Grad -> Grad;
  (* whether [optimizer.zero_grad()] resets [.grad] to [None] (the default
     of recent torch versions) or fills it with zeros (older versions) *)
  set_to_none : bool;
  (* [optimizer.step()] on parameters that have a gradient *)
  opt_step : OptState -> Params -> Grad -> OptState * Params;
  (* [>] on scores *)
  sgt : Scalar -> Scalar -> bool;
  (* the int [0] that [sum] starts from, [+], and [/] by a length *)
  szero : Scalar;
  sadd : Scalar -> Scalar -> Scalar;
  sdiv : Scalar -> nat -> Scalar
}.

(** Modelled from the spec: torch's [argmax] over one row of scores
    (library code): the row is scanned in index order and the running best
    is replaced only by a strictly greater score.  An empty row is an
    error. *)
Fixpoint argmax_from {V : Type} (gt : V -> V -> bool) (best_i : nat) (best : V)
         (i : nat) (row : list V) : nat :=
  match row with
  | [] => best_i
  | v :: rest =>
      if gt v best then argmax_from gt i v (S i) rest
      else argmax_from gt best_i best (S i) rest
  end.

Definition argmax {V : Type} (gt : V -> V -> bool) (row : list V) : result nat :=
  match row with
  | [] => Raise IndexError
  | v :: rest => Ok (argmax_from gt 0 v 1 rest)
  end.

(** [pred.argmax(dim=1)]: one class index per row. *)
Definition argmax_dim1 {V : Type} (gt : V -> V -> bool) (pred : list (list V))
  : result (list Z) :=
  map_list (fun row => i <- argmax gt row ;; Ok (Z.of_nat i)) pred.

(** The number of positions at which the two label vectors agree. *)
Definition matches (hard_preds b_y : list Z) : nat :=
  length (filter (fun hy => Z.eqb (fst hy) (snd hy)) (combine hard_preds b_y)).

(** [sum(hard_preds == b_y).item()]; both tensors have one entry per sample
    of the batch.  The builtin [sum] of an empty tensor is the int [0],
    which has no [item]. *)
Definition count_correct (hard_preds b_y : list Z) : result nat :=
  match combine hard_preds b_y with
  | [] => Raise AttributeError
  | _ :: _ => Ok (matches hard_preds b_y)
  end.

(** [a / b] on two ints. *)
Definition true_div (a b : nat) : result Q :=
  match b with
  | O => Raise ZeroDivisionError
  | S _ => Ok (Qmake (Z.of_nat a) (Pos.of_nat b))
  end.

(** ** Assessment (classification notebook, section 4) *)

(** Modelled from the spec: the sorted distinct labels that scikit-learn's
    [confusion_matrix] indexes its rows and columns by (library code). *)
Fixpoint insert_label (l : Z) (labels : list Z) : list Z :=
  match labels with
  | [] => [l]
  | h :: t =>
      if Z.ltb l h then l :: labels
      else if Z.eqb l h then labels
      else h :: insert_label l t
  end.

Definition unique_labels (ys : list Z) : list Z :=
  fold_right insert_label [] ys.

Definition count_pair (i j : Z) (pairs : list (Z * Z)) : nat :=
  length (filter (fun tp => Z.eqb (fst tp) i && Z.eqb (snd tp) j) pairs).

(** Modelled from the spec: scikit-learn's [confusion_matrix(y_true,
    y_pred)] (library code): entry [(i, j)] counts the samples whose true
    label is the [i]-th label and whose predicted label is the [j]-th, over
    the sorted labels occurring in either vector; vectors of different
    lengths are rejected. *)
Definition confusion_matrix (y_true y_pred : list Z) : result (list (list nat)) :=
  if Nat.eqb (length y_true) (length y_pred)
  then
    let labels := unique_labels (y_true ++ y_pred) in
    let pairs := combine y_true y_pred in
    Ok (map (fun i => map (fun j => count_pair i j pairs) labels) labels)
  else Raise (ValueError "Found input variables with inconsistent numbers of samples").

(** Sum of all entries, and sum of the diagonal entries. *)
Definition matrix_sum (m : list (list nat)) : nat := list_sum (map list_sum m).

Fixpoint trace_from (k : nat) (m : list (list nat)) : nat :=
  match m with
  | [] => 0
  | row :: rows => nth k row 0 + trace_from (S k) rows
  end.

Definition trace (m : list (list nat)) : nat := trace_from 0 m.

(** ** The state the loops work on *)

(** What a cell prints at the end of an epoch: the arguments of [format]
    (the rounding of the display format is not modelled). *)
Inductive report (V : Type) : Type :=
| LossLine (epoch : nat) (avg_loss : V)
| AccLine (epoch : nat) (avg_loss : V) (accuracy : Q)
| ValLine (epoch : nat) (train_avg_loss val_avg_loss : V)
          (train_accuracy val_accuracy : Q).

Arguments LossLine {V}.
Arguments AccLine {V}.
Arguments ValLine {V}.

Record state (T : Type) (L : Learner T) : Type := mk_state {
  params : Params L;               (* the model's parameters *)
  grad : option (Grad L);          (* their [.grad]; [None] before any backward *)
  opt : OptState L;                (* the optimizer *)
  losses : list (Scalar L);        (* the variable [losses] *)
  n_correct : nat;                 (* the variable [n_correct] *)
  stdout : list (report (Scalar L))
}.

Section Loop.

Variable T : Type.
Variable L : Learner T.

Local Abbreviation st_t := (state L).

Definition set_model (st : st_t) (o : OptState L) (p : Params L) : st_t :=
  mk_state L p (grad st) o (losses st) (n_correct st) (stdout st).

Definition set_grad (st : st_t) (g : option (Grad L)) : st_t :=
  mk_state L (params st) g (opt st) (losses st) (n_correct st) (stdout st).

Definition set_losses (st : st_t) (ls : list (Scalar L)) : st_t :=
  mk_state L (params st) (grad st) (opt st) ls (n_correct st) (stdout st).

Definition set_n_correct (st : st_t) (n : nat) : st_t :=
  mk_state L (params st) (grad st) (opt st) (losses st) n (stdout st).

Definition print (st : st_t) (r : report (Scalar L)) : st_t :=
  mk_state L (params st) (grad st) (opt st) (losses st) (n_correct st)
           (stdout st ++ [r]).

(** [loss.backward()]: the gradient of this batch's loss is accumulated
    into [.grad]. *)
Definition backward (b_x : list (Feat L)) (b_y : list T) (st : st_t) : st_t :=
  let g := grad_of L (params st) b_x b_y in
  set_grad st (match grad st with
               | None => Some g
               | Some acc => Some (gadd L acc g)
               end).

(** [optimizer.step()]: parameters without a gradient are skipped. *)
Definition step (st : st_t) : st_t :=
  match grad st with
  | None => st
  | Some g => let (o, p) := opt_step L (opt st) (params st) g in set_model st o p
  end.

(** [optimizer.zero_grad()] *)
Definition zero_grad (st : st_t) : st_t :=
  set_grad st (if set_to_none L then None
               else match grad st with
                    | None => None
                    | Some _ => Some (gzero L)
                    end).

(** [sum(losses)] and [sum(losses)/len(losses)] *)
Definition py_sum (ls : list (Scalar L)) : Scalar L :=
  fold_left (sadd L) ls (szero L).

Definition mean (ls : list (Scalar L)) : result (Scalar L) :=
  match length ls with
  | O => Raise ZeroDivisionError
  | S _ => Ok (sdiv L (py_sum ls) (length ls))
  end.

(** [for x in xs: body] for a body that may raise. *)
Fixpoint for_each {A : Type} (body : st_t -> A -> result st_t) (st : st_t)
         (xs : list A) : result st_t :=
  match xs with
  | [] => Ok st
  | x :: rest => st' <- body st x ;; for_each body st' rest
  end.

(** The body of the inner loop of the loss-only cells (section 3.2 of the
    classification notebook, section 2.4 of the regression notebook). *)
Definition train_batch_loss (st : st_t) (b : list (Feat L * T)) : result st_t :=
  let b_x := map fst b in
  let b_y := map snd b in
  let pred := map (forward L (params st)) b_x in
  let loss := loss_fn L pred b_y in
  let st := set_losses st (losses st ++ [loss]) in
  let st := backward b_x b_y st in
  let st := step st in
  Ok (zero_grad st).

(** The body of the outer loop of the same cells. *)
Definition epoch_loss (dl : loader (Feat L * T)) (drawn : list nat)
           (st : st_t) (epoch : nat) : result st_t :=
  let st := set_losses st [] in
  batches <- iterate dl drawn ;;
  st <- for_each train_batch_loss st batches ;;
  avg_loss <- mean (losses st) ;;
  Ok (print st (LossLine epoch avg_loss)).

(** [for epoch in range(n)]; [draws epoch] is the permutation the shuffling
    loader draws in that epoch. *)
Definition fit_loss (dl : loader (Feat L * T)) (draws : nat -> list nat)
           (n : nat) (st : st_t) : result st_t :=
  for_each (fun st epoch => epoch_loss dl (draws epoch) st epoch) st (seq 0 n).

End Loop.

(** The regression notebook builds its loader with
    [DataLoader(dataset, batch_size=len(x))] over
    [TensorDataset(x, y)]. *)
Definition regression_loader {A B : Type} (x : list A) (y : list B)
  : result (loader (A * B)) :=
  dataset <- TensorDataset x y ;;
  DataLoader dataset (length x) false.

(** Section 2.3 of the classification notebook:
    [t_dataset = TensorDataset(torch_x, torch_y)] and
    [t_data_loader = DataLoader(t_dataset, batch_size=32, shuffle=True)]. *)
Definition t_data_loader {A B : Type} (torch_x : list A) (torch_y : list B)
  : result (loader (A * B)) :=
  t_dataset <- TensorDataset torch_x torch_y ;;
  DataLoader t_dataset 32 true.

(** A loader over a [Subset]. *)
Definition subset_loader {A : Type} (s : subset A) (batch_size : nat)
           (shuffle : bool) : result (loader A) :=
  items <- subset_items s ;;
  DataLoader items batch_size shuffle.

(** Section 3.4:
    [train_t_dataset, val_t_dataset = random_split(t_dataset, [90, 15])],
    [train_t_data_loader = DataLoader(train_t_dataset, batch_size=32,
    shuffle=True)] and
    [val_t_data_loader = DataLoader(val_t_dataset, batch_size=105)]. *)
Definition train_val_loaders {A : Type} (t_dataset : list A) (drawn : list nat)
  : result (loader A * loader A) :=
  parts <- random_split t_dataset [90; 15] drawn ;;
  match parts with
  | [train_t_dataset; val_t_dataset] =>
      train_t_data_loader <- subset_loader train_t_dataset 32 true ;;
      val_t_data_loader <- subset_loader val_t_dataset 105 false ;;
      Ok (train_t_data_loader, val_t_data_loader)
  | _ => Raise (ValueError "not enough values to unpack")
  end.

Section Classifier.

Variable L : Learner Z.

Local Abbreviation st_t := (state L).

(** The body of the inner training loop of sections 3.3 and 3.4. *)
Definition train_batch_acc (st : st_t) (b : list (Feat L * Z)) : result st_t :=
  let b_x := map fst b in
  let b_y := map snd b in
  let pred := map (forward L (params st)) b_x in
  let loss := loss_fn L pred b_y in
  let st := set_losses st (losses st ++ [loss]) in
  hard_preds <- argmax_dim1 (sgt L) pred ;;
  correct <- count_correct hard_preds b_y ;;
  let st := set_n_correct st (n_correct st + correct) in
  let st := backward b_x b_y st in
  let st := step st in
  Ok (zero_grad st).

(** The body of the outer loop of section 3.3. *)
Definition epoch_acc (dl : loader (Feat L * Z)) (drawn : list nat)
           (st : st_t) (epoch : nat) : result st_t :=
  let st := set_losses st [] in
  let st := set_n_correct st 0 in
  batches <- iterate dl drawn ;;
  st <- for_each train_batch_acc st batches ;;
  accuracy <- true_div (n_correct st) (length (dl_dataset dl)) ;;
  avg_loss <- mean L (losses st) ;;
  Ok (print st (AccLine epoch avg_loss accuracy)).

Definition fit_acc (dl : loader (Feat L * Z)) (draws : nat -> list nat)
           (n : nat) (st : st_t) : result st_t :=
  for_each (fun st epoch => epoch_acc dl (draws epoch) st epoch) st (seq 0 n).

(** The body of the loop under [torch.no_grad()] in section 3.4. *)
Definition eval_batch (st : st_t) (b : list (Feat L * Z)) : result st_t :=
  let b_x := map fst b in
  let b_y := map snd b in
  let pred := map (forward L (params st)) b_x in
  let loss := loss_fn L pred b_y in
  let st := set_losses st (losses st ++ [loss]) in
  hard_preds <- argmax_dim1 (sgt L) pred ;;
  correct <- count_correct hard_preds b_y ;;
  Ok (set_n_correct st (n_correct st + correct)).

(** The validation pass of section 3.4: from [losses = []] to
    [val_avg_loss]; yields the state, [val_accuracy] and [val_avg_loss]. *)
Definition validate (val_dl : loader (Feat L * Z)) (drawn : list nat) (st : st_t)
  : result (st_t * Q * Scalar L) :=
  let st := set_losses st [] in
  let st := set_n_correct st 0 in
  batches <- iterate val_dl drawn ;;
  st <- for_each eval_batch st batches ;;
  val_accuracy <- true_div (n_correct st) (length (dl_dataset val_dl)) ;;
  val_avg_loss <- mean L (losses st) ;;
  Ok (st, val_accuracy, val_avg_loss).

(** The body of the outer loop of section 3.4. *)
Definition epoch_val (train_dl val_dl : loader (Feat L * Z))
           (drawn : list nat) (st : st_t) (epoch : nat) : result st_t :=
  let st := set_losses st [] in
  let st := set_n_correct st 0 in
  batches <- iterate train_dl drawn ;;
  st <- for_each train_batch_acc st batches ;;
  train_accuracy <- true_div (n_correct st) (length (dl_dataset train_dl)) ;;
  train_avg_loss <- mean L (losses st) ;;
  v <- validate val_dl drawn st ;;
  let '(st, val_accuracy, val_avg_loss) := v in
  Ok (print st (ValLine epoch train_avg_loss val_avg_loss
                        train_accuracy val_accuracy)).

Definition fit_val (train_dl val_dl : loader (Feat L * Z))
           (draws : nat -> list nat) (n : nat) (st : st_t) : result st_t :=
  for_each (fun st epoch => epoch_val train_dl val_dl (draws epoch) st epoch)
           st (seq 0 n).

(** Section 4: [preds = model(test_samples).argmax(dim=1)] and
    [acc = sum(preds == test_labels).item()/len(preds)]. *)
Definition predict (p : Params L) (test_samples : list (Feat L)) : result (list Z) :=
  argmax_dim1 (sgt L) (map (forward L p) test_samples).

Definition test_accuracy (preds test_labels : list Z) : result Q :=
  correct <- count_correct preds test_labels ;;
  true_div correct (length preds).

End Classifier.

(** ** Reference notions the loops are compared with *)

(** [i] is the first index of a maximal score of [row]. *)
Definition first_max {V : Type} (gt : V -> V -> bool) (row : list V) (i : nat)
  : Prop :=
  exists m, nth_error row i = Some m /\
    (forall j v, nth_error row j = Some v -> gt v m = false) /\
    (forall j v, nth_error row j = Some v -> gt m v = false -> i <= j).

(** The rows of [ds] at the indices [order], out-of-range indices skipped. *)
Definition row_at {A : Type} (ds : list A) (i : nat) : list A :=
  match nth_error ds i with
  | Some a => [a]
  | None => []
  end.

Definition rows_at {A : Type} (ds : list A) (order : list nat) : list A :=
  flat_map (row_at ds) order.

(** Index lists without a common index. *)
Definition disjoint (a b : list nat) : Prop := forall i, In i a -> ~ In i b.

Definition pairwise_disjoint (parts : list (list nat)) : Prop :=
  ForallOrdPairs disjoint parts.

(** What a shuffling loader draws for a pass is a permutation of the
    dataset's indices. *)
Definition well_drawn {A : Type} (dl : loader A) (drawn : list nat) : Prop :=
  dl_shuffle dl = true -> Permutation drawn (seq 0 (length (dl_dataset dl))).

Section Reference.

Variable T : Type.
Variable L : Learner T.

(** The effect of one training batch on the model and the optimizer. *)
Definition optimize (b : list (Feat L * T)) (st : state L) : state L :=
  zero_grad (step (backward (map fst b) (map snd b) st)).

(** The parameters in force when each batch of [bs] starts. *)
Fixpoint params_trace (st : state L) (bs : list (list (Feat L * T)))
  : list (Params L) :=
  match bs with
  | [] => []
  | b :: rest => params st :: params_trace (optimize b st) rest
  end.

(** The loss of batch [b] under the parameters [p]. *)
Definition batch_loss (p : Params L) (b : list (Feat L * T)) : Scalar L :=
  loss_fn L (map (forward L p) (map fst b)) (map snd b).

Definition batch_losses (st : state L) (bs : list (list (Feat L * T)))
  : list (Scalar L) :=
  map (fun pb => batch_loss (fst pb) (snd pb)) (combine (params_trace st bs) bs).

(** Two states agree on the model and the optimizer. *)
Definition same_model (st1 st2 : state L) : Prop :=
  params st1 = params st2 /\ grad st1 = grad st2 /\ opt st1 = opt st2.

(** The effect of a sequence of training batches on the model. *)
Definition run_model (bs : list (list (Feat L * T))) (st : state L) : state L :=
  fold_left (fun s b => optimize b s) bs st.

(** A loop body whose effect on the model and the optimizer is that of
    [backward], [step], [zero_grad] on its batch. *)
Definition trains (body : state L -> list (Feat L * T) -> result (state L)) : Prop :=
  forall st b st', body st b = Ok st' ->
    same_model st' (optimize b st) /\ stdout st' = stdout st.

(** The gradient buffer is in its cleared state. *)
Definition cleared (st : state L) : Prop :=
  grad st = None \/ grad st = Some (gzero L).

(** One training batch without gradient accumulation: the optimizer is
    handed the gradient of this batch alone. *)
Definition fresh_step (om : OptState L * Params L) (b : list (Feat L * T))
  : OptState L * Params L :=
  opt_step L (fst om) (snd om) (grad_of L (snd om) (map fst b) (map snd b)).

(** The loop body [body] never lets a gradient carry over: in a loop
    started with a cleared buffer, when batch [b2] follows batch [b1] the
    buffer is cleared in between, the gradient that [optimizer.step()]
    reads for [b2] is the gradient of [b2] alone, and the update made for
    [b2] is the one of [fresh_step]. *)
Definition no_carry_over (body : state L -> list (Feat L * T) -> result (state L))
  : Prop :=
  forall st pre b1 b2 s0 s1 s2,
    cleared st ->
    for_each body st pre = Ok s0 -> body s0 b1 = Ok s1 -> body s1 b2 = Ok s2 ->
    cleared s1 /\
    grad (backward (map fst b2) (map snd b2) s1)
      = Some (grad_of L (params s1) (map fst b2) (map snd b2)) /\
    (opt s2, params s2) = fresh_step (opt s1, params s1) b2 /\
    cleared s2.

(** An epoch started with a cleared buffer updates the model as gradient
    descent without accumulation does on its batches, and ends with a
    cleared buffer. *)
Definition epoch_without_accumulation
           (epoch : loader (Feat L * T) -> list nat -> state L -> nat
                    -> result (state L)) : Prop :=
  forall dl drawn st e st' batches,
    cleared st -> iterate dl drawn = Ok batches -> epoch dl drawn st e = Ok st' ->
    (opt st', params st') = fold_left fresh_step batches (opt st, params st) /\
    cleared st'.

(** A run of epochs started with a cleared buffer starts every epoch with a
    cleared buffer. *)
Definition run_keeps_cleared
           (fit : loader (Feat L * T) -> (nat -> list nat) -> nat -> state L
                  -> result (state L))
           (epoch : loader (Feat L * T) -> list nat -> state L -> nat
                    -> result (state L)) : Prop :=
  forall dl draws n st,
    fit dl draws (S n) st = (s <- fit dl draws n st ;; epoch dl (draws n) s n) /\
    forall s, cleared st -> fit dl draws n st = Ok s -> cleared s.

End Reference.

Section ReferenceClassifier.

Variable L : Learner Z.

(** The model yields at least one score per sample. *)
Definition scores_nonempty : Prop := forall p x, forward L p x <> [].

(** Sample [(x, y)] is classified correctly under the parameters [p]: the
    index of the maximal score of [model(x)] is [y]. *)
Definition hit (p : Params L) (xy : Feat L * Z) : bool :=
  match argmax (sgt L) (forward L p (fst xy)) with
  | Ok i => Z.eqb (Z.of_nat i) (snd xy)
  | Raise _ => false
  end.

Definition hits (p : Params L) (b : list (Feat L * Z)) : nat :=
  length (filter (hit p) b).

(** The correct predictions of an epoch, each batch under the parameters in
    force when it starts. *)
Definition epoch_hits (st : state L) (bs : list (list (Feat L * Z))) : nat :=
  list_sum (map (fun pb => hits (fst pb) (snd pb)) (combine (params_trace st bs) bs)).

(** The accuracy the parameters [p] achieve on the dataset [ds]. *)
Definition accuracy_of (p : Params L) (ds : list (Feat L * Z)) : result Q :=
  true_div (hits p ds) (length ds).

End ReferenceClassifier.

(** ** A one-weight least-squares learner

    A concrete instance of the collaborators, small enough to run the loops
    on by evaluation: one weight [w], the score row [[0; w * x]] (class 1 is
    predicted when [w * x] is positive), the squared error of the second
    score as loss, its derivative as gradient, and plain gradient descent
    with step size one. *)

Module Toy.

Definition sq_err (row_y : list Z * Z) : Z :=
  let s := nth 1 (fst row_y) 0%Z in ((s - snd row_y) * (s - snd row_y))%Z.

Definition d_sq_err (w : Z) (x_y : Z * Z) : Z :=
  (2 * fst x_y * (w * fst x_y - snd x_y))%Z.

Definition z_sum (zs : list Z) : Z := fold_right Z.add 0%Z zs.

Definition learner (to_none : bool) : Learner Z := {|
  Feat := Z;
  Scalar := Z;
  Params := Z;
  Grad := Z;
  OptState := unit;
  forward := fun w x => [0%Z; (w * x)%Z];
  loss_fn := fun pred b_y => z_sum (map sq_err (combine pred b_y));
  grad_of := fun w b_x b_y => z_sum (map (d_sq_err w) (combine b_x b_y));
  gzero := 0%Z;
  gadd := Z.add;
  set_to_none := to_none;
  opt_step := fun o w g => (o, (w - g)%Z);
  sgt := Z.gtb;
  szero := 0%Z;
  sadd := Z.add;
  sdiv := fun s n => (s / Z.of_nat n)%Z
|}.

Definition init (to_none : bool) (w : Z) : state (learner to_none) :=
  mk_state (learner to_none) w None tt [] 0 [].

(** Three samples, in batches of two, shuffled. *)
Definition samples : list (Z * Z) := [(1, 1); (-1, 0); (2, 1)]%Z.

Definition shuffled (to_none : bool) : loader (Feat (learner to_none) * Z) :=
  mk_loader samples 2 true.

(** The same samples as a validation loader: one batch, not shuffled. *)
Definition held_out (to_none : bool) : loader (Feat (learner to_none) * Z) :=
  mk_loader samples 105 false.

(** One sample of class 1; the initial weight 0 scores it [[0; 0]]. *)
Definition single (to_none : bool) : loader (Feat (learner to_none) * Z) :=
  mk_loader [(1, 1)%Z] 32 true.

End Toy.

(** ** The data table and its preparation (sections 1 and 2) *)

(** A row of [iris.csv]: four measurements and the species name. *)
Record iris_row (F : Type) : Type := mk_row {
  sepal_length : F;
  sepal_width : F;
  petal_length : F;
  petal_width : F;
  species : string
}.

(** Modelled from the spec: pandas' boolean indexing [dataset[extract_rule]]
    (library code): the rows at which the boolean series holds, in order. *)
Definition mask_rows {A : Type} (extract_rule : list bool) (rows : list A)
  : list A :=
  map snd (filter fst (combine extract_rule rows)).

(** [extract_rule = dataset['species'] == name] and
    [dataset[extract_rule]]. *)
Definition select_species {F : Type} (dataset : list (iris_row F))
           (name : string) : list (iris_row F) :=
  let extract_rule := map (fun r => String.eqb (species r) name) dataset in
  mask_rows extract_rule dataset.

(** Modelled from the spec: pandas' [unique()] (library code): the distinct
    values of a column in order of first appearance. *)
Fixpoint unique_from (seen : list string) (column : list string) : list string :=
  match column with
  | [] => []
  | s :: rest =>
      if existsb (String.eqb s) seen then unique_from seen rest
      else s :: unique_from (s :: seen) rest
  end.

Definition unique (column : list string) : list string := unique_from [] column.

(** [n[name] = v] on a dict, kept in insertion order. *)
Fixpoint dict_set (n : list (string * nat)) (name : string) (v : nat)
  : list (string * nat) :=
  match n with
  | [] => [(name, v)]
  | (k, w) :: rest =>
      if String.eqb name k then (name, v) :: rest
      else (k, w) :: dict_set rest name v
  end.

(** Section 1.3 of the classification notebook: the dictionary [n] of the
    number of occurrences of each species. *)
Definition species_counts {F : Type} (dataset : list (iris_row F))
  : list (string * nat) :=
  let species_names := unique (map (@species F) dataset) in
  fold_left (fun n name => dict_set n name (length (select_species dataset name)))
            species_names [].

(** Section 2.1: [x = dataset[['sepal_length', 'sepal_width', 'petal_length',
    'petal_width']].values], one feature vector per row. *)
Definition features {F : Type} (r : iris_row F) : F * F * F * F :=
  (sepal_length r, sepal_width r, petal_length r, petal_width r).

(** Sections 2.1 to 2.3 and 3.4 of the classification notebook in sequence:
    inputs and encoded labels, the test split, the tensor dataset of the
    training part and its split into training and validation loaders.
    Yields the two loaders and [(x_test, y_test)]. *)
Definition prepare {F : Type} (dataset : list (iris_row F)) (n_test : nat)
           (drawn_test drawn_val : list nat)
  : result (loader (F * F * F * F * Z) * loader (F * F * F * F * Z)
            * list (F * F * F * F) * list Z) :=
  let x := map (@features F) dataset in
  y <- encode_labels (map (@species F) dataset) ;;
  parts <- train_test_split x y n_test drawn_test ;;
  let '(x_train, x_test, y_train, y_test) := parts in
  t_dataset <- TensorDataset x_train y_train ;;
  loaders <- train_val_loaders t_dataset drawn_val ;;
  Ok (fst loaders, snd loaders, x_test, y_test).

(** Section 1.4 of the regression notebook: the sepal lengths and widths of
    the setosa rows. *)
Definition setosa_xy {F : Type} (dataset : list (iris_row F)) : list F * list F :=
  let setosa_dataset := select_species dataset "setosa" in
  (map (@sepal_length F) setosa_dataset, map (@sepal_width F) setosa_dataset).

(** [x[:, None]] *)
Definition add_axis {F : Type} (x : list F) : list (list F) :=
  map (fun v => [v]) x.

(** Sections 1.4 and 2.1 of the regression notebook in sequence. *)
Definition setosa_loader {F : Type} (dataset : list (iris_row F))
  : result (loader (list F * F)) :=
  let x := add_axis (fst (setosa_xy dataset)) in
  let y := snd (setosa_xy dataset) in
  regression_loader x y.

(** ** The classifier of section 3.1 *)

(** [class LogisticRegressor]: [self.lin = nn.Linear(4, 3)] and
    [forward(xb) = self.lin(xb)].  The layer is library code; [lin] is its
    action on one row, four features in and three scores out. *)
Definition logistic_forward {P F : Type} (lin : P -> F * F * F * F -> F * F * F)
           (p : P) (xb : F * F * F * F) : list F :=
  let '(s0, s1, s2) := lin p xb in [s0; s1; s2].

(** The targets [nn.CrossEntropyLoss()] accepts for rows of three scores:
    the class indices 0, 1, 2, and its [ignore_index] (-100 by default),
    which is skipped. *)
Definition target_ok (y : Z) : bool :=
  ((0 <=? y) && (y <? 3) || (y =? -100))%Z.

Section Classifier43.

Variables (F P G O : Type).
Variable lin : P -> F * F * F * F -> F * F * F.
Variable cross_entropy : list (list F) -> list Z -> F.
Variable autograd : P -> list (F * F * F * F) -> list Z -> G.
Variables (g0 : G) (gplus : G -> G -> G) (to_none : bool).
Variable adam : O -> P -> G -> O * P.
Variable gtb : F -> F -> bool.
Variables (f0 : F) (fplus : F -> F -> F) (fdiv : F -> nat -> F).

(** [model = LogisticRegressor()], [loss_fn = nn.CrossEntropyLoss()] and
    [optimizer = optim.Adam(model.parameters(), lr=0.1)] as collaborators
    of the loops.  [cross_entropy] is the value of the loss on targets it
    accepts; the call of the loss, which rejects any other target, is
    [CrossEntropyLoss] below, and the loops of sections 3.3 and 3.4 on this
    model are the [logistic_] loops below, which make that call. *)
Definition LogisticRegressor : Learner Z := {|
  Feat := F * F * F * F;
  Scalar := F;
  Params := P;
  Grad := G;
  OptState := O;
  forward := logistic_forward lin;
  loss_fn := cross_entropy;
  grad_of := autograd;
  gzero := g0;
  gadd := gplus;
  set_to_none := to_none;
  opt_step := adam;
  sgt := gtb;
  szero := f0;
  sadd := fplus;
  sdiv := fdiv
|}.

(** Modelled from the spec: [loss_fn(pred, b_y)] for
    [loss_fn = nn.CrossEntropyLoss()] (library code) on rows of three
    scores: a class label out of range is fatal, the call raises
    [IndexError: Target .. is out of bounds]. *)
Definition CrossEntropyLoss (pred : list (list F)) (b_y : list Z) : result F :=
  if forallb target_ok b_y then Ok (cross_entropy pred b_y)
  else Raise IndexError.

(** The body of the inner training loop of sections 3.3 and 3.4 with this
    model and this loss. *)
Definition logistic_train_batch (st : state LogisticRegressor)
           (b : list (Feat LogisticRegressor * Z))
  : result (state LogisticRegressor) :=
  let b_x := map fst b in
  let b_y := map snd b in
  let pred := map (forward LogisticRegressor (params st)) b_x in
  loss <- CrossEntropyLoss pred b_y ;;
  let st := set_losses st (losses st ++ [loss]) in
  hard_preds <- argmax_dim1 gtb pred ;;
  correct <- count_correct hard_preds b_y ;;
  let st := set_n_correct st (n_correct st + correct) in
  let st := backward b_x b_y st in
  let st := step st in
  Ok (zero_grad st).

(** The body of the outer loop of section 3.3. *)
Definition logistic_epoch_acc (dl : loader (Feat LogisticRegressor * Z))
           (drawn : list nat) (st : state LogisticRegressor) (epoch : nat)
  : result (state LogisticRegressor) :=
  let st := set_losses st [] in
  let st := set_n_correct st 0 in
  batches <- iterate dl drawn ;;
  st <- for_each logistic_train_batch st batches ;;
  accuracy <- true_div (n_correct st) (length (dl_dataset dl)) ;;
  avg_loss <- mean LogisticRegressor (losses st) ;;
  Ok (print st (AccLine epoch avg_loss accuracy)).

Definition logistic_fit_acc (dl : loader (Feat LogisticRegressor * Z))
           (draws : nat -> list nat) (n : nat) (st : state LogisticRegressor)
  : result (state LogisticRegressor) :=
  for_each (fun st epoch => logistic_epoch_acc dl (draws epoch) st epoch)
           st (seq 0 n).

(** The body of the loop under [torch.no_grad()] in section 3.4. *)
Definition logistic_eval_batch (st : state LogisticRegressor)
           (b : list (Feat LogisticRegressor * Z))
  : result (state LogisticRegressor) :=
  let b_x := map fst b in
  let b_y := map snd b in
  let pred := map (forward LogisticRegressor (params st)) b_x in
  loss <- CrossEntropyLoss pred b_y ;;
  let st := set_losses st (losses st ++ [loss]) in
  hard_preds <- argmax_dim1 gtb pred ;;
  correct <- count_correct hard_preds b_y ;;
  Ok (set_n_correct st (n_correct st + correct)).

(** The validation pass of section 3.4. *)
Definition logistic_validate (val_dl : loader (Feat LogisticRegressor * Z))
           (drawn : list nat) (st : state LogisticRegressor)
  : result (state LogisticRegressor * Q * F) :=
  let st := set_losses st [] in
  let st := set_n_correct st 0 in
  batches <- iterate val_dl drawn ;;
  st <- for_each logistic_eval_batch st batches ;;
  val_accuracy <- true_div (n_correct st) (length (dl_dataset val_dl)) ;;
  val_avg_loss <- mean LogisticRegressor (losses st) ;;
  Ok (st, val_accuracy, val_avg_loss).

(** The body of the outer loop of section 3.4. *)
Definition logistic_epoch_val
           (train_dl val_dl : loader (Feat LogisticRegressor * Z))
           (drawn : list nat) (st : state LogisticRegressor) (epoch : nat)
  : result (state LogisticRegressor) :=
  let st := set_losses st [] in
  let st := set_n_correct st 0 in
  batches <- iterate train_dl drawn ;;
  st <- for_each logistic_train_batch st batches ;;
  train_accuracy <- true_div (n_correct st) (length (dl_dataset train_dl)) ;;
  train_avg_loss <- mean LogisticRegressor (losses st) ;;
  v <- logistic_validate val_dl drawn st ;;
  let '(st, val_accuracy, val_avg_loss) := v in
  Ok (print st (ValLine epoch train_avg_loss val_avg_loss
                        train_accuracy val_accuracy)).

Definition logistic_fit_val
           (train_dl val_dl : loader (Feat LogisticRegressor * Z))
           (draws : nat -> list nat) (n : nat) (st : state LogisticRegressor)
  : result (state LogisticRegressor) :=
  for_each (fun st epoch =>
              logistic_epoch_val train_dl val_dl (draws epoch) st epoch)
           st (seq 0 n).

End Classifier43.

(** ** Reference notions for the reports *)

(** The training entries of a printed line. *)
Definition train_part {V : Type} (r : report V) : report V :=
  match r with
  | ValLine e train_avg_loss _ train_accuracy _ => AccLine e train_avg_loss train_accuracy
  | _ => r
  end.

(** The loss entry of a printed line. *)
Definition loss_part {V : Type} (r : report V) : report V :=
  match r with
  | AccLine e avg_loss _ => LossLine e avg_loss
  | _ => r
  end.

(** [len(data_loader)]: the number of batches of a pass. *)
Definition n_batches (n batch_size : nat) : nat := (n + batch_size - 1) / batch_size.

(** The number of occurrences of a label. *)
Definition support (l : Z) (ys : list Z) : nat :=
  length (filter (Z.eqb l) ys).

(** A small table: two setosa rows around one versicolor row. *)
Definition toy_table : list (iris_row Z) :=
  [mk_row 51 35 14 2 "setosa"; mk_row 70 32 47 14 "versicolor";
   mk_row 49 30 14 2 "setosa"]%Z.

(** A table shaped like [iris.csv]: 150 distinct rows, 50 of each species
    in turn; the petal length of a row is the index of its species. *)
Definition iris_like_row (i : nat) : iris_row Z :=
  mk_row (Z.of_nat i) (Z.of_nat (i mod 7)) (Z.of_nat (i / 50)) (Z.of_nat (i mod 3))
         (nth (i / 50) ["setosa"; "versicolor"; "virginica"]%string
              "virginica"%string).

Definition iris_like_table : list (iris_row Z) := map iris_like_row (seq 0 150).

Definition iris_like_labels : list Z := map (fun i => Z.of_nat (i / 50)) (seq 0 150).

(** A classifier over integers with one weight [w]: the scores of a row of
    petal length [c] are [0], [w (2 c - 1)] and [w (4 c - 4)]; the loss is
    the squared distance of the target's score from 1, summed over the
    batch, with its gradient; the optimizer subtracts the gradient. *)
Definition toy_lin (w : Z) (x : Z * Z * Z * Z) : Z * Z * Z :=
  let c := snd (fst x) in (0, w * (2 * c - 1), w * (4 * c - 4))%Z.

Definition toy_score (w : Z) (x : Z * Z * Z * Z) (y : Z) : Z :=
  nth (Z.to_nat y) (logistic_forward toy_lin w x) 0%Z.

Definition toy_loss (pred : list (list Z)) (b_y : list Z) : Z :=
  fold_right Z.add 0%Z
    (map (fun ry => let s := nth (Z.to_nat (snd ry)) (fst ry) 0%Z in
                    ((s - 1) * (s - 1))%Z)
         (combine pred b_y)).

Definition toy_grad (w : Z) (b_x : list (Z * Z * Z * Z)) (b_y : list Z) : Z :=
  fold_right Z.add 0%Z
    (map (fun xy => (2 * (toy_score w (fst xy) (snd xy) - 1)
                       * toy_score 1 (fst xy) (snd xy))%Z)
         (combine b_x b_y)).

Definition toy_classifier : Learner Z :=
  LogisticRegressor toy_lin toy_loss toy_grad 0%Z Z.add true
                    (fun (o : unit) w g => (o, (w - g)%Z)) Z.gtb 0%Z Z.add
                    (fun s n => (s / Z.of_nat n)%Z).

(** * Properties *)

(** ** Exceptions *)

Lemma bind_Ok_inv {A B} (m : result A) (k : A -> result B) (b : B) :
  Py.bind m k = Ok b -> exists a, m = Ok a /\ k a = Ok b.
Proof.
  destruct m as [a | e]; simpl; intros H; [ now exists a | discriminate ].
Qed.

Tactic Notation "inv_bind" hyp(H) "as" ident(a) ident(Ha) :=
  apply bind_Ok_inv in H; destruct H as (a & Ha & H).

Lemma map_list_Ok_Forall2 {A B} (f : A -> result B) (xs : list A) (ys : list B) :
  map_list f xs = Ok ys <-> Forall2 (fun x y => f x = Ok y) xs ys.
Proof.
  revert ys; induction xs as [| x xs IH]; intros ys; simpl.
  - split; intros H.
    + injection H as <-. constructor.
    + inversion H. reflexivity.
  - split; intros H.
    + inv_bind H as y Hy. inv_bind H as ys' Hys. injection H as <-.
      constructor; [ assumption | now apply IH ].
    + inversion H as [| ? y ? ys' Hx Hxs]; subst.
      rewrite Hx; simpl. apply IH in Hxs. now rewrite Hxs.
Qed.

Lemma map_list_raises {A B} (f : A -> result B) (xs : list A) :
  raises (map_list f xs) <-> Exists (fun x => raises (f x)) xs.
Proof.
  induction xs as [| x xs IH]; simpl.
  - split; [ intros [e H]; discriminate | intros H; inversion H ].
  - split.
    + intros [e H]. destruct (f x) as [y | e'] eqn:Hx; simpl in H.
      * right. apply IH. destruct (map_list f xs); [ discriminate | eexists; reflexivity ].
      * left. now exists e'.
    + intros H. destruct (f x) as [y | e'] eqn:Hx; simpl.
      * inversion H as [? ? [e He] | ? ? Hex]; subst; [ congruence | ].
        apply IH in Hex. destruct Hex as [e He]. rewrite He. now exists e.
      * now exists e'.
Qed.

(** ** Label encoding *)

Lemma recognized_dec (s : string) :
  recognized s \/
  (String.eqb s "setosa" = false /\ String.eqb s "versicolor" = false /\
   String.eqb s "virginica" = false).
Proof.
  unfold recognized.
  destruct (String.eqb_spec s "setosa"); [ tauto | ].
  destruct (String.eqb_spec s "versicolor"); [ tauto | ].
  destruct (String.eqb_spec s "virginica"); tauto.
Qed.

Lemma encode_species_range (s : string) (n : Z) :
  encode_species s = Ok n -> recognized s /\ (0 <= n <= 2)%Z.
Proof.
  unfold encode_species, recognized.
  destruct (String.eqb_spec s "setosa");
    [ intros H; injection H as <-; split; [ tauto | lia ] | ].
  destruct (String.eqb_spec s "versicolor");
    [ intros H; injection H as <-; split; [ tauto | lia ] | ].
  destruct (String.eqb_spec s "virginica");
    [ intros H; injection H as <-; split; [ tauto | lia ] | discriminate ].
Qed.

Lemma encode_species_raises (s : string) :
  raises (encode_species s) <-> ~ recognized s.
Proof.
  split.
  - intros [e He] Hr. unfold encode_species in He.
    destruct Hr as [-> | [-> | ->]]; discriminate.
  - intros Hn. destruct (recognized_dec s) as [Hr | (H1 & H2 & H3)]; [ tauto | ].
    unfold encode_species. rewrite H1, H2, H3. eexists; reflexivity.
Qed.

(** C8: [encode_species] maps the three species names to 0, 1 and 2 and
    raises a [ValueError] on every other string, so it raises exactly on
    the unrecognized strings and every label it returns is 0, 1 or 2;
    encoding a whole column raises as soon as one entry is unrecognized
    (nothing is recovered) and otherwise yields labels in {0, 1, 2} only. *)
Theorem encode_species_spec (s : string) :
  (encode_species s = Ok 0%Z <-> s = "setosa"%string) /\
  (encode_species s = Ok 1%Z <-> s = "versicolor"%string) /\
  (encode_species s = Ok 2%Z <-> s = "virginica"%string) /\
  (raises (encode_species s) <-> ~ recognized s) /\
  (forall e, encode_species s = Raise e ->
     e = ValueError ("Species '" ++ s ++ "' is not recognized.")%string) /\
  (forall n, encode_species s = Ok n -> n = 0%Z \/ n = 1%Z \/ n = 2%Z) /\
  (forall column,
     (raises (encode_labels column) <-> Exists (fun c => ~ recognized c) column) /\
     (forall ys, encode_labels column = Ok ys ->
        length ys = length column /\
        Forall (fun y => y = 0%Z \/ y = 1%Z \/ y = 2%Z) ys)).
Proof.
  assert (Hval : forall c n, encode_species c = Ok n -> n = 0%Z \/ n = 1%Z \/ n = 2%Z).
  { intros c n H. apply encode_species_range in H. lia. }
  repeat split.
  - unfold encode_species.
    destruct (String.eqb_spec s "setosa"); [ easy | ].
    destruct (String.eqb s "versicolor"); [ discriminate | ].
    destruct (String.eqb s "virginica"); discriminate.
  - now intros ->.
  - unfold encode_species.
    destruct (String.eqb_spec s "setosa"); [ discriminate | ].
    destruct (String.eqb_spec s "versicolor"); [ easy | ].
    destruct (String.eqb s "virginica"); discriminate.
  - now intros ->.
  - unfold encode_species.
    destruct (String.eqb_spec s "setosa"); [ discriminate | ].
    destruct (String.eqb_spec s "versicolor"); [ discriminate | ].
    destruct (String.eqb_spec s "virginica"); [ easy | discriminate ].
  - now intros ->.
  - apply encode_species_raises.
  - apply encode_species_raises.
  - intros e. unfold encode_species.
    destruct (String.eqb s "setosa"); [ discriminate | ].
    destruct (String.eqb s "versicolor"); [ discriminate | ].
    destruct (String.eqb s "virginica"); [ discriminate | ].
    intros H; now injection H as <-.
  - apply Hval.
  - unfold encode_labels. rewrite map_list_raises. intros H.
    apply Exists_exists in H. destruct H as (c & Hin & Hc).
    apply Exists_exists. exists c. split; [ assumption | ].
    now apply encode_species_raises.
  - unfold encode_labels. rewrite map_list_raises. intros H.
    apply Exists_exists in H. destruct H as (c & Hin & Hc).
    apply Exists_exists. exists c. split; [ assumption | ].
    now apply encode_species_raises.
  - unfold encode_labels in H. apply map_list_Ok_Forall2 in H.
    symmetry. eapply Forall2_length; eassumption.
  - unfold encode_labels in H. apply map_list_Ok_Forall2 in H.
    induction H as [| c y cs ys' Hc _ IH]; constructor; [ | assumption ].
    eapply Hval; eassumption.
Qed.

(** ** Maximum selection *)

Section Argmax.

Variable V : Type.
Variable gt : V -> V -> bool.

(** [>] on scores is a strict order whose complement is transitive (a strict
    weak order), as on floats that are not NaN. *)
Hypothesis gt_asym : forall a b, gt a b = true -> gt b a = false.
Hypothesis le_trans : forall a b c, gt a b = false -> gt b c = false -> gt a c = false.

Lemma gt_irrefl (a : V) : gt a a = false.
Proof.
  destruct (gt a a) eqn:E; [ | reflexivity ].
  pose proof (gt_asym E). congruence.
Qed.

Lemma nth_error_snoc (pre : list V) (v w : V) (j : nat) :
  nth_error (pre ++ [v]) j = Some w ->
  nth_error pre j = Some w \/ (j = length pre /\ w = v).
Proof.
  intros H. destruct (Nat.lt_ge_cases j (length pre)) as [Hlt | Hge].
  - left. now rewrite nth_error_app1 in H.
  - right. rewrite nth_error_app2 in H by assumption.
    destruct (j - length pre) as [| k] eqn:E; simpl in H.
    + injection H as <-. split; [ lia | reflexivity ].
    + destruct k; discriminate.
Qed.

Lemma argmax_from_first_max (rest pre : list V) (best_i : nat) (best : V) :
  first_max gt pre best_i -> nth_error pre best_i = Some best ->
  first_max gt (pre ++ rest) (argmax_from gt best_i best (length pre) rest).
Proof.
  revert pre best_i best.
  induction rest as [| v rest IH]; intros pre best_i best Hfm Hbest; simpl.
  - now rewrite app_nil_r.
  - destruct Hfm as (m & Hm & Hmax & Hfirst).
    assert (m = best) by congruence; subst m.
    replace (pre ++ v :: rest) with ((pre ++ [v]) ++ rest)
      by (rewrite <- app_assoc; reflexivity).
    replace (S (length pre)) with (length (pre ++ [v]))
      by (rewrite length_app; simpl; lia).
    destruct (gt v best) eqn:Hv.
    + apply IH.
      * exists v. split; [ | split ].
        -- rewrite nth_error_app2 by lia. now rewrite Nat.sub_diag.
        -- intros j w Hj. apply nth_error_snoc in Hj.
           destruct Hj as [Hj | [_ ->]]; [ | apply gt_irrefl ].
           apply le_trans with best; [ eapply Hmax; eassumption | ].
           now apply gt_asym.
        -- intros j w Hj Htie. apply nth_error_snoc in Hj.
           destruct Hj as [Hj | [-> _]]; [ | lia ].
           assert (gt v best = false); [ | congruence ].
           apply le_trans with w; [ assumption | eapply Hmax; eassumption ].
      * rewrite nth_error_app2 by lia. now rewrite Nat.sub_diag.
    + apply IH.
      * exists best. split; [ | split ].
        -- rewrite nth_error_app1; [ assumption | ].
           apply nth_error_Some. congruence.
        -- intros j w Hj. apply nth_error_snoc in Hj.
           destruct Hj as [Hj | [_ ->]]; [ eapply Hmax; eassumption | assumption ].
        -- intros j w Hj Htie. apply nth_error_snoc in Hj.
           destruct Hj as [Hj | [-> _]]; [ eapply Hfirst; eassumption | ].
           apply Nat.lt_le_incl, nth_error_Some. congruence.
      * rewrite nth_error_app1; [ assumption | ].
        apply nth_error_Some. congruence.
Qed.

(** On a non-empty row the scan returns the first index of a maximal
    score. *)
Lemma argmax_first_max (row : list V) :
  row <> [] -> exists i, argmax gt row = Ok i /\ first_max gt row i.
Proof.
  destruct row as [| v rest]; [ congruence | intros _ ].
  exists (argmax_from gt 0 v 1 rest). split; [ reflexivity | ].
  apply (@argmax_from_first_max rest [v] 0 v); [ | reflexivity ].
  exists v. split; [ reflexivity | split ].
  - intros [| j] w Hj; simpl in Hj; [ | destruct j; discriminate ].
    injection Hj as <-. apply gt_irrefl.
  - intros; lia.
Qed.

(** C5: [pred.argmax(dim=1)] on a batch of non-empty score rows yields, for
    every row, an index whose score is maximal in the row and below which
    no score ties with it: among tying classes the lowest index is the
    hard prediction. *)
Theorem argmax_lowest_on_ties (pred : list (list V)) :
  Forall (fun row => row <> []) pred ->
  exists hard_preds,
    argmax_dim1 gt pred = Ok hard_preds /\
    Forall2 (fun row h =>
               exists i m,
                 h = Z.of_nat i /\
                 nth_error row i = Some m /\
                 (forall j v, nth_error row j = Some v -> gt v m = false) /\
                 (forall j v, nth_error row j = Some v -> gt m v = false -> i <= j))
            pred hard_preds.
Proof.
  induction 1 as [| row pred Hrow _ (hs & Hhs & Hall)].
  - exists []. split; [ reflexivity | constructor ].
  - destruct (argmax_first_max Hrow) as (i & Hi & m & Hm & Hmax & Hfirst).
    exists (Z.of_nat i :: hs). split.
    + unfold argmax_dim1 in *. simpl. rewrite Hi. simpl. now rewrite Hhs.
    + constructor; [ | exact Hall ]. now exists i, m.
Qed.

End Argmax.

(** Two rows: the maximum 7 at indices 1 and 2, and the maximum 5 at indices
    0 and 1. *)
Lemma argmax_lowest_on_ties_witness :
  exists hard_preds,
    argmax_dim1 Z.gtb [[3; 7; 7; 1]; [5; 5]]%Z = Ok hard_preds /\
    Forall2 (fun row h =>
               exists i m,
                 h = Z.of_nat i /\
                 nth_error row i = Some m /\
                 (forall j v, nth_error row j = Some v -> Z.gtb v m = false) /\
                 (forall j v, nth_error row j = Some v -> Z.gtb m v = false -> i <= j))
            [[3; 7; 7; 1]; [5; 5]]%Z hard_preds.
Proof.
  apply (@argmax_lowest_on_ties Z Z.gtb).
  - intros a b H. apply Z.gtb_gt in H. rewrite Z.gtb_ltb. apply Z.ltb_ge. lia.
  - intros a b c. rewrite !Z.gtb_ltb, !Z.ltb_ge. lia.
  - repeat constructor; discriminate.
Defined.

(** ** Batching *)

Section Batching.

Variable A : Type.

Lemma batch_sampler_concat (n : nat) (rest cur : list nat) :
  concat (batch_sampler n cur rest) = cur ++ rest.
Proof.
  revert cur; induction rest as [| idx rest IH]; intros cur; simpl.
  - destruct cur; simpl; now rewrite ?app_nil_r.
  - destruct (Nat.eqb (length (cur ++ [idx])) n); simpl; rewrite IH;
      now rewrite <- app_assoc.
Qed.

Lemma batch_sampler_single (n : nat) (rest cur : list nat) :
  length cur + length rest <= n -> cur ++ rest <> [] ->
  batch_sampler n cur rest = [cur ++ rest].
Proof.
  revert cur; induction rest as [| idx rest IH]; intros cur Hlen Hne; simpl.
  - rewrite app_nil_r in *. destruct cur; [ congruence | reflexivity ].
  - simpl in Hlen.
    destruct (Nat.eqb_spec (length (cur ++ [idx])) n) as [E | E].
    + rewrite length_app in E; simpl in E.
      destruct rest; [ | simpl in Hlen; lia ].
      reflexivity.
    + rewrite IH.
      * now rewrite <- app_assoc.
      * rewrite length_app; simpl; lia.
      * destruct cur; discriminate.
Qed.

Lemma take_rows_in_range (ds : list A) (order : list nat) :
  Forall (fun i => i < length ds) order ->
  take_rows ds order = Ok (rows_at ds order).
Proof.
  unfold take_rows, rows_at.
  induction 1 as [| i order Hi _ IH]; simpl; [ reflexivity | ].
  rewrite IH. unfold getitem, row_at.
  apply nth_error_Some in Hi.
  destruct (nth_error ds i) as [a |]; [ reflexivity | congruence ].
Qed.

Lemma rows_at_seq_from (pre ds : list A) :
  rows_at (pre ++ ds) (seq (length pre) (length ds)) = ds.
Proof.
  revert pre; induction ds as [| a ds IH]; intros pre; simpl; [ reflexivity | ].
  unfold rows_at in *; simpl. unfold row_at at 1.
  rewrite nth_error_app2, Nat.sub_diag by lia. simpl.
  f_equal.
  specialize (IH (pre ++ [a])).
  rewrite <- app_assoc, length_app in IH. simpl in IH.
  now rewrite Nat.add_1_r in IH.
Qed.

Lemma rows_at_seq (ds : list A) : rows_at ds (seq 0 (length ds)) = ds.
Proof. exact (rows_at_seq_from [] ds). Qed.

Lemma rows_at_app (ds : list A) (o1 o2 : list nat) :
  rows_at ds (o1 ++ o2) = rows_at ds o1 ++ rows_at ds o2.
Proof. apply flat_map_app. Qed.

Lemma rows_at_concat (ds : list A) (bss : list (list nat)) :
  concat (map (rows_at ds) bss) = rows_at ds (concat bss).
Proof.
  induction bss as [| b bss IH]; simpl; [ reflexivity | ].
  now rewrite rows_at_app, IH.
Qed.

Lemma rows_at_length (ds : list A) (order : list nat) :
  Forall (fun i => i < length ds) order ->
  length (rows_at ds order) = length order.
Proof.
  unfold rows_at.
  induction 1 as [| i order Hi _ IH]; simpl; [ reflexivity | ].
  rewrite length_app, IH. unfold row_at.
  apply nth_error_Some in Hi.
  destruct (nth_error ds i); [ reflexivity | congruence ].
Qed.

Lemma rows_at_perm (ds : list A) (order : list nat) :
  Permutation order (seq 0 (length ds)) -> Permutation (rows_at ds order) ds.
Proof.
  intros H. rewrite <- (rows_at_seq ds) at 2.
  unfold rows_at. now apply Permutation_flat_map.
Qed.

Lemma perm_in_range (n : nat) (order : list nat) :
  Permutation order (seq 0 n) -> Forall (fun i => i < n) order.
Proof.
  intros H. apply Forall_forall. intros i Hi.
  apply (Permutation_in _ H), in_seq in Hi. lia.
Qed.

Lemma take_batches_in_range (ds : list A) (bss : list (list nat)) :
  Forall (fun i => i < length ds) (concat bss) ->
  map_list (take_rows ds) bss = Ok (map (rows_at ds) bss).
Proof.
  induction bss as [| b bss IH]; simpl; intros H; [ reflexivity | ].
  apply Forall_app in H. destruct H as [Hb Hbss].
  now rewrite take_rows_in_range, IH.
Qed.

(** One pass over a loader whose sampler order is a permutation of the
    dataset's indices: the batches are the rows at the sampled index
    batches, and together they are the dataset, reordered. *)
Lemma batch_sampler_nonempty (n : nat) (rest cur : list nat) :
  Forall (fun b => b <> []) (batch_sampler n cur rest).
Proof.
  revert cur; induction rest as [| idx rest IH]; intros cur; simpl.
  - destruct cur; constructor; [ discriminate | constructor ].
  - destruct (Nat.eqb (length (cur ++ [idx])) n); [ | apply IH ].
    constructor; [ destruct cur; discriminate | apply IH ].
Qed.

Lemma rows_at_batches_nonempty (ds : list A) (bss : list (list nat)) :
  Forall (fun i => i < length ds) (concat bss) ->
  Forall (fun b => b <> []) bss ->
  Forall (fun b => b <> []) (map (rows_at ds) bss).
Proof.
  induction bss as [| b bss IH]; simpl; intros Hr Hne; [ constructor | ].
  apply Forall_app in Hr. destruct Hr as [Hb Hbss].
  inversion Hne as [| ? ? Hb0 Hne']; subst.
  constructor; [ | now apply IH ].
  intros E. apply (f_equal (@length _)) in E.
  rewrite rows_at_length in E by assumption.
  simpl in E. now apply length_zero_iff_nil in E.
Qed.

Lemma iterate_ok (dl : loader A) (drawn : list nat) :
  Permutation (sampler_order dl drawn) (seq 0 (length (dl_dataset dl))) ->
  exists batches,
    iterate dl drawn = Ok batches /\
    concat batches = rows_at (dl_dataset dl) (sampler_order dl drawn) /\
    Permutation (concat batches) (dl_dataset dl) /\
    Forall (fun b => b <> []) batches.
Proof.
  intros Hperm.
  exists (map (rows_at (dl_dataset dl))
              (batch_sampler (dl_batch_size dl) [] (sampler_order dl drawn))).
  assert (Hc : concat (map (rows_at (dl_dataset dl))
              (batch_sampler (dl_batch_size dl) [] (sampler_order dl drawn)))
            = rows_at (dl_dataset dl) (sampler_order dl drawn)).
  { now rewrite rows_at_concat, batch_sampler_concat. }
  split; [ | split; [ | split ] ].
  - unfold iterate. apply take_batches_in_range.
    rewrite batch_sampler_concat. simpl. now apply perm_in_range.
  - exact Hc.
  - rewrite Hc. now apply rows_at_perm.
  - apply rows_at_batches_nonempty; [ | apply batch_sampler_nonempty ].
    rewrite batch_sampler_concat. simpl. now apply perm_in_range.
Qed.

Lemma sampler_order_perm (dl : loader A) (drawn : list nat) :
  (dl_shuffle dl = true -> Permutation drawn (seq 0 (length (dl_dataset dl)))) ->
  Permutation (sampler_order dl drawn) (seq 0 (length (dl_dataset dl))).
Proof.
  unfold sampler_order. destruct (dl_shuffle dl); intros H; [ now apply H | reflexivity ].
Qed.

(** With a batch size of at least the dataset's size, one pass over a
    non-empty dataset yields a single batch, the whole dataset in sampler
    order. *)
Lemma iterate_full_batch (dataset : list A) (batch_size : nat) (shuffle : bool)
      (drawn : list nat) :
  dataset <> [] -> length dataset <= batch_size ->
  (shuffle = true -> Permutation drawn (seq 0 (length dataset))) ->
  exists dl,
    DataLoader dataset batch_size shuffle = Ok dl /\
    dl_dataset dl = dataset /\
    iterate dl drawn = Ok [rows_at dataset (sampler_order dl drawn)] /\
    Permutation (rows_at dataset (sampler_order dl drawn)) dataset /\
    (shuffle = false -> rows_at dataset (sampler_order dl drawn) = dataset).
Proof.
  intros Hne Hlen Hdrawn.
  exists (mk_loader dataset batch_size shuffle).
  assert (Hpos : Nat.eqb batch_size 0 = false).
  { apply Nat.eqb_neq. destruct dataset; [ congruence | simpl in Hlen; lia ]. }
  assert (Hperm : Permutation (sampler_order (mk_loader dataset batch_size shuffle) drawn)
                              (seq 0 (length dataset))).
  { apply sampler_order_perm. exact Hdrawn. }
  split; [ | split; [ | split; [ | split ] ] ].
  - unfold DataLoader. now rewrite Hpos.
  - reflexivity.
  - unfold iterate; simpl.
    rewrite batch_sampler_single.
    + simpl. rewrite take_rows_in_range; [ reflexivity | ].
      now apply perm_in_range.
    + simpl. apply Permutation_length in Hperm. rewrite length_seq in Hperm. lia.
    + simpl. intros E. rewrite E in Hperm. apply Permutation_length in Hperm.
      rewrite length_seq in Hperm. destruct dataset; [ congruence | discriminate ].
  - now apply rows_at_perm.
  - intros ->. unfold sampler_order; simpl. apply rows_at_seq.
Qed.

End Batching.

(** ** The training step *)

Section Training.

Variable T : Type.
Variable L : Learner T.

Local Abbreviation batch := (list (Feat L * T)).

Lemma same_model_refl (st : state L) : same_model st st.
Proof. repeat split. Qed.

Lemma same_model_sym (s1 s2 : state L) : same_model s1 s2 -> same_model s2 s1.
Proof. intros (H1 & H2 & H3). repeat split; congruence. Qed.

Lemma same_model_trans (s1 s2 s3 : state L) :
  same_model s1 s2 -> same_model s2 s3 -> same_model s1 s3.
Proof. intros (H1 & H2 & H3) (K1 & K2 & K3). repeat split; congruence. Qed.

Lemma same_model_set_losses (st : state L) ls : same_model (set_losses st ls) st.
Proof. repeat split. Qed.

(** [optimize] reads and writes the model and the optimizer only. *)
Lemma optimize_same_model (b : batch) (s1 s2 : state L) :
  same_model s1 s2 -> same_model (optimize b s1) (optimize b s2).
Proof.
  destruct s1 as [p1 g1 o1 l1 n1 out1], s2 as [p2 g2 o2 l2 n2 out2].
  intros (Hp & Hg & Ho); simpl in *; subst.
  unfold optimize, zero_grad, step, backward, same_model; simpl.
  destruct g2 as [acc |]; simpl;
    match goal with |- context [opt_step L ?o ?p ?g] =>
      destruct (opt_step L o p g) end; simpl; auto.
Qed.

Lemma optimize_frame (b : batch) (st : state L) :
  losses (optimize b st) = losses st /\
  n_correct (optimize b st) = n_correct st /\
  stdout (optimize b st) = stdout st.
Proof.
  destruct st as [p g o l n out].
  unfold optimize, zero_grad, step, backward; simpl.
  destruct g as [acc |]; simpl;
    match goal with |- context [opt_step L ?o ?p ?g] =>
      destruct (opt_step L o p g) end; simpl; auto.
Qed.

Lemma run_model_same_model (bs : list batch) (s1 s2 : state L) :
  same_model s1 s2 -> same_model (run_model bs s1) (run_model bs s2).
Proof.
  revert s1 s2; induction bs as [| b bs IH]; intros s1 s2 H; simpl; [ exact H | ].
  apply IH. now apply optimize_same_model.
Qed.

Lemma params_trace_same_model (bs : list batch) (s1 s2 : state L) :
  same_model s1 s2 -> params_trace s1 bs = params_trace s2 bs.
Proof.
  revert s1 s2; induction bs as [| b bs IH]; intros s1 s2 H; simpl; [ reflexivity | ].
  f_equal; [ apply H | ]. apply IH. now apply optimize_same_model.
Qed.

Lemma batch_losses_same_model (bs : list batch) (s1 s2 : state L) :
  same_model s1 s2 -> batch_losses s1 bs = batch_losses s2 bs.
Proof.
  intros H. unfold batch_losses. now rewrite (params_trace_same_model bs H).
Qed.

Lemma batch_losses_length (bs : list batch) (st : state L) :
  length (batch_losses st bs) = length bs.
Proof.
  unfold batch_losses. rewrite length_map, length_combine.
  assert (H : length (params_trace st bs) = length bs).
  { revert st; induction bs as [| b bs IH]; intros st; simpl; [ reflexivity | ].
    now rewrite IH. }
  rewrite H. apply Nat.min_id.
Qed.

(** After [backward], [step], [zero_grad] the buffer is cleared, whatever
    it held before. *)
Lemma optimize_cleared (b : batch) (st : state L) : cleared (optimize b st).
Proof.
  destruct st as [p g o l n out].
  unfold cleared, optimize, zero_grad, step, backward; simpl.
  destruct g as [acc |]; simpl;
    match goal with |- context [opt_step L ?o ?p ?g] =>
      destruct (opt_step L o p g) end; simpl;
    destruct (set_to_none L); auto.
Qed.

Lemma cleared_same_model (s1 s2 : state L) :
  same_model s1 s2 -> cleared s1 -> cleared s2.
Proof. intros (_ & Hg & _). unfold cleared. now rewrite Hg. Qed.

Section ZeroIsNeutral.

(** Adding a gradient to a zero-filled buffer yields that gradient. *)
Hypothesis gadd_gzero : forall g, gadd L (gzero L) g = g.

(** From a cleared buffer, [backward] leaves in the buffer the gradient of
    its own batch only. *)
Lemma backward_fresh (b_x : list (Feat L)) (b_y : list T) (st : state L) :
  cleared st ->
  grad (backward b_x b_y st) = Some (grad_of L (params st) b_x b_y).
Proof.
  intros [H | H]; unfold backward; simpl; rewrite H;
    [ reflexivity | now rewrite gadd_gzero ].
Qed.

Lemma optimize_fresh (b : batch) (st : state L) :
  cleared st ->
  (opt (optimize b st), params (optimize b st))
  = fresh_step L (opt st, params st) b.
Proof.
  intros Hc. pose proof (backward_fresh (map fst b) (map snd b) Hc) as Hg.
  unfold optimize, fresh_step, zero_grad, step. rewrite Hg. simpl.
  destruct (opt_step L (opt st) (params st)
                     (grad_of L (params st) (map fst b) (map snd b))) as [o p].
  reflexivity.
Qed.

Lemma run_model_fresh (bs : list batch) (st : state L) :
  cleared st ->
  (opt (run_model bs st), params (run_model bs st))
  = fold_left (fresh_step L) bs (opt st, params st).
Proof.
  revert st; induction bs as [| b bs IH]; intros st Hc; simpl; [ reflexivity | ].
  rewrite <- (optimize_fresh b Hc). apply IH. apply optimize_cleared.
Qed.

End ZeroIsNeutral.

(** Loops over a body that [trains]. *)
Section Body.

Variable body : state L -> batch -> result (state L).
Hypothesis body_trains : trains body.

Lemma for_each_trains (bs : list batch) (st st' : state L) :
  for_each body st bs = Ok st' ->
  same_model st' (run_model bs st) /\ stdout st' = stdout st.
Proof.
  revert st; induction bs as [| b bs IH]; intros st H; simpl in H.
  - injection H as <-. split; [ apply same_model_refl | reflexivity ].
  - inv_bind H as a Ha. apply body_trains in Ha. destruct Ha as [Hm Hout].
    apply IH in H. destruct H as [Hm' Hout']. split; [ | congruence ].
    eapply same_model_trans; [ exact Hm' | ].
    simpl. now apply run_model_same_model.
Qed.

Lemma for_each_cleared (bs : list batch) (st st' : state L) :
  cleared st -> for_each body st bs = Ok st' -> cleared st'.
Proof.
  revert st; induction bs as [| b bs IH]; intros st Hc H; simpl in H.
  - now injection H as <-.
  - inv_bind H as a Ha. apply IH in H; [ assumption | ].
    apply body_trains in Ha. destruct Ha as [Hm _].
    apply cleared_same_model with (optimize b st);
      [ now apply same_model_sym | apply optimize_cleared ].
Qed.

End Body.

Lemma train_batch_loss_eq (st : state L) (b : batch) :
  train_batch_loss st b
  = Ok (optimize b (set_losses st (losses st ++ [batch_loss L (params st) b]))).
Proof. reflexivity. Qed.

Lemma train_batch_loss_trains : trains (@train_batch_loss T L).
Proof.
  intros st b st' H. rewrite train_batch_loss_eq in H. injection H as <-.
  split.
  - apply optimize_same_model, same_model_set_losses.
  - now destruct (optimize_frame b
      (set_losses st (losses st ++ [batch_loss L (params st) b]))) as (_ & _ & ->).
Qed.

(** The inner loop of the loss-only cells: it always completes, appends
    one loss per batch, each under the parameters in force when the batch
    starts, and acts on the model as [run_model]. *)
Lemma for_each_train_batch_loss (bs : list batch) (st : state L) :
  exists st',
    for_each (@train_batch_loss T L) st bs = Ok st' /\
    same_model st' (run_model bs st) /\
    losses st' = losses st ++ batch_losses st bs /\
    n_correct st' = n_correct st /\
    stdout st' = stdout st.
Proof.
  revert st; induction bs as [| b bs IH]; intros st.
  - exists st. simpl. rewrite app_nil_r.
    repeat split; reflexivity.
  - set (st1 := optimize b (set_losses st (losses st ++ [batch_loss L (params st) b]))).
    destruct (IH st1) as (st' & Hrun & Hm & Hl & Hn & Hout).
    assert (Hm1 : same_model st1 (optimize b st)).
    { apply optimize_same_model, same_model_set_losses. }
    destruct (optimize_frame b (set_losses st (losses st ++ [batch_loss L (params st) b])))
      as (Fl & Fn & Fout).
    exists st'. split; [ | split; [ | split; [ | split ] ] ].
    + simpl. exact Hrun.
    + eapply same_model_trans; [ exact Hm | ].
      simpl. now apply run_model_same_model.
    + rewrite Hl. fold st1 in Fl. rewrite Fl. simpl.
      rewrite <- app_assoc. simpl. unfold batch_losses at 2. simpl.
      fold (batch_losses (optimize b st) bs).
      now rewrite (batch_losses_same_model bs Hm1).
    + rewrite Hn. exact Fn.
    + rewrite Hout. exact Fout.
Qed.

End Training.

(** ** Counting correct predictions *)

Section Counting.

Variable L : Learner Z.

Local Abbreviation batch := (list (Feat L * Z)).

Lemma matches_hits (p : Params L) (b : batch) (hard_preds : list Z) :
  argmax_dim1 (sgt L) (map (forward L p) (map fst b)) = Ok hard_preds ->
  length hard_preds = length b /\
  matches hard_preds (map snd b) = hits L p b.
Proof.
  revert hard_preds; induction b as [| [x y] b IH]; intros hard H.
  - simpl in H. injection H as <-. split; reflexivity.
  - unfold argmax_dim1 in H. simpl in H.
    inv_bind H as h Hh. inv_bind Hh as i Hi. injection Hh as <-.
    inv_bind H as hs Hhs. injection H as <-.
    destruct (IH _ Hhs) as [IHlen IHm].
    split; [ simpl; now rewrite IHlen | ].
    unfold matches, hits in *. simpl.
    unfold hit at 1. simpl. rewrite Hi.
    destruct (Z.eqb (Z.of_nat i) y); simpl; now rewrite IHm.
Qed.

Lemma count_correct_hits (p : Params L) (b : batch) (hard_preds : list Z) (k : nat) :
  argmax_dim1 (sgt L) (map (forward L p) (map fst b)) = Ok hard_preds ->
  count_correct hard_preds (map snd b) = Ok k ->
  k = hits L p b.
Proof.
  intros H Hk. apply matches_hits in H. destruct H as [_ <-].
  unfold count_correct in Hk.
  destruct (combine hard_preds (map snd b)); [ discriminate | ].
  now injection Hk as <-.
Qed.

Lemma count_correct_total (p : Params L) (b : batch) (hard_preds : list Z) :
  b <> [] ->
  argmax_dim1 (sgt L) (map (forward L p) (map fst b)) = Ok hard_preds ->
  count_correct hard_preds (map snd b) = Ok (hits L p b).
Proof.
  intros Hb H. apply matches_hits in H. destruct H as [Hlen <-].
  unfold count_correct.
  destruct b as [| xy b]; [ congruence | ].
  destruct hard_preds as [| h hs]; [ discriminate | reflexivity ].
Qed.

Lemma argmax_dim1_total (p : Params L) (xs : list (Feat L)) :
  scores_nonempty L ->
  exists hard_preds, argmax_dim1 (sgt L) (map (forward L p) xs) = Ok hard_preds.
Proof.
  intros Hne. induction xs as [| x xs [hs IH]]; simpl.
  - now exists [].
  - unfold argmax_dim1 in *. simpl. rewrite IH.
    specialize (Hne p x). destruct (forward L p x) as [| v row]; [ congruence | ].
    simpl. eexists; reflexivity.
Qed.

Lemma hits_le (p : Params L) (b : batch) : hits L p b <= length b.
Proof. apply filter_length_le. Qed.

Lemma epoch_hits_le (st : state L) (bs : list batch) :
  epoch_hits st bs <= length (concat bs).
Proof.
  unfold epoch_hits. revert st; induction bs as [| b bs IH]; intros st; simpl.
  - lia.
  - rewrite length_app. specialize (IH (optimize b st)).
    pose proof (hits_le (params st) b). lia.
Qed.

Lemma epoch_hits_same_model (bs : list batch) (s1 s2 : state L) :
  same_model s1 s2 -> epoch_hits s1 bs = epoch_hits s2 bs.
Proof.
  intros H. unfold epoch_hits. now rewrite (params_trace_same_model bs H).
Qed.

(** What one training batch with accuracy bookkeeping does: the loss and
    the correct predictions are those under the parameters of the forward
    pass, before the optimizer step of the batch. *)
Lemma train_batch_acc_inv (st st' : state L) (b : batch) :
  train_batch_acc st b = Ok st' ->
  st' = optimize b
          (set_n_correct (set_losses st (losses st ++ [batch_loss L (params st) b]))
                         (n_correct st + hits L (params st) b)).
Proof.
  unfold train_batch_acc. intros H. inv_bind H as hs Ha. inv_bind H as k Hk.
  injection H as <-.
  simpl in Ha, Hk. rewrite (count_correct_hits _ _ Ha Hk). reflexivity.
Qed.

Lemma train_batch_acc_total (st : state L) (b : batch) :
  scores_nonempty L -> b <> [] -> exists st', train_batch_acc st b = Ok st'.
Proof.
  intros Hne Hb. unfold train_batch_acc.
  destruct (argmax_dim1_total (params st) (map fst b) Hne) as [hs Hhs].
  simpl. rewrite Hhs. simpl.
  rewrite (count_correct_total _ Hb Hhs). simpl. eexists; reflexivity.
Qed.

Lemma train_batch_acc_trains : trains (train_batch_acc (L := L)).
Proof.
  intros st b st' H. apply train_batch_acc_inv in H. subst st'. split.
  - apply optimize_same_model. repeat split.
  - match goal with |- stdout (optimize b ?s) = _ =>
      now destruct (optimize_frame b s) as (_ & _ & ->) end.
Qed.

Lemma for_each_train_batch_acc (bs : list batch) (st st' : state L) :
  for_each (train_batch_acc (L := L)) st bs = Ok st' ->
  same_model st' (run_model bs st) /\
  losses st' = losses st ++ batch_losses st bs /\
  n_correct st' = n_correct st + epoch_hits st bs /\
  stdout st' = stdout st.
Proof.
  revert st; induction bs as [| b bs IH]; intros st H; simpl in H.
  - injection H as <-. rewrite app_nil_r. unfold epoch_hits; simpl.
    repeat split; lia.
  - inv_bind H as a Ha. apply train_batch_acc_inv in Ha.
    apply IH in H. destruct H as (Hm & Hl & Hn & Hout).
    match type of Ha with _ = optimize b ?s =>
      destruct (optimize_frame b s) as (Fl & Fn & Fout);
      assert (Hm1 : same_model a (optimize b st))
        by (rewrite Ha; apply optimize_same_model; repeat split)
    end.
    rewrite <- Ha in Fl, Fn, Fout. simpl in Fl, Fn, Fout.
    split; [ | split; [ | split ] ].
    + eapply same_model_trans; [ exact Hm | ].
      simpl. now apply run_model_same_model.
    + rewrite Hl, Fl, <- app_assoc. simpl.
      unfold batch_losses at 2. simpl. fold (batch_losses (optimize b st) bs).
      now rewrite (batch_losses_same_model bs Hm1).
    + rewrite Hn, Fn. unfold epoch_hits at 2. simpl.
      fold (epoch_hits (optimize b st) bs).
      rewrite (epoch_hits_same_model bs Hm1). lia.
    + congruence.
Qed.

Lemma for_each_train_batch_acc_total (bs : list batch) (st : state L) :
  scores_nonempty L -> Forall (fun b => b <> []) bs ->
  exists st', for_each (train_batch_acc (L := L)) st bs = Ok st'.
Proof.
  intros Hne Hbs. revert st; induction Hbs as [| b bs Hb _ IH]; intros st; simpl.
  - now exists st.
  - destruct (train_batch_acc_total st Hne Hb) as [st1 H1]. rewrite H1. simpl.
    apply IH.
Qed.

(** One batch under [torch.no_grad()]: the model and the optimizer are not
    touched. *)
Lemma eval_batch_inv (st st' : state L) (b : batch) :
  eval_batch st b = Ok st' ->
  st' = set_n_correct (set_losses st (losses st ++ [batch_loss L (params st) b]))
                      (n_correct st + hits L (params st) b).
Proof.
  unfold eval_batch. intros H. inv_bind H as hs Ha. inv_bind H as k Hk.
  injection H as <-.
  simpl in Ha, Hk. rewrite (count_correct_hits _ _ Ha Hk). reflexivity.
Qed.

Lemma for_each_eval_batch (bs : list batch) (st st' : state L) :
  for_each (eval_batch (L := L)) st bs = Ok st' ->
  params st' = params st /\ grad st' = grad st /\ opt st' = opt st /\
  losses st' = losses st ++ map (batch_loss L (params st)) bs /\
  n_correct st' = n_correct st + list_sum (map (hits L (params st)) bs) /\
  stdout st' = stdout st.
Proof.
  revert st; induction bs as [| b bs IH]; intros st H; simpl in H.
  - injection H as <-. rewrite app_nil_r. simpl. repeat split; lia.
  - inv_bind H as a Ha. apply eval_batch_inv in Ha. subst a.
    apply IH in H. simpl in H. destruct H as (Hp & Hg & Ho & Hl & Hn & Hout).
    rewrite Hp, Hg, Ho, Hl, Hn, Hout, <- app_assoc. simpl.
    repeat split; lia.
Qed.

Lemma for_each_eval_batch_total (bs : list batch) (st : state L) :
  scores_nonempty L -> Forall (fun b => b <> []) bs ->
  exists st', for_each (eval_batch (L := L)) st bs = Ok st'.
Proof.
  intros Hne Hbs. revert st; induction Hbs as [| b bs Hb _ IH]; intros st; simpl.
  - now exists st.
  - unfold eval_batch at 1.
    destruct (argmax_dim1_total (params st) (map fst b) Hne) as [hs Hhs].
    simpl. rewrite Hhs. simpl.
    rewrite (count_correct_total _ Hb Hhs). simpl. apply IH.
Qed.

End Counting.

(** ** Epochs *)

Section Epochs.

Variable T : Type.
Variable L : Learner T.

Local Abbreviation batch := (list (Feat L * T)).

Lemma for_each_app {A : Type} (body : state L -> A -> result (state L))
      (xs ys : list A) (st : state L) :
  for_each body st (xs ++ ys) = (s <- for_each body st xs ;; for_each body s ys).
Proof.
  revert st; induction xs as [| x xs IH]; intros st; simpl; [ reflexivity | ].
  destruct (body st x) as [s |]; simpl; [ apply IH | reflexivity ].
Qed.

Lemma for_each_snoc {A : Type} (body : state L -> A -> result (state L))
      (xs : list A) (x : A) (st : state L) :
  for_each body st (xs ++ [x]) = (s <- for_each body st xs ;; body s x).
Proof.
  rewrite for_each_app. destruct (for_each body st xs) as [s |]; simpl;
    [ | reflexivity ].
  destruct (body s x); reflexivity.
Qed.

Lemma mean_Ok_inv (ls : list (Scalar L)) (avg : Scalar L) :
  mean L ls = Ok avg -> ls <> [] /\ avg = sdiv L (py_sum L ls) (length ls).
Proof.
  unfold mean. destruct ls as [| l ls]; simpl; [ discriminate | ].
  intros H. injection H as <-. split; [ discriminate | reflexivity ].
Qed.

Lemma mean_nonempty (ls : list (Scalar L)) :
  ls <> [] -> mean L ls = Ok (sdiv L (py_sum L ls) (length ls)).
Proof. destruct ls; [ congruence | reflexivity ]. Qed.

Lemma epoch_loss_inv (dl : loader (Feat L * T)) drawn (st st' : state L) e :
  epoch_loss dl drawn st e = Ok st' ->
  exists batches s1 avg_loss,
    iterate dl drawn = Ok batches /\
    for_each (@train_batch_loss T L) (set_losses st []) batches = Ok s1 /\
    mean L (losses s1) = Ok avg_loss /\
    st' = print s1 (LossLine e avg_loss).
Proof.
  unfold epoch_loss. intros H.
  inv_bind H as batches Hb. inv_bind H as s1 Hs1. inv_bind H as avg Havg.
  injection H as <-. now exists batches, s1, avg.
Qed.

Section ZeroIsNeutral.

Hypothesis gadd_gzero : forall g, gadd L (gzero L) g = g.

Section Body.

Variable body : state L -> batch -> result (state L).
Hypothesis body_trains : trains body.

Lemma for_each_fresh (bs : list batch) (st st' : state L) :
  cleared st -> for_each body st bs = Ok st' ->
  (opt st', params st') = fold_left (fresh_step L) bs (opt st, params st) /\
  cleared st'.
Proof.
  intros Hc H. split; [ | eapply for_each_cleared; eassumption ].
  apply (for_each_trains body_trains) in H. destruct H as [(Hp & _ & Ho) _].
  rewrite Hp, Ho. now apply run_model_fresh.
Qed.

Lemma trains_no_carry_over : no_carry_over body.
Proof.
  intros st pre b1 b2 s0 s1 s2 Hc Hpre H1 H2.
  assert (Hc0 : cleared s0) by (eapply for_each_cleared; eassumption).
  assert (Hc1 : cleared s1).
  { apply body_trains in H1. destruct H1 as [Hm _].
    apply cleared_same_model with (optimize b1 s0);
      [ now apply same_model_sym | apply optimize_cleared ]. }
  apply body_trains in H2. destruct H2 as [Hm _].
  split; [ exact Hc1 | split; [ | split ] ].
  - now apply backward_fresh.
  - destruct Hm as (Hp & _ & Ho). rewrite Hp, Ho. now apply optimize_fresh.
  - apply cleared_same_model with (optimize b2 s1);
      [ now apply same_model_sym | apply optimize_cleared ].
Qed.

End Body.

Lemma epoch_loss_without_accumulation :
  epoch_without_accumulation (@epoch_loss T L).
Proof.
  intros dl drawn st e st' batches Hc Hit H.
  apply epoch_loss_inv in H. destruct H as (bs & s1 & avg & Hb & Hs1 & _ & ->).
  assert (bs = batches) by congruence; subst bs.
  apply (for_each_fresh (@train_batch_loss_trains T L)) in Hs1; [ exact Hs1 | exact Hc ].
Qed.

Lemma fit_loss_keeps_cleared : run_keeps_cleared (@fit_loss T L) (@epoch_loss T L).
Proof.
  intros dl draws n st. split.
  - unfold fit_loss. rewrite seq_S, for_each_snoc. reflexivity.
  - revert st. unfold fit_loss.
    induction n as [| n IH]; intros st s Hc H.
    + simpl in H. now injection H as <-.
    + rewrite seq_S, for_each_snoc in H. inv_bind H as s' Hs'.
      simpl in H. destruct (iterate dl (draws n)) as [batches |] eqn:Hit.
      * eapply epoch_loss_without_accumulation; [ | exact Hit | exact H ].
        eapply IH; eassumption.
      * unfold epoch_loss in H. rewrite Hit in H. discriminate.
Qed.

End ZeroIsNeutral.

End Epochs.

Section ClassifierEpochs.

Variable L : Learner Z.

Local Abbreviation batch := (list (Feat L * Z)).

Lemma epoch_acc_inv (dl : loader (Feat L * Z)) drawn (st st' : state L) e :
  epoch_acc dl drawn st e = Ok st' ->
  exists batches s1 accuracy avg_loss,
    iterate dl drawn = Ok batches /\
    for_each (train_batch_acc (L := L)) (set_n_correct (set_losses st []) 0) batches
      = Ok s1 /\
    true_div (n_correct s1) (length (dl_dataset dl)) = Ok accuracy /\
    mean L (losses s1) = Ok avg_loss /\
    st' = print s1 (AccLine e avg_loss accuracy).
Proof.
  unfold epoch_acc. intros H.
  inv_bind H as batches Hb. inv_bind H as s1 Hs1. inv_bind H as acc Hacc.
  inv_bind H as avg Havg. injection H as <-. now exists batches, s1, acc, avg.
Qed.

Lemma validate_inv (val_dl : loader (Feat L * Z)) drawn (st st' : state L) acc avg :
  validate val_dl drawn st = Ok (st', acc, avg) ->
  exists batches,
    iterate val_dl drawn = Ok batches /\
    for_each (eval_batch (L := L)) (set_n_correct (set_losses st []) 0) batches
      = Ok st' /\
    true_div (n_correct st') (length (dl_dataset val_dl)) = Ok acc /\
    mean L (losses st') = Ok avg.
Proof.
  unfold validate. intros H.
  inv_bind H as batches Hb. inv_bind H as s1 Hs1. inv_bind H as a Hacc.
  inv_bind H as v Havg. injection H as <- <- <-. now exists batches.
Qed.

(** The validation pass leaves the model, the gradient buffer and the
    optimizer as they are, and prints nothing. *)
Lemma validate_frame (val_dl : loader (Feat L * Z)) drawn (st st' : state L) acc avg :
  validate val_dl drawn st = Ok (st', acc, avg) ->
  same_model st' st /\ stdout st' = stdout st.
Proof.
  intros H. apply validate_inv in H. destruct H as (bs & _ & Hrun & _ & _).
  apply for_each_eval_batch in Hrun. simpl in Hrun.
  destruct Hrun as (Hp & Hg & Ho & _ & _ & Hout). repeat split; assumption.
Qed.

Lemma epoch_val_inv (train_dl val_dl : loader (Feat L * Z)) drawn
      (st st' : state L) e :
  epoch_val train_dl val_dl drawn st e = Ok st' ->
  exists batches s1 train_accuracy train_avg_loss s2 val_accuracy val_avg_loss,
    iterate train_dl drawn = Ok batches /\
    for_each (train_batch_acc (L := L)) (set_n_correct (set_losses st []) 0) batches
      = Ok s1 /\
    true_div (n_correct s1) (length (dl_dataset train_dl)) = Ok train_accuracy /\
    mean L (losses s1) = Ok train_avg_loss /\
    validate val_dl drawn s1 = Ok (s2, val_accuracy, val_avg_loss) /\
    st' = print s2 (ValLine e train_avg_loss val_avg_loss
                            train_accuracy val_accuracy).
Proof.
  unfold epoch_val. intros H.
  inv_bind H as batches Hb. inv_bind H as s1 Hs1. inv_bind H as acc Hacc.
  inv_bind H as avg Havg. inv_bind H as v Hv.
  destruct v as [[s2 vacc] vavg]. injection H as <-.
  now exists batches, s1, acc, avg, s2, vacc, vavg.
Qed.

Section ZeroIsNeutral.

Hypothesis gadd_gzero : forall g, gadd L (gzero L) g = g.

Lemma epoch_acc_without_accumulation :
  epoch_without_accumulation (epoch_acc (L := L)).
Proof.
  intros dl drawn st e st' batches Hc Hit H.
  apply epoch_acc_inv in H.
  destruct H as (bs & s1 & acc & avg & Hb & Hs1 & _ & _ & ->).
  assert (bs = batches) by congruence; subst bs.
  apply (for_each_fresh gadd_gzero (@train_batch_acc_trains L)) in Hs1;
    [ exact Hs1 | exact Hc ].
Qed.

Lemma epoch_val_without_accumulation (val_dl : loader (Feat L * Z)) :
  epoch_without_accumulation (fun dl => epoch_val dl val_dl).
Proof.
  intros dl drawn st e st' batches Hc Hit H.
  apply epoch_val_inv in H.
  destruct H as (bs & s1 & acc & avg & s2 & vacc & vavg
                 & Hb & Hs1 & _ & _ & Hval & ->).
  assert (bs = batches) by congruence; subst bs.
  apply (for_each_fresh gadd_gzero (@train_batch_acc_trains L)) in Hs1;
    [ | exact Hc ].
  apply validate_frame in Hval. destruct Hval as [(Hp & Hg & Ho) _].
  destruct Hs1 as [Hup Hcl]. simpl in *. split.
  - rewrite Hp, Ho. exact Hup.
  - unfold cleared in *. simpl. now rewrite Hg.
Qed.

Lemma fit_acc_keeps_cleared :
  run_keeps_cleared (fit_acc (L := L)) (epoch_acc (L := L)).
Proof.
  intros dl draws n st. split.
  - unfold fit_acc. rewrite seq_S, for_each_snoc. reflexivity.
  - revert st. unfold fit_acc.
    induction n as [| n IH]; intros st s Hc H.
    + simpl in H. now injection H as <-.
    + rewrite seq_S, for_each_snoc in H. inv_bind H as s' Hs'.
      simpl in H. destruct (iterate dl (draws n)) as [batches |] eqn:Hit.
      * eapply epoch_acc_without_accumulation; [ | exact Hit | exact H ].
        eapply IH; eassumption.
      * unfold epoch_acc in H. rewrite Hit in H. discriminate.
Qed.

Lemma fit_val_keeps_cleared (val_dl : loader (Feat L * Z)) :
  run_keeps_cleared (fun dl => fit_val dl val_dl) (fun dl => epoch_val dl val_dl).
Proof.
  intros dl draws n st. split.
  - unfold fit_val. rewrite seq_S, for_each_snoc. reflexivity.
  - revert st. unfold fit_val.
    induction n as [| n IH]; intros st s Hc H.
    + simpl in H. now injection H as <-.
    + rewrite seq_S, for_each_snoc in H. inv_bind H as s' Hs'.
      simpl in H. destruct (iterate dl (draws n)) as [batches |] eqn:Hit.
      * eapply (epoch_val_without_accumulation val_dl); [ | exact Hit | exact H ].
        eapply IH; eassumption.
      * unfold epoch_val in H. rewrite Hit in H. discriminate.
Qed.

End ZeroIsNeutral.

End ClassifierEpochs.

(** C1: in each of the training loops (the loss-only loops of both
    notebooks, the loop with accuracy and the loop with validation), run
    from a cleared gradient buffer: between two consecutive batches the
    buffer is cleared, so the gradient the optimizer step reads for the
    later batch is the gradient of that batch alone and the update is the
    one of gradient descent without accumulation; every epoch ends, and
    therefore every next epoch starts, with a cleared buffer. *)
Theorem gradients_never_carry_over (T : Type) (L : Learner T) (Lz : Learner Z) :
  (forall g, gadd L (gzero L) g = g) ->
  (forall g, gadd Lz (gzero Lz) g = g) ->
  (no_carry_over (@train_batch_loss T L) /\
   epoch_without_accumulation (@epoch_loss T L) /\
   run_keeps_cleared (@fit_loss T L) (@epoch_loss T L)) /\
  (no_carry_over (train_batch_acc (L := Lz)) /\
   epoch_without_accumulation (epoch_acc (L := Lz)) /\
   run_keeps_cleared (fit_acc (L := Lz)) (epoch_acc (L := Lz))) /\
  (forall val_dl,
     epoch_without_accumulation (fun dl => epoch_val (L := Lz) dl val_dl) /\
     run_keeps_cleared (fun dl => fit_val (L := Lz) dl val_dl)
                       (fun dl => epoch_val dl val_dl)).
Proof.
  intros HL HLz. split; [ | split ].
  - split; [ | split ].
    + apply trains_no_carry_over; [ exact HL | apply train_batch_loss_trains ].
    + now apply epoch_loss_without_accumulation.
    + now apply fit_loss_keeps_cleared.
  - split; [ | split ].
    + apply trains_no_carry_over; [ exact HLz | apply train_batch_acc_trains ].
    + now apply epoch_acc_without_accumulation.
    + now apply fit_acc_keeps_cleared.
  - intros val_dl. split.
    + now apply epoch_val_without_accumulation.
    + now apply fit_val_keeps_cleared.
Qed.

(** On the one-weight learner, both with [.grad] reset to [None] and with
    [.grad] filled with zeros. *)
Lemma gradients_never_carry_over_witness :
  (no_carry_over (@train_batch_loss Z (Toy.learner true)) /\
   epoch_without_accumulation (@epoch_loss Z (Toy.learner true)) /\
   run_keeps_cleared (@fit_loss Z (Toy.learner true))
                     (@epoch_loss Z (Toy.learner true))) /\
  (no_carry_over (train_batch_acc (L := Toy.learner false)) /\
   epoch_without_accumulation (epoch_acc (L := Toy.learner false)) /\
   run_keeps_cleared (fit_acc (L := Toy.learner false))
                     (epoch_acc (L := Toy.learner false))) /\
  (forall val_dl,
     epoch_without_accumulation
       (fun dl => epoch_val (L := Toy.learner false) dl val_dl) /\
     run_keeps_cleared (fun dl => fit_val (L := Toy.learner false) dl val_dl)
                       (fun dl => epoch_val dl val_dl)).
Proof.
  apply (@gradients_never_carry_over Z (Toy.learner true) (Toy.learner false)).
  - intros g. reflexivity.
  - intros g. reflexivity.
Defined.

(** Without [zero_grad] the second step would consume the sum of both
    gradients: on the one-weight learner, two batches [(1, 1)] from weight
    0 lead to weight 0 with clearing and to weight 2 without. *)
Remark accumulation_without_zero_grad :
  let st := Toy.init true 0%Z in
  let b : list (Feat (Toy.learner true) * Z) := [(1%Z, 1%Z)] in
  params (optimize b (optimize b st)) = 0%Z /\
  params (step (backward (map fst b) (map snd b)
                 (step (backward (map fst b) (map snd b) st)))) = 2%Z.
Proof. split; reflexivity. Qed.

(** ** Accuracy and loss of an epoch *)

Lemma true_div_Ok (a b : nat) :
  b <> 0 -> true_div a b = Ok (Qmake (Z.of_nat a) (Pos.of_nat b)).
Proof. destruct b; [ congruence | reflexivity ]. Qed.

Lemma true_div_Ok_inv (a b : nat) (q : Q) :
  true_div a b = Ok q -> b <> 0 /\ q = Qmake (Z.of_nat a) (Pos.of_nat b).
Proof.
  destruct b; simpl; [ discriminate | ].
  intros H. injection H as <-. split; [ discriminate | reflexivity ].
Qed.

Lemma fraction_in_unit_interval (a b : nat) :
  b <> 0 -> a <= b ->
  (0 <= Qmake (Z.of_nat a) (Pos.of_nat b) <= 1)%Q.
Proof.
  intros Hb Hab. unfold Qle; simpl.
  assert (Hpos : Z.pos (Pos.of_nat b) = Z.of_nat b).
  { rewrite <- positive_nat_Z, Nat2Pos.id by assumption. reflexivity. }
  rewrite Hpos. lia.
Qed.

Lemma nonempty_concat {A : Type} (bs : list (list A)) :
  concat bs <> [] -> bs <> [].
Proof. destruct bs; [ simpl; congruence | discriminate ]. Qed.

Lemma perm_nonempty {A : Type} (l1 l2 : list A) :
  Permutation l1 l2 -> l2 <> [] -> l1 <> [].
Proof.
  intros H Hne ->. apply Permutation_nil in H. congruence.
Qed.

(** What a completed epoch has done, whatever the dataset and the draw. *)
Lemma epoch_loss_spec (T : Type) (L : Learner T) (dl : loader (Feat L * T))
      (drawn : list nat) (st st' : state L) (e : nat) :
  epoch_loss dl drawn st e = Ok st' ->
  exists batches,
    iterate dl drawn = Ok batches /\
    batches <> [] /\
    losses st' = batch_losses st batches /\
    stdout st' = stdout st ++
      [LossLine e (sdiv L (py_sum L (batch_losses st batches)) (length batches))].
Proof.
  intros H. apply epoch_loss_inv in H.
  destruct H as (batches & s1 & avg & Hit & Hs1 & Havg & ->).
  destruct (for_each_train_batch_loss batches (set_losses st []))
    as (s1' & Hs1' & _ & Hl & _ & Hout).
  assert (s1' = s1) by congruence; subst s1'.
  simpl in Hl, Hout.
  assert (Hl' : losses s1 = batch_losses st batches).
  { rewrite Hl. apply batch_losses_same_model. repeat split. }
  apply mean_Ok_inv in Havg. destruct Havg as [Hne ->].
  exists batches. split; [ exact Hit | split; [ | split; [ exact Hl' | ] ] ].
  - intros ->. apply Hne. rewrite Hl'. reflexivity.
  - simpl. rewrite Hout, Hl', batch_losses_length. reflexivity.
Qed.

Lemma epoch_acc_spec (L : Learner Z) (dl : loader (Feat L * Z))
      (drawn : list nat) (st st' : state L) (e : nat) :
  epoch_acc dl drawn st e = Ok st' ->
  exists batches,
    iterate dl drawn = Ok batches /\
    batches <> [] /\
    dl_dataset dl <> [] /\
    losses st' = batch_losses st batches /\
    n_correct st' = epoch_hits st batches /\
    stdout st' = stdout st ++
      [AccLine e (sdiv L (py_sum L (batch_losses st batches)) (length batches))
               (Qmake (Z.of_nat (epoch_hits st batches))
                      (Pos.of_nat (length (dl_dataset dl))))].
Proof.
  intros H. apply epoch_acc_inv in H.
  destruct H as (batches & s1 & acc & avg & Hit & Hs1 & Hdiv & Havg & ->).
  apply for_each_train_batch_acc in Hs1. destruct Hs1 as (_ & Hl & Hn & Hout).
  simpl in Hl, Hn, Hout.
  assert (Hl' : losses s1 = batch_losses st batches).
  { rewrite Hl. apply batch_losses_same_model. repeat split. }
  assert (Hn' : n_correct s1 = epoch_hits st batches).
  { rewrite Hn. apply epoch_hits_same_model. repeat split. }
  apply mean_Ok_inv in Havg. destruct Havg as [Hne ->].
  apply true_div_Ok_inv in Hdiv. destruct Hdiv as [Hlen ->].
  exists batches. split; [ exact Hit | split; [ | split ] ].
  - intros ->. apply Hne. rewrite Hl'. reflexivity.
  - intros E. apply Hlen. now rewrite E.
  - split; [ exact Hl' | split; [ exact Hn' | ] ].
    simpl. rewrite Hout, Hl', Hn', batch_losses_length. reflexivity.
Qed.

(** Over a non-empty dataset, with a well-drawn order, the epochs
    complete. *)
Lemma epoch_loss_total (T : Type) (L : Learner T) (dl : loader (Feat L * T))
      (drawn : list nat) (st : state L) (e : nat) :
  dl_dataset dl <> [] -> well_drawn dl drawn ->
  exists st', epoch_loss dl drawn st e = Ok st'.
Proof.
  intros Hds Hdrawn.
  destruct (@iterate_ok _ dl drawn (@sampler_order_perm _ dl drawn Hdrawn))
    as (batches & Hit & _ & Hperm & _).
  assert (Hbs : batches <> []).
  { apply nonempty_concat. eapply perm_nonempty; eassumption. }
  destruct (for_each_train_batch_loss batches (set_losses st []))
    as (s1 & Hs1 & _ & Hl & _ & _).
  assert (Hne : losses s1 <> []).
  { rewrite Hl. simpl. intros E. apply (f_equal (@length _)) in E.
    rewrite batch_losses_length in E. simpl in E.
    now apply length_zero_iff_nil in E. }
  eexists. unfold epoch_loss. rewrite Hit. simpl. rewrite Hs1. simpl.
  rewrite (@mean_nonempty _ L _ Hne). reflexivity.
Qed.

Lemma epoch_acc_total (L : Learner Z) (dl : loader (Feat L * Z))
      (drawn : list nat) (st : state L) (e : nat) :
  scores_nonempty L -> dl_dataset dl <> [] -> well_drawn dl drawn ->
  exists st', epoch_acc dl drawn st e = Ok st'.
Proof.
  intros Hsc Hds Hdrawn.
  destruct (@iterate_ok _ dl drawn (@sampler_order_perm _ dl drawn Hdrawn))
    as (batches & Hit & _ & Hperm & Hfull).
  assert (Hlen0 : length (dl_dataset dl) <> 0).
  { destruct (dl_dataset dl); [ congruence | discriminate ]. }
  assert (Hbs : batches <> []).
  { apply nonempty_concat. eapply perm_nonempty; eassumption. }
  destruct (for_each_train_batch_acc_total
              (set_n_correct (set_losses st []) 0) Hsc Hfull) as [s1 Hs1].
  destruct (for_each_train_batch_acc _ _ Hs1) as (_ & Hl & _ & _).
  assert (Hne : losses s1 <> []).
  { rewrite Hl. simpl. intros E. apply (f_equal (@length _)) in E.
    rewrite batch_losses_length in E. simpl in E.
    now apply length_zero_iff_nil in E. }
  eexists. unfold epoch_acc. rewrite Hit. simpl. rewrite Hs1. simpl.
  rewrite (@true_div_Ok (n_correct s1) _ Hlen0). simpl.
  rewrite (@mean_nonempty _ L _ Hne). reflexivity.
Qed.

(** The batches of a pass in a well-drawn order cover the dataset. *)
Lemma iterate_covers {A : Type} (dl : loader A) (drawn : list nat)
      (batches : list (list A)) :
  well_drawn dl drawn -> iterate dl drawn = Ok batches ->
  Permutation (concat batches) (dl_dataset dl).
Proof.
  intros Hdrawn Hit.
  destruct (@iterate_ok _ dl drawn (@sampler_order_perm _ dl drawn Hdrawn))
    as (bs & Hit' & _ & Hperm & _).
  assert (bs = batches) by congruence. now subst bs.
Qed.

(** A run of epochs each of which prints one line when it completes: the
    [k]-th line of a completed run is the line of epoch [k], run from the
    state the first [k] epochs lead to. *)
Section Runs.

Variable T : Type.
Variable L : Learner T.
Variable epoch : state L -> nat -> result (state L).

Hypothesis epoch_prints :
  forall st e st', epoch st e = Ok st' ->
    exists line, stdout st' = stdout st ++ [line].

Lemma run_lines (n : nat) (st s_n : state L) :
  for_each epoch st (seq 0 n) = Ok s_n ->
  length (stdout s_n) = length (stdout st) + n /\
  forall k, k < n ->
    exists s_k s_k1 line,
      for_each epoch st (seq 0 k) = Ok s_k /\
      epoch s_k k = Ok s_k1 /\
      for_each epoch st (seq 0 (S k)) = Ok s_k1 /\
      nth_error (stdout s_n) (length (stdout st) + k) = Some line /\
      stdout s_k1 = stdout s_k ++ [line].
Proof.
  revert s_n. induction n as [| n IH]; intros s_n Hrun.
  - simpl in Hrun. injection Hrun as <-. split; [ lia | ].
    intros k Hk. lia.
  - pose proof Hrun as Hrun'.
    rewrite seq_S, for_each_snoc in Hrun. inv_bind Hrun as s' Hs'.
    simpl in Hrun.
    destruct (IH s' Hs') as (Hlen & Hlines).
    destruct (epoch_prints Hrun) as (line & Hout).
    split.
    + rewrite Hout, length_app, Hlen. simpl. lia.
    + intros k Hk. destruct (Nat.eq_dec k n) as [-> | Hne].
      * exists s', s_n, line.
        split; [ exact Hs' | split; [ exact Hrun | split; [ exact Hrun' | ] ] ].
        split; [ | exact Hout ].
        rewrite Hout, nth_error_app2 by lia.
        replace (length (stdout st) + n - length (stdout s')) with 0 by lia.
        reflexivity.
      * destruct (Hlines k) as (s_k & s_k1 & l & H1 & H2 & H3 & H4 & H5); [ lia | ].
        exists s_k, s_k1, l. repeat (split; [ assumption | ]).
        split; [ | exact H5 ].
        rewrite Hout, nth_error_app1; [ exact H4 | lia ].
Qed.

Lemma run_total (n : nat) (st : state L) :
  (forall s e, exists s', epoch s e = Ok s') ->
  exists s_n, for_each epoch st (seq 0 n) = Ok s_n.
Proof.
  intros Htotal. induction n as [| n (s_n & Hrun)].
  - now exists st.
  - destruct (Htotal s_n n) as [s' Hs'].
    exists s'. rewrite seq_S, for_each_snoc, Hrun. exact Hs'.
Qed.

End Runs.

Section EpochMetrics.

Variable L : Learner Z.

(** C2: in every epoch [k] of a completed run of the training loop with
    accuracy, the reported accuracy is the number of samples whose
    predicted class (the index of the maximal score) is the true class,
    divided by the number of samples seen in that epoch, which is the size
    of the dataset, and it lies between 0 and 1; over a non-empty dataset
    the run does complete. *)
Theorem training_accuracy_is_correct_over_total
        (dl : loader (Feat L * Z)) (draws : nat -> list nat) (n : nat)
        (st : state L) :
  (forall k, well_drawn dl (draws k)) ->
  (forall s_n,
     fit_acc dl draws n st = Ok s_n ->
     forall k, k < n ->
       exists s_k batches avg_loss accuracy,
         fit_acc dl draws k st = Ok s_k /\
         iterate dl (draws k) = Ok batches /\
         nth_error (stdout s_n) (length (stdout st) + k)
           = Some (AccLine k avg_loss accuracy) /\
         length (concat batches) = length (dl_dataset dl) /\
         accuracy = Qmake (Z.of_nat (epoch_hits s_k batches))
                          (Pos.of_nat (length (concat batches))) /\
         (0 <= accuracy <= 1)%Q) /\
  (scores_nonempty L -> dl_dataset dl <> [] ->
   exists s_n, fit_acc dl draws n st = Ok s_n).
Proof.
  intros Hdrawn. split.
  - intros s_n Hrun k Hk.
    destruct (@run_lines _ L (fun s e => epoch_acc dl (draws e) s e)) with (n := n)
      (st := st) (s_n := s_n) as (_ & Hlines); [ | exact Hrun | ].
    { intros s e s' Hep. apply epoch_acc_spec in Hep.
      destruct Hep as (bs & _ & _ & _ & _ & _ & Hout). eexists. exact Hout. }
    destruct (Hlines k Hk) as (s_k & s_k1 & line & Hk0 & Hep & _ & Hnth & Hout).
    destruct (epoch_acc_spec _ _ _ _ Hep)
      as (batches & Hit & _ & Hds & _ & _ & Hout').
    rewrite Hout in Hout'. apply app_inv_head in Hout'. injection Hout' as ->.
    pose proof (Permutation_length (iterate_covers (Hdrawn k) Hit)) as Hlen.
    exists s_k, batches. do 2 eexists.
    split; [ exact Hk0 | split; [ exact Hit | split; [ exact Hnth | ] ] ].
    split; [ exact Hlen | split; [ now rewrite Hlen | ] ].
    apply fraction_in_unit_interval.
    + destruct (dl_dataset dl); [ congruence | discriminate ].
    + rewrite <- Hlen. apply epoch_hits_le.
  - intros Hsc Hds.
    apply (@run_total _ L (fun s e => epoch_acc dl (draws e) s e)).
    intros s e. now apply epoch_acc_total.
Qed.

End EpochMetrics.

(** Three epochs of the one-weight learner on three samples, each drawn in
    the order 1, 0, 2. *)
Lemma training_accuracy_is_correct_over_total_witness :
  (forall s_n,
     fit_acc (Toy.shuffled true) (fun _ => [1; 0; 2]) 3 (Toy.init true 0%Z) = Ok s_n ->
     forall k, k < 3 ->
       exists s_k batches avg_loss accuracy,
         fit_acc (Toy.shuffled true) (fun _ => [1; 0; 2]) k (Toy.init true 0%Z)
           = Ok s_k /\
         iterate (Toy.shuffled true) [1; 0; 2] = Ok batches /\
         nth_error (stdout s_n) (length (stdout (Toy.init true 0%Z)) + k)
           = Some (AccLine k avg_loss accuracy) /\
         length (concat batches) = length (dl_dataset (Toy.shuffled true)) /\
         accuracy = Qmake (Z.of_nat (epoch_hits s_k batches))
                          (Pos.of_nat (length (concat batches))) /\
         (0 <= accuracy <= 1)%Q) /\
  (scores_nonempty (Toy.learner true) -> dl_dataset (Toy.shuffled true) <> [] ->
   exists s_n,
     fit_acc (Toy.shuffled true) (fun _ => [1; 0; 2]) 3 (Toy.init true 0%Z) = Ok s_n).
Proof.
  apply (@training_accuracy_is_correct_over_total (Toy.learner true)
           (Toy.shuffled true) (fun _ => [1; 0; 2]) 3 (Toy.init true 0%Z)).
  intros k _. apply perm_swap.
Defined.

(** C4: in every epoch [k] of a completed run of the loss-only loops and of
    the loop with accuracy, the reported loss is the sum of the losses of
    the epoch's own batches, added up from the int [0] in batch order,
    divided by their number; [losses] (and [n_correct]) are reset at the
    start of the epoch, so at its end they hold the values of this epoch
    only, whatever the previous epoch left in them; over a non-empty
    dataset the runs do complete. *)
Theorem epoch_loss_is_mean_of_batch_losses
        (T : Type) (L : Learner T) (Lz : Learner Z)
        (dl : loader (Feat L * T)) (dlz : loader (Feat Lz * Z))
        (draws drawsz : nat -> list nat) (n : nat)
        (st : state L) (stz : state Lz) :
  (forall s_n,
     fit_loss dl draws n st = Ok s_n ->
     forall k, k < n ->
       exists s_k s_k1 batches,
         fit_loss dl draws k st = Ok s_k /\
         fit_loss dl draws (S k) st = Ok s_k1 /\
         iterate dl (draws k) = Ok batches /\
         losses s_k1 = batch_losses s_k batches /\
         nth_error (stdout s_n) (length (stdout st) + k)
           = Some (LossLine k
                     (sdiv L (fold_left (sadd L) (batch_losses s_k batches) (szero L))
                           (length batches)))) /\
  (forall s_n,
     fit_acc dlz drawsz n stz = Ok s_n ->
     forall k, k < n ->
       exists s_k s_k1 batches accuracy,
         fit_acc dlz drawsz k stz = Ok s_k /\
         fit_acc dlz drawsz (S k) stz = Ok s_k1 /\
         iterate dlz (drawsz k) = Ok batches /\
         losses s_k1 = batch_losses s_k batches /\
         n_correct s_k1 = epoch_hits s_k batches /\
         nth_error (stdout s_n) (length (stdout stz) + k)
           = Some (AccLine k
                     (sdiv Lz (fold_left (sadd Lz) (batch_losses s_k batches) (szero Lz))
                           (length batches))
                     accuracy)) /\
  (dl_dataset dl <> [] -> (forall k, well_drawn dl (draws k)) ->
   exists s_n, fit_loss dl draws n st = Ok s_n) /\
  (scores_nonempty Lz -> dl_dataset dlz <> [] ->
   (forall k, well_drawn dlz (drawsz k)) ->
   exists s_n, fit_acc dlz drawsz n stz = Ok s_n).
Proof.
  split; [ | split; [ | split ] ].
  - intros s_n Hrun k Hk.
    destruct (@run_lines _ L (fun s e => epoch_loss dl (draws e) s e)) with (n := n)
      (st := st) (s_n := s_n) as (_ & Hlines); [ | exact Hrun | ].
    { intros s e s' Hep. apply epoch_loss_spec in Hep.
      destruct Hep as (bs & _ & _ & _ & Hout). eexists. exact Hout. }
    destruct (Hlines k Hk) as (s_k & s_k1 & line & Hk0 & Hep & Hk1 & Hnth & Hout).
    destruct (epoch_loss_spec _ _ _ _ Hep) as (batches & Hit & _ & Hl & Hout').
    rewrite Hout in Hout'. apply app_inv_head in Hout'. injection Hout' as ->.
    unfold py_sum in Hnth. exists s_k, s_k1, batches. auto.
  - intros s_n Hrun k Hk.
    destruct (@run_lines _ Lz (fun s e => epoch_acc dlz (drawsz e) s e)) with (n := n)
      (st := stz) (s_n := s_n) as (_ & Hlines); [ | exact Hrun | ].
    { intros s e s' Hep. apply epoch_acc_spec in Hep.
      destruct Hep as (bs & _ & _ & _ & _ & _ & Hout). eexists. exact Hout. }
    destruct (Hlines k Hk) as (s_k & s_k1 & line & Hk0 & Hep & Hk1 & Hnth & Hout).
    destruct (epoch_acc_spec _ _ _ _ Hep)
      as (batches & Hit & _ & _ & Hl & Hn & Hout').
    rewrite Hout in Hout'. apply app_inv_head in Hout'. injection Hout' as ->.
    unfold py_sum in Hnth. exists s_k, s_k1, batches. eexists.
    repeat (split; [ eassumption | ]). exact Hnth.
  - intros Hds Hdrawn.
    apply (@run_total _ L (fun s e => epoch_loss dl (draws e) s e)).
    intros s e. now apply epoch_loss_total.
  - intros Hsc Hds Hdrawn.
    apply (@run_total _ Lz (fun s e => epoch_acc dlz (drawsz e) s e)).
    intros s e. now apply epoch_acc_total.
Qed.

(** The second epoch of the one-weight learner on the three samples drawn
    in the order 1, 0, 2: the batch losses are 221 and 3969, and the line
    shows [(0 + 221 + 3969) / 2]. *)
Lemma epoch_loss_is_mean_of_batch_losses_witness :
  exists s_n,
    @fit_loss Z (Toy.learner true) (Toy.shuffled true) (fun _ => [1; 0; 2]) 2
              (Toy.init true 0%Z) = Ok s_n /\
    losses s_n = [221; 3969]%Z /\
    nth_error (stdout s_n) 1 = Some (LossLine 1 ((0 + 221 + 3969) / 2)%Z).
Proof.
  exists (mk_state (Toy.learner true) (-220)%Z None tt [221; 3969]%Z 0
                   [LossLine 0 5%Z; LossLine 1 2095%Z]).
  assert (Hrun : @fit_loss Z (Toy.learner true) (Toy.shuffled true)
                   (fun _ => [1; 0; 2]) 2 (Toy.init true 0%Z)
                 = Ok (mk_state (Toy.learner true) (-220)%Z None tt [221; 3969]%Z 0
                                [LossLine 0 5%Z; LossLine 1 2095%Z]))
    by (vm_compute; reflexivity).
  split; [ exact Hrun | split; [ reflexivity | ] ].
  destruct (proj1 (@epoch_loss_is_mean_of_batch_losses Z (Toy.learner true)
                     (Toy.learner true) (Toy.shuffled true) (Toy.shuffled true)
                     (fun _ => [1; 0; 2]) (fun _ => [1; 0; 2]) 2
                     (Toy.init true 0%Z) (Toy.init true 0%Z))
                  _ Hrun 1 (le_n 2))
    as (s_k & s_k1 & batches & Hk & _ & Hit & _ & Hnth).
  vm_compute in Hk. injection Hk as <-.
  vm_compute in Hit. injection Hit as <-.
  vm_compute in Hnth. vm_compute. exact Hnth.
Defined.

(** ** The validation pass *)

Section Validation.

Variable L : Learner Z.

Lemma reset_same_model (s1 s2 : state L) :
  same_model s1 s2 -> stdout s1 = stdout s2 ->
  set_n_correct (set_losses s1 []) 0 = set_n_correct (set_losses s2 []) 0.
Proof.
  destruct s1, s2. intros (Hp & Hg & Ho) Hout. simpl in *. now subst.
Qed.

Lemma iterate_unshuffled {A : Type} (dl : loader A) (drawn drawn' : list nat) :
  dl_shuffle dl = false -> iterate dl drawn' = iterate dl drawn.
Proof. intros H. unfold iterate, sampler_order. now rewrite H. Qed.

(** C3: a validation pass that completes has left the parameters, the
    gradient buffer and the optimizer exactly as they were (every loss and
    every prediction is computed under those same parameters, nothing is
    printed), and run a second time right after it ends in the same state
    with the same accuracy and the same loss; over a non-empty validation
    set the pass does complete. *)
Theorem validation_is_side_effect_free
        (val_dl : loader (Feat L * Z)) (drawn : list nat) (st : state L) :
  dl_shuffle val_dl = false ->
  (forall st1 val_accuracy val_avg_loss,
     validate val_dl drawn st = Ok (st1, val_accuracy, val_avg_loss) ->
     params st1 = params st /\ grad st1 = grad st /\ opt st1 = opt st /\
     stdout st1 = stdout st /\
     (exists batches,
        iterate val_dl drawn = Ok batches /\
        losses st1 = map (batch_loss L (params st)) batches /\
        n_correct st1 = list_sum (map (hits L (params st)) batches)) /\
     forall drawn',
       validate val_dl drawn' st1 = Ok (st1, val_accuracy, val_avg_loss)) /\
  (scores_nonempty L -> dl_dataset val_dl <> [] ->
   exists st1 val_accuracy val_avg_loss,
     validate val_dl drawn st = Ok (st1, val_accuracy, val_avg_loss)).
Proof.
  intros Hsh. split.
  - intros st1 acc avg Hval.
    pose proof Hval as Hinv. apply validate_inv in Hinv.
    destruct Hinv as (batches & Hit & Hrun & Hdiv & Hmean).
    destruct (for_each_eval_batch _ _ Hrun) as (Hp & Hg & Ho & Hl & Hn & Hout).
    simpl in Hp, Hg, Ho, Hl, Hn, Hout.
    repeat (split; [ assumption | ]).
    split; [ exists batches; auto | ].
    intros drawn'. unfold validate.
    rewrite (iterate_unshuffled val_dl drawn drawn' Hsh), Hit. simpl.
    rewrite (@reset_same_model st1 st) by (repeat split; assumption).
    rewrite Hrun. simpl. rewrite Hdiv. simpl. rewrite Hmean. reflexivity.
  - intros Hsc Hds.
    assert (Hdrawn : well_drawn val_dl drawn)
      by (intros E; rewrite Hsh in E; discriminate).
    destruct (@iterate_ok _ val_dl drawn (@sampler_order_perm _ val_dl drawn Hdrawn))
      as (batches & Hit & _ & Hperm & Hfull).
    assert (Hbs : batches <> []).
    { apply nonempty_concat. eapply perm_nonempty; eassumption. }
    assert (Hlen0 : length (dl_dataset val_dl) <> 0).
    { destruct (dl_dataset val_dl); [ congruence | discriminate ]. }
    destruct (for_each_eval_batch_total
                (set_n_correct (set_losses st []) 0) Hsc Hfull) as [st1 Hrun].
    destruct (for_each_eval_batch _ _ Hrun) as (_ & _ & _ & Hl & _ & _).
    simpl in Hl.
    assert (Hlosses : losses st1 <> []).
    { rewrite Hl. destruct batches; [ congruence | discriminate ]. }
    exists st1. do 2 eexists. unfold validate. rewrite Hit. simpl.
    rewrite Hrun. simpl.
    rewrite (@true_div_Ok (n_correct st1) _ Hlen0). simpl.
    rewrite (@mean_nonempty _ L _ Hlosses). reflexivity.
Qed.

End Validation.

(** The one-weight learner with weight 1 on an unshuffled loader over the
    three samples. *)
Lemma validation_is_side_effect_free_witness :
  (forall st1 val_accuracy val_avg_loss,
     validate (Toy.held_out true) [] (Toy.init true 1%Z)
       = Ok (st1, val_accuracy, val_avg_loss) ->
     params st1 = params (Toy.init true 1%Z) /\
     grad st1 = grad (Toy.init true 1%Z) /\
     opt st1 = opt (Toy.init true 1%Z) /\
     stdout st1 = stdout (Toy.init true 1%Z) /\
     (exists batches,
        iterate (Toy.held_out true) [] = Ok batches /\
        losses st1 = map (batch_loss (Toy.learner true)
                                     (params (Toy.init true 1%Z))) batches /\
        n_correct st1 = list_sum (map (hits (Toy.learner true)
                                            (params (Toy.init true 1%Z))) batches)) /\
     forall drawn',
       validate (Toy.held_out true) drawn' st1
       = Ok (st1, val_accuracy, val_avg_loss)) /\
  (scores_nonempty (Toy.learner true) -> dl_dataset (Toy.held_out true) <> [] ->
   exists st1 val_accuracy val_avg_loss,
     validate (Toy.held_out true) [] (Toy.init true 1%Z)
     = Ok (st1, val_accuracy, val_avg_loss)).
Proof.
  apply (@validation_is_side_effect_free (Toy.learner true)).
  reflexivity.
Defined.

(** Three epochs of the one-weight learner on the three samples, drawn in
    the order 1, 0, 2 in every epoch, and one validation pass over them
    under the weight 1. *)
Example toy_fit_acc :
  (s <- fit_acc (Toy.shuffled true) (fun _ => [1; 0; 2]) 3 (Toy.init true 0%Z) ;;
   Ok (stdout s))
  = Ok [AccLine 0 5%Z (2 # 3); AccLine 1 2095%Z (1 # 3); AccLine 2 923785%Z (1 # 3)].
Proof. vm_compute. reflexivity. Qed.

Example toy_validate :
  (v <- validate (Toy.held_out true) [] (Toy.init true 1%Z) ;;
   Ok (params (fst (fst v)), n_correct (fst (fst v)), snd (fst v), snd v))
  = Ok (1%Z, 3, (3 # 3)%Q, 2%Z).
Proof. vm_compute. reflexivity. Qed.

(** ** Full-batch loaders *)

(** The loader of the regression notebook, [batch_size=len(x)]: over a
    non-empty [x] every pass is the single batch [TensorDataset(x, y)]. *)
Lemma regression_loader_full_batch {A B : Type} (x : list A) (y : list B)
      (drawn : list nat) :
  x <> [] -> length x = length y ->
  exists dl, regression_loader x y = Ok dl /\ iterate dl drawn = Ok [combine x y].
Proof.
  intros Hx Hlen.
  assert (Hds : combine x y <> []).
  { destruct x; [ congruence | ]. destruct y; [ discriminate | discriminate ]. }
  assert (Hle : length (combine x y) <= length x).
  { rewrite length_combine. apply Nat.le_min_l. }
  destruct (@iterate_full_batch _ (combine x y) (length x) false drawn Hds Hle)
    as (dl & Hdl & _ & Hit & _ & Heq); [ discriminate | ].
  exists dl. split.
  - unfold regression_loader, TensorDataset.
    rewrite (proj2 (Nat.eqb_eq _ _) Hlen). exact Hdl.
  - rewrite Hit, (Heq eq_refl). reflexivity.
Qed.

(** Over an empty dataset a loader yields no batch at all, and the epoch
    ends in the division by [len(losses) = 0]. *)
Remark empty_dataset_no_batch (T : Type) (L : Learner T) (batch_size : nat)
       (shuffle : bool) (st : state L) (e : nat) :
  iterate (mk_loader (@nil (Feat L * T)) batch_size shuffle) [] = Ok [] /\
  epoch_loss (mk_loader (@nil (Feat L * T)) batch_size shuffle) [] st e
  = Raise ZeroDivisionError.
Proof. unfold epoch_loss, iterate, sampler_order. destruct shuffle; split; reflexivity. Qed.

(** The validation pass over a loader whose batch size is at least the size
    of the validation set is one evaluation of the whole set. *)
Lemma validate_full_batch (L : Learner Z) (dataset : list (Feat L * Z))
      (batch_size : nat) (drawn : list nat) (st : state L) :
  dataset <> [] -> length dataset <= batch_size ->
  exists val_dl,
    DataLoader dataset batch_size false = Ok val_dl /\
    iterate val_dl drawn = Ok [dataset] /\
    validate val_dl drawn st =
      (s1 <- eval_batch (set_n_correct (set_losses st []) 0) dataset ;;
       val_accuracy <- true_div (n_correct s1) (length dataset) ;;
       val_avg_loss <- mean L (losses s1) ;;
       Ok (s1, val_accuracy, val_avg_loss)).
Proof.
  intros Hds Hle.
  destruct (@iterate_full_batch _ dataset batch_size false drawn Hds Hle)
    as (dl & Hdl & Hset & Hit & _ & Heq); [ discriminate | ].
  rewrite (Heq eq_refl) in Hit.
  exists dl. split; [ exact Hdl | split; [ exact Hit | ] ].
  unfold validate. rewrite Hit, Hset. simpl.
  destruct (eval_batch (set_n_correct (set_losses st []) 0) dataset); reflexivity.
Qed.

(** The predictions of section 4 are one per test sample. *)
Lemma predict_length (L : Learner Z) (p : Params L) (test_samples : list (Feat L))
      (preds : list Z) :
  predict L p test_samples = Ok preds -> length preds = length test_samples.
Proof.
  unfold predict, argmax_dim1. intros H. apply map_list_Ok_Forall2 in H.
  apply Forall2_length in H. now rewrite length_map in H.
Qed.

(** C6: with a batch size of at least the dataset's size, every epoch the
    training loop completes has processed exactly one batch, and that batch
    is the whole dataset (in the dataset's own order when the loader does
    not shuffle), so the epoch is one training step on the full dataset;
    over a non-empty dataset the loader can be built and the epoch does
    complete. *)
Theorem full_batch_is_single_batch
        (T : Type) (L : Learner T) (dataset : list (Feat L * T))
        (batch_size : nat) (shuffle : bool) (drawn : list nat)
        (st : state L) (e : nat) :
  length dataset <= batch_size ->
  (shuffle = true -> Permutation drawn (seq 0 (length dataset))) ->
  (forall dl st',
     DataLoader dataset batch_size shuffle = Ok dl ->
     epoch_loss dl drawn st e = Ok st' ->
     exists batch s1 avg_loss,
       iterate dl drawn = Ok [batch] /\
       Permutation batch dataset /\
       (shuffle = false -> batch = dataset) /\
       train_batch_loss (set_losses st []) batch = Ok s1 /\
       losses s1 = [batch_loss L (params st) batch] /\
       st' = print s1 (LossLine e avg_loss)) /\
  (dataset <> [] ->
   exists dl st',
     DataLoader dataset batch_size shuffle = Ok dl /\
     epoch_loss dl drawn st e = Ok st').
Proof.
  intros Hle Hdrawn.
  assert (Hfull : dataset <> [] ->
            exists dl batch,
              DataLoader dataset batch_size shuffle = Ok dl /\
              iterate dl drawn = Ok [batch] /\
              Permutation batch dataset /\
              (shuffle = false -> batch = dataset)).
  { intros Hds.
    destruct (@iterate_full_batch _ dataset batch_size shuffle drawn Hds Hle Hdrawn)
      as (dl & Hdl & _ & Hit & Hperm & Heq).
    exists dl, (rows_at dataset (sampler_order dl drawn)). auto. }
  split.
  - intros dl st' Hdl Hep.
    destruct dataset as [| xy dataset'] eqn:Hds.
    + exfalso. unfold DataLoader in Hdl.
      destruct (Nat.eqb batch_size 0); [ discriminate | ]. injection Hdl as <-.
      assert (Hord : sampler_order (mk_loader (@nil (Feat L * T)) batch_size shuffle)
                                   drawn = []).
      { unfold sampler_order. simpl. destruct shuffle; [ | reflexivity ].
        apply Permutation_nil. apply Permutation_sym. now apply Hdrawn. }
      unfold epoch_loss, iterate in Hep. rewrite Hord in Hep. discriminate.
    + destruct Hfull as (dl' & batch & Hdl' & Hit & Hperm & Heq); [ discriminate | ].
      assert (dl' = dl) by congruence; subst dl'.
      apply epoch_loss_inv in Hep.
      destruct Hep as (bs & s1 & avg & Hb & Hs1 & _ & ->).
      assert (bs = [batch]) by congruence; subst bs.
      cbn [for_each] in Hs1. rewrite train_batch_loss_eq in Hs1.
      cbn [Py.bind] in Hs1. injection Hs1 as <-.
      exists batch. eexists. exists avg.
      split; [ exact Hit | split; [ exact Hperm | split; [ exact Heq | ] ] ].
      split; [ apply train_batch_loss_eq | split; [ | reflexivity ] ].
      match goal with |- losses (optimize batch ?s) = _ =>
        destruct (optimize_frame batch s) as (-> & _ & _) end.
      reflexivity.
  - intros Hds.
    destruct (Hfull Hds) as (dl & batch & Hdl & Hit & Hperm & _).
    assert (Hds' : dl_dataset dl <> []).
    { unfold DataLoader in Hdl. destruct (Nat.eqb batch_size 0); [ discriminate | ].
      now injection Hdl as <-. }
    assert (Hwd : well_drawn dl drawn).
    { unfold DataLoader in Hdl. destruct (Nat.eqb batch_size 0); [ discriminate | ].
      injection Hdl as <-. exact Hdrawn. }
    destruct (epoch_loss_total st e Hds' Hwd) as (st' & Hep).
    exists dl, st'. auto.
Qed.

(** The three samples with batch size 3. *)
Lemma full_batch_is_single_batch_witness :
  (forall dl st',
     DataLoader (A := Feat (Toy.learner true) * Z) Toy.samples 3 true = Ok dl ->
     epoch_loss dl [1; 0; 2] (Toy.init true 0%Z) 0 = Ok st' ->
     exists batch s1 avg_loss,
       iterate dl [1; 0; 2] = Ok [batch] /\
       Permutation batch Toy.samples /\
       (true = false -> batch = Toy.samples) /\
       train_batch_loss (set_losses (Toy.init true 0%Z) []) batch = Ok s1 /\
       losses s1 = [batch_loss (Toy.learner true) (params (Toy.init true 0%Z)) batch] /\
       st' = print s1 (LossLine 0 avg_loss)) /\
  (Toy.samples <> [] ->
   exists dl st',
     DataLoader (A := Feat (Toy.learner true) * Z) Toy.samples 3 true = Ok dl /\
     epoch_loss dl [1; 0; 2] (Toy.init true 0%Z) 0 = Ok st').
Proof.
  apply (@full_batch_is_single_batch Z (Toy.learner true) Toy.samples 3 true).
  - simpl. lia.
  - intros _. apply perm_swap.
Defined.

(** ** Accuracy during training versus accuracy of the trained model *)

Lemma epoch_acc_reports (L : Learner Z) (dl : loader (Feat L * Z))
      (drawn : list nat) (st st' : state L) (e : nat)
      (batches : list (list (Feat L * Z))) :
  iterate dl drawn = Ok batches ->
  epoch_acc dl drawn st e = Ok st' ->
  exists avg_loss,
    stdout st' = stdout st ++
      [AccLine e avg_loss
               (Qmake (Z.of_nat (epoch_hits st batches))
                      (Pos.of_nat (length (dl_dataset dl))))].
Proof.
  intros Hit H. apply epoch_acc_inv in H.
  destruct H as (bs & s1 & acc & avg & Hb & Hs1 & Hdiv & _ & ->).
  assert (bs = batches) by congruence; subst bs.
  apply for_each_train_batch_acc in Hs1. destruct Hs1 as (_ & _ & Hn & Hout).
  simpl in Hn, Hout.
  apply true_div_Ok_inv in Hdiv. destruct Hdiv as [_ ->].
  exists avg. simpl. rewrite Hout, Hn.
  rewrite (@epoch_hits_same_model L batches (set_n_correct (set_losses st []) 0) st)
    by (repeat split).
  reflexivity.
Qed.

(** C10: a training batch counts the predictions made under the parameters
    that are in force before its optimizer step, while the step then moves
    the parameters on; the accuracy an epoch reports is the count over
    these per-batch parameters, and it can differ from the accuracy of the
    parameters the epoch ends with: on the one-weight learner started at
    weight 0 with the single sample [(1, 1)], drawn as the permutation [0]
    of its one index, the epoch reports accuracy 0, which is the accuracy
    of the weight 0 it started with, and ends with the weight 2, whose
    accuracy on that sample is 1. *)
Theorem accuracy_uses_parameters_before_step :
  (forall (L : Learner Z) (st st' : state L) b,
     train_batch_acc st b = Ok st' ->
     n_correct st' = n_correct st + hits L (params st) b /\
     params st' = params (optimize b st)) /\
  (forall (L : Learner Z) dl drawn (st st' : state L) e batches,
     iterate dl drawn = Ok batches ->
     epoch_acc dl drawn st e = Ok st' ->
     params st' = params (run_model batches st) /\
     exists avg_loss,
       stdout st' = stdout st ++
         [AccLine e avg_loss
                  (Qmake (Z.of_nat (epoch_hits st batches))
                         (Pos.of_nat (length (dl_dataset dl))))]) /\
  (exists (st' : state (Toy.learner true)) avg_loss reported final,
     well_drawn (Toy.single true) [0] /\
     iterate (Toy.single true) [0] = Ok [[(1, 1)%Z]] /\
     epoch_acc (Toy.single true) [0] (Toy.init true 0%Z) 0 = Ok st' /\
     params (Toy.init true 0%Z) = 0%Z /\
     params st' = 2%Z /\
     stdout st' = [AccLine 0 avg_loss reported] /\
     accuracy_of (Toy.learner true) 0%Z (dl_dataset (Toy.single true))
       = Ok reported /\
     accuracy_of (Toy.learner true) 2%Z (dl_dataset (Toy.single true))
       = Ok final /\
     (reported == 0)%Q /\ (final == 1)%Q /\
     ~ (reported == final)%Q).
Proof.
  split; [ | split ].
  - intros L st st' b H. apply train_batch_acc_inv in H. subst st'.
    match goal with |- context [optimize b ?s] =>
      destruct (optimize_frame b s) as (_ & Fn & _);
      assert (Hm : same_model (optimize b s) (optimize b st))
        by (apply optimize_same_model; repeat split)
    end.
    split; [ rewrite Fn; reflexivity | apply Hm ].
  - intros L dl drawn st st' e batches Hit H. split.
    + apply epoch_acc_inv in H.
      destruct H as (bs & s1 & acc & avg & Hb & Hs1 & _ & _ & ->).
      assert (bs = batches) by congruence; subst bs.
      apply for_each_train_batch_acc in Hs1. destruct Hs1 as ((Hp & _) & _).
      simpl. rewrite Hp.
      apply (@run_model_same_model _ L batches
               (set_n_correct (set_losses st []) 0) st). repeat split.
    + eapply epoch_acc_reports; eassumption.
  - exists (mk_state (Toy.learner true) 2%Z None tt [1%Z] 0
                     [AccLine 0 1%Z (0 # 1)%Q]), 1%Z, (0 # 1)%Q, (1 # 1)%Q.
    split; [ intros _; apply Permutation_refl | ].
    repeat (split; [ vm_compute; reflexivity | ]).
    intros H. discriminate H.
Qed.

(** ** Splits *)

Section Splits.

Lemma slices_concat (lengths indices : list nat) :
  list_sum lengths = length indices -> concat (slices lengths indices) = indices.
Proof.
  revert indices; induction lengths as [| n rest IH]; intros indices H; simpl in *.
  - symmetry in H. apply length_zero_iff_nil in H. now subst.
  - rewrite IH; [ apply firstn_skipn | ]. rewrite length_skipn. lia.
Qed.

Lemma slices_lengths (lengths indices : list nat) :
  list_sum lengths = length indices ->
  map (@length nat) (slices lengths indices) = lengths.
Proof.
  revert indices; induction lengths as [| n rest IH]; intros indices H; simpl in *.
  - reflexivity.
  - rewrite IH by (rewrite length_skipn; lia).
    rewrite firstn_length_le by lia. reflexivity.
Qed.

Lemma NoDup_app_disjoint (a b : list nat) : NoDup (a ++ b) -> disjoint a b.
Proof.
  induction a as [| i a IH]; simpl; intros H j Hj; [ contradiction | ].
  inversion H as [| ? ? Hnotin Hnodup]; subst.
  destruct Hj as [<- | Hj].
  - intros Hb. apply Hnotin. apply in_or_app. now right.
  - now apply IH.
Qed.

Lemma NoDup_concat_pairwise (parts : list (list nat)) :
  NoDup (concat parts) -> pairwise_disjoint parts.
Proof.
  induction parts as [| a parts IH]; simpl; intros H; [ constructor | ].
  constructor.
  - apply Forall_forall. intros b Hb i Hi Hib.
    apply (NoDup_app_disjoint _ _ H i Hi).
    apply in_concat. now exists b.
  - apply IH. eapply NoDup_app_remove_l; eassumption.
Qed.

Lemma in_range_firstn (n k : nat) (l : list nat) :
  Forall (fun i => i < k) l -> Forall (fun i => i < k) (firstn n l).
Proof.
  intros H. apply Forall_forall. intros i Hi.
  rewrite Forall_forall in H. apply H.
  rewrite <- (firstn_skipn n l). apply in_or_app. now left.
Qed.

Lemma in_range_skipn (n k : nat) (l : list nat) :
  Forall (fun i => i < k) l -> Forall (fun i => i < k) (skipn n l).
Proof.
  intros H. apply Forall_forall. intros i Hi.
  rewrite Forall_forall in H. apply H.
  rewrite <- (firstn_skipn n l). apply in_or_app. now right.
Qed.

Lemma in_range_slices (k : nat) (lengths indices : list nat) :
  Forall (fun i => i < k) indices ->
  Forall (Forall (fun i => i < k)) (slices lengths indices).
Proof.
  revert indices; induction lengths as [| n rest IH]; intros indices H; simpl.
  - constructor.
  - constructor; [ now apply in_range_firstn | ].
    apply IH. now apply in_range_skipn.
Qed.

Lemma nth_error_combine {A B : Type} (x : list A) (y : list B) (i : nat) :
  nth_error (combine x y) i =
  match nth_error x i, nth_error y i with
  | Some a, Some b => Some (a, b)
  | _, _ => None
  end.
Proof.
  revert y i; induction x as [| a x IH]; intros y i.
  - destruct i; reflexivity.
  - destruct y as [| b y].
    + destruct i; simpl; [ reflexivity | ]. now destruct (nth_error x i).
    + destruct i; simpl; [ reflexivity | apply IH ].
Qed.

(** Indexing the pairs is indexing both columns by the same indices. *)
Lemma rows_at_combine {A B : Type} (x : list A) (y : list B) (idx : list nat) :
  length x = length y ->
  Forall (fun i => i < length x) idx ->
  rows_at (combine x y) idx = combine (rows_at x idx) (rows_at y idx).
Proof.
  intros Hlen. induction 1 as [| i idx Hi _ IH]; [ reflexivity | ].
  unfold rows_at in *. simpl. rewrite IH. unfold row_at.
  rewrite nth_error_combine.
  pose proof Hi as Hi'. rewrite Hlen in Hi'.
  apply nth_error_Some in Hi, Hi'.
  destruct (nth_error x i); [ | congruence ].
  destruct (nth_error y i); [ | congruence ].
  reflexivity.
Qed.

End Splits.

(** The loaders of section 3.4 over the 105 training samples: the first 90
    drawn indices train, the other 15 validate, and every pass over the
    validation loader is one batch of all 15. *)
Lemma val_loader_single_batch {A : Type} (t_dataset : list A) (drawn : list nat) :
  length t_dataset = 105 -> Permutation drawn (seq 0 105) ->
  exists train_dl val_dl,
    train_val_loaders t_dataset drawn = Ok (train_dl, val_dl) /\
    dl_dataset train_dl = rows_at t_dataset (firstn 90 drawn) /\
    dl_dataset val_dl = rows_at t_dataset (skipn 90 drawn) /\
    length (dl_dataset val_dl) = 15 /\
    forall d, iterate val_dl d = Ok [dl_dataset val_dl].
Proof.
  intros Hlen Hperm.
  pose proof (Permutation_length Hperm) as Hdl. rewrite length_seq in Hdl.
  assert (Hrange : Forall (fun i => i < length t_dataset) drawn).
  { rewrite Hlen. now apply perm_in_range. }
  assert (Hval : firstn 15 (skipn 90 drawn) = skipn 90 drawn).
  { apply firstn_all2. rewrite length_skipn, Hdl. apply Nat.eq_le_incl. reflexivity. }
  assert (Hvlen : length (rows_at t_dataset (skipn 90 drawn)) = 15).
  { rewrite rows_at_length by now apply in_range_skipn.
    rewrite length_skipn, Hdl. reflexivity. }
  exists (mk_loader (rows_at t_dataset (firstn 90 drawn)) 32 true),
         (mk_loader (rows_at t_dataset (skipn 90 drawn)) 105 false).
  split; [ | split; [ reflexivity | split; [ reflexivity | split; [ exact Hvlen | ] ] ] ].
  - unfold train_val_loaders, random_split. rewrite Hlen.
    change (Nat.eqb (list_sum [90; 15]) 105) with true.
    cbn [slices map Py.bind]. rewrite Hval.
    unfold subset_loader, subset_items. cbn [ss_dataset ss_indices].
    rewrite !take_rows_in_range
      by (first [ now apply in_range_firstn | now apply in_range_skipn ]).
    reflexivity.
  - intros d. cbn [dl_dataset].
    generalize dependent (rows_at t_dataset (skipn 90 drawn)).
    intros items Hvlen.
    assert (Hne : items <> []).
    { intros E. rewrite E in Hvlen. discriminate. }
    assert (Hle : length items <= 105).
    { rewrite Hvlen. repeat constructor. }
    destruct (@iterate_full_batch _ items 105 false d Hne Hle)
      as (dl & Hdl' & _ & Hit & _ & Heq); [ discriminate | ].
    unfold DataLoader in Hdl'. change (Nat.eqb 105 0) with false in Hdl'.
    injection Hdl' as <-. rewrite Hit, (Heq eq_refl). reflexivity.
Qed.

(** C7: a dataset of [N] samples split by [random_split] into subsets whose
    lengths sum to [N], or by [train_test_split] into a training and a test
    part, is partitioned: the index lists of the parts are pairwise
    disjoint and together are a permutation of [0 .. N-1], so every sample
    is in exactly one part, and each part holds, for each of its indices
    [i], the original pair [(x[i], y[i])]. *)
Theorem split_is_a_partition
        (A B : Type) (x : list A) (y : list B) (lengths : list nat)
        (n_test : nat) (drawn : list nat) :
  length x = length y ->
  Permutation drawn (seq 0 (length x)) ->
  list_sum lengths = length x ->
  n_test < length x ->
  (exists dataset parts,
     TensorDataset x y = Ok dataset /\
     random_split dataset lengths drawn = Ok parts /\
     map (@subset_len _) parts = lengths /\
     Permutation (concat (map (@ss_indices _) parts)) (seq 0 (length dataset)) /\
     pairwise_disjoint (map (@ss_indices _) parts) /\
     Forall (fun part =>
               subset_items part = Ok (rows_at (combine x y) (ss_indices part)) /\
               length (rows_at (combine x y) (ss_indices part)) = subset_len part)
            parts /\
     Permutation (concat (map (fun part => rows_at (combine x y) (ss_indices part))
                              parts))
                 (combine x y)) /\
  (exists x_train x_test y_train y_test,
     train_test_split x y n_test drawn = Ok (x_train, x_test, y_train, y_test) /\
     let train := fst (split_indices (length x) n_test drawn) in
     let test := snd (split_indices (length x) n_test drawn) in
     Permutation (test ++ train) (seq 0 (length x)) /\
     disjoint test train /\
     length test = n_test /\
     length train = length x - n_test /\
     combine x_train y_train = rows_at (combine x y) train /\
     combine x_test y_test = rows_at (combine x y) test /\
     Permutation (combine x_test y_test ++ combine x_train y_train) (combine x y)).
Proof.
  intros Hlen Hperm Hsum Htest.
  pose proof (Permutation_length Hperm) as Hdl. rewrite length_seq in Hdl.
  assert (Hrange : Forall (fun i => i < length x) drawn) by now apply perm_in_range.
  assert (Hnodup : NoDup drawn).
  { apply Permutation_NoDup with (seq 0 (length x));
      [ now apply Permutation_sym | apply seq_NoDup ]. }
  assert (Hclen : length (combine x y) = length x).
  { rewrite length_combine, <- Hlen. apply Nat.min_id. }
  split.
  - exists (combine x y), (map (mk_subset (combine x y)) (slices lengths drawn)).
    assert (Hidx : map (@ss_indices _) (map (mk_subset (combine x y))
                                            (slices lengths drawn))
                   = slices lengths drawn).
    { rewrite map_map. simpl. apply map_id. }
    assert (Hcat : concat (slices lengths drawn) = drawn).
    { apply slices_concat. congruence. }
    split; [ | split; [ | split; [ | split; [ | split; [ | split ] ] ] ] ].
    + unfold TensorDataset. now rewrite (proj2 (Nat.eqb_eq _ _) Hlen).
    + unfold random_split. rewrite Hclen.
      now rewrite (proj2 (Nat.eqb_eq _ _) Hsum).
    + rewrite map_map. unfold subset_len. simpl.
      apply slices_lengths. congruence.
    + rewrite Hidx, Hcat, Hclen. exact Hperm.
    + rewrite Hidx. apply NoDup_concat_pairwise. now rewrite Hcat.
    + apply Forall_map. simpl.
      pose proof (in_range_slices lengths Hrange) as Hall.
      rewrite <- Hclen in Hall.
      eapply Forall_impl; [ | exact Hall ].
      intros idx Hin. simpl in Hin. split.
      * unfold subset_items. simpl. now apply take_rows_in_range.
      * unfold subset_len. simpl. now apply rows_at_length.
    + rewrite map_map. simpl.
      change (Permutation
                (concat (map (rows_at (combine x y)) (slices lengths drawn)))
                (combine x y)).
      rewrite (rows_at_concat (combine x y) (slices lengths drawn)), Hcat.
      apply rows_at_perm. now rewrite Hclen.
  - set (train := firstn (length x - n_test) (skipn n_test drawn)).
    set (test := firstn n_test drawn).
    assert (Htrain : train = skipn n_test drawn).
    { unfold train. apply firstn_all2. rewrite length_skipn. lia. }
    assert (Hsplit : test ++ train = drawn).
    { rewrite Htrain. apply firstn_skipn. }
    assert (Hrt : Forall (fun i => i < length x) train).
    { rewrite Htrain. now apply in_range_skipn. }
    assert (Hre : Forall (fun i => i < length x) test).
    { now apply in_range_firstn. }
    pose proof Hrt as Hrty. pose proof Hre as Hrey. rewrite Hlen in Hrty, Hrey.
    exists (rows_at x train), (rows_at x test), (rows_at y train), (rows_at y test).
    split; [ | split; [ | split; [ | split; [ | split; [ | split; [ | split ] ] ] ] ] ];
      simpl; fold train; fold test.
    + unfold train_test_split.
      rewrite (proj2 (Nat.eqb_eq _ _) Hlen). simpl.
      rewrite (proj2 (Nat.leb_gt _ _) Htest).
      unfold split_indices. fold train. fold test.
      rewrite !take_rows_in_range by assumption. reflexivity.
    + rewrite Hsplit. exact Hperm.
    + apply NoDup_app_disjoint. now rewrite Hsplit.
    + unfold test. apply firstn_length_le. lia.
    + rewrite Htrain, length_skipn. lia.
    + symmetry. now apply rows_at_combine.
    + symmetry. now apply rows_at_combine.
    + rewrite <- !rows_at_combine by assumption.
      rewrite <- rows_at_app, Hsplit.
      apply rows_at_perm. now rewrite Hclen.
Qed.

(** Five samples, split 3/2 by [random_split] and with two test samples by
    [train_test_split]. *)
Lemma split_is_a_partition_witness :
  (exists dataset parts,
     TensorDataset [10; 20; 30; 40; 50] [1; 2; 3; 4; 5] = Ok dataset /\
     random_split dataset [3; 2] [4; 2; 0; 1; 3] = Ok parts /\
     map (@subset_len _) parts = [3; 2] /\
     Permutation (concat (map (@ss_indices _) parts)) (seq 0 (length dataset)) /\
     pairwise_disjoint (map (@ss_indices _) parts) /\
     Forall (fun part =>
               subset_items part
               = Ok (rows_at (combine [10; 20; 30; 40; 50] [1; 2; 3; 4; 5])
                             (ss_indices part)) /\
               length (rows_at (combine [10; 20; 30; 40; 50] [1; 2; 3; 4; 5])
                               (ss_indices part)) = subset_len part)
            parts /\
     Permutation (concat (map (fun part =>
                                 rows_at (combine [10; 20; 30; 40; 50] [1; 2; 3; 4; 5])
                                         (ss_indices part))
                              parts))
                 (combine [10; 20; 30; 40; 50] [1; 2; 3; 4; 5])) /\
  (exists x_train x_test y_train y_test,
     train_test_split [10; 20; 30; 40; 50] [1; 2; 3; 4; 5] 2 [4; 2; 0; 1; 3]
       = Ok (x_train, x_test, y_train, y_test) /\
     let train := fst (split_indices 5 2 [4; 2; 0; 1; 3]) in
     let test := snd (split_indices 5 2 [4; 2; 0; 1; 3]) in
     Permutation (test ++ train) (seq 0 5) /\
     disjoint test train /\
     length test = 2 /\
     length train = 5 - 2 /\
     combine x_train y_train
       = rows_at (combine [10; 20; 30; 40; 50] [1; 2; 3; 4; 5]) train /\
     combine x_test y_test
       = rows_at (combine [10; 20; 30; 40; 50] [1; 2; 3; 4; 5]) test /\
     Permutation (combine x_test y_test ++ combine x_train y_train)
                 (combine [10; 20; 30; 40; 50] [1; 2; 3; 4; 5])).
Proof.
  apply (@split_is_a_partition nat nat [10; 20; 30; 40; 50] [1; 2; 3; 4; 5]
                               [3; 2] 2 [4; 2; 0; 1; 3]).
  - reflexivity.
  - simpl.
    apply perm_trans with [4; 0; 2; 1; 3]; [ apply perm_skip, perm_swap | ].
    apply perm_trans with [0; 4; 2; 1; 3]; [ apply perm_swap | ].
    apply perm_skip.
    apply perm_trans with [4; 1; 2; 3]; [ apply perm_skip, perm_swap | ].
    apply perm_trans with [1; 4; 2; 3]; [ apply perm_swap | ].
    apply perm_skip.
    apply perm_trans with [2; 4; 3]; [ apply perm_swap | ].
    apply perm_skip, perm_swap.
  - reflexivity.
  - simpl. lia.
Defined.

(** ** Confusion matrix *)

Section Confusion.

Lemma insert_label_In (l y : Z) (labels : list Z) :
  In y (insert_label l labels) <-> y = l \/ In y labels.
Proof.
  induction labels as [| h t IH]; simpl.
  - intuition.
  - destruct (Z.ltb l h); [ simpl; intuition | ].
    destruct (Z.eqb_spec l h); simpl; [ subst; intuition | ].
    rewrite IH. intuition.
Qed.

Lemma unique_labels_In (y : Z) (ys : list Z) :
  In y (unique_labels ys) <-> In y ys.
Proof.
  induction ys as [| a ys IH]; simpl; [ reflexivity | ].
  rewrite insert_label_In, IH. intuition.
Qed.

Lemma insert_label_sorted (l : Z) (labels : list Z) :
  StronglySorted Z.lt labels -> StronglySorted Z.lt (insert_label l labels).
Proof.
  induction 1 as [| h t Hsorted IH Hall]; simpl.
  - repeat constructor.
  - destruct (Z.ltb_spec l h) as [Hlt | Hge].
    + constructor; [ now constructor | ].
      constructor; [ exact Hlt | ].
      eapply Forall_impl; [ | exact Hall ]. intros a Ha. simpl in Ha. lia.
    + destruct (Z.eqb_spec l h) as [-> | Hne]; [ now constructor | ].
      constructor; [ exact IH | ].
      apply Forall_forall. intros a Ha.
      apply insert_label_In in Ha. destruct Ha as [-> | Ha]; [ lia | ].
      rewrite Forall_forall in Hall. now apply Hall.
Qed.

Lemma unique_labels_sorted (ys : list Z) : StronglySorted Z.lt (unique_labels ys).
Proof.
  induction ys as [| a ys IH]; simpl; [ constructor | ].
  now apply insert_label_sorted.
Qed.

Lemma sorted_NoDup (labels : list Z) : StronglySorted Z.lt labels -> NoDup labels.
Proof.
  induction 1 as [| h t _ IH Hall]; constructor; [ | exact IH ].
  intros Hin. rewrite Forall_forall in Hall. specialize (Hall h Hin). lia.
Qed.

Lemma unique_labels_NoDup (ys : list Z) : NoDup (unique_labels ys).
Proof. apply sorted_NoDup, unique_labels_sorted. Qed.

Lemma list_sum_map_add {A : Type} (f g : A -> nat) (l : list A) :
  list_sum (map (fun a => f a + g a) l) = list_sum (map f l) + list_sum (map g l).
Proof. induction l as [| a l IH]; simpl; [ reflexivity | rewrite IH; lia ]. Qed.

Lemma list_sum_map_zero {A : Type} (f : A -> nat) (l : list A) :
  (forall a, In a l -> f a = 0) -> list_sum (map f l) = 0.
Proof.
  induction l as [| a l IH]; simpl; intros H; [ reflexivity | ].
  rewrite (H a) by now left. simpl. apply IH. intros b Hb. apply H. now right.
Qed.

(** Summing, over labels without repetition, a value placed at one label. *)
Lemma list_sum_at (labels : list Z) (a : Z) (v : nat) :
  NoDup labels -> In a labels ->
  list_sum (map (fun i => if Z.eqb a i then v else 0) labels) = v.
Proof.
  induction 1 as [| h t Hnotin _ IH]; simpl; intros Hin; [ contradiction | ].
  destruct Hin as [-> | Hin].
  - rewrite Z.eqb_refl. rewrite list_sum_map_zero; [ lia | ].
    intros b Hb. destruct (Z.eqb_spec a b); [ subst; contradiction | reflexivity ].
  - destruct (Z.eqb_spec a h); [ subst; contradiction | ]. simpl. now apply IH.
Qed.

Lemma count_pair_cons (i j : Z) (tp : Z * Z) (pairs : list (Z * Z)) :
  count_pair i j (tp :: pairs)
  = (if Z.eqb (fst tp) i then if Z.eqb (snd tp) j then 1 else 0 else 0)
    + count_pair i j pairs.
Proof.
  unfold count_pair. simpl.
  destruct (Z.eqb (fst tp) i), (Z.eqb (snd tp) j); reflexivity.
Qed.

(** All cells together count every pair once. *)
Lemma cells_sum (labels : list Z) (pairs : list (Z * Z)) :
  NoDup labels ->
  (forall tp, In tp pairs -> In (fst tp) labels /\ In (snd tp) labels) ->
  list_sum (map (fun i => list_sum (map (fun j => count_pair i j pairs) labels))
                labels)
  = length pairs.
Proof.
  intros Hnd. induction pairs as [| tp pairs IH]; intros Hin.
  - simpl. apply list_sum_map_zero. intros i _.
    apply list_sum_map_zero. reflexivity.
  - simpl length. rewrite <- IH by (intros q Hq; apply Hin; now right).
    destruct (Hin tp (or_introl eq_refl)) as [Ht Hp].
    rewrite (map_ext _
      (fun i => (if Z.eqb (fst tp) i then 1 else 0)
                + list_sum (map (fun j => count_pair i j pairs) labels))).
    + rewrite list_sum_map_add, (@list_sum_at labels (fst tp) 1 Hnd Ht). reflexivity.
    + intros i.
      rewrite (map_ext _
        (fun j => (if Z.eqb (fst tp) i then if Z.eqb (snd tp) j then 1 else 0 else 0)
                  + count_pair i j pairs))
        by (intros j; apply count_pair_cons).
      rewrite list_sum_map_add. f_equal.
      destruct (Z.eqb (fst tp) i).
      * now apply list_sum_at.
      * apply list_sum_map_zero. reflexivity.
Qed.

(** The diagonal cells together count the pairs whose components agree. *)
Lemma diagonal_sum (labels : list Z) (pairs : list (Z * Z)) :
  NoDup labels ->
  (forall tp, In tp pairs -> In (fst tp) labels /\ In (snd tp) labels) ->
  list_sum (map (fun i => count_pair i i pairs) labels)
  = length (filter (fun tp => Z.eqb (fst tp) (snd tp)) pairs).
Proof.
  intros Hnd. induction pairs as [| tp pairs IH]; intros Hin.
  - simpl. apply list_sum_map_zero. reflexivity.
  - destruct (Hin tp (or_introl eq_refl)) as [Ht Hp].
    rewrite (map_ext _
      (fun i => (if Z.eqb (fst tp) i then if Z.eqb (fst tp) (snd tp) then 1 else 0
                 else 0)
                + count_pair i i pairs)).
    + rewrite list_sum_map_add, IH by (intros q Hq; apply Hin; now right).
      rewrite (@list_sum_at labels (fst tp) _ Hnd Ht). simpl.
      destruct (Z.eqb (fst tp) (snd tp)); reflexivity.
    + intros i. rewrite count_pair_cons. f_equal.
      destruct (Z.eqb_spec (fst tp) i) as [<- | _]; [ | reflexivity ].
      now rewrite (Z.eqb_sym (snd tp)).
Qed.

Lemma trace_from_diagonal (cell : Z -> Z -> nat) (pre suf : list Z) :
  trace_from (length pre) (map (fun i => map (cell i) (pre ++ suf)) suf)
  = list_sum (map (fun i => cell i i) suf).
Proof.
  revert pre; induction suf as [| a suf IH]; intros pre; simpl; [ reflexivity | ].
  f_equal.
  - rewrite map_app. simpl.
    rewrite app_nth2; rewrite length_map; [ | lia ].
    now rewrite Nat.sub_diag.
  - specialize (IH (pre ++ [a])).
    rewrite length_app, Nat.add_1_r in IH. simpl in IH.
    rewrite <- IH. f_equal. apply map_ext. intros i.
    now rewrite <- app_assoc.
Qed.

Lemma matches_sym (a b : list Z) : matches a b = matches b a.
Proof.
  unfold matches. revert b; induction a as [| x a IH]; intros [| y b]; simpl;
    try reflexivity.
  rewrite (Z.eqb_sym x y). destruct (Z.eqb y x); simpl; now rewrite IH.
Qed.

End Confusion.

(** C9: for predictions and true labels of the same length the confusion
    matrix exists, its entries sum to the number of samples and its
    diagonal sums to the number of positions where prediction and label
    agree; on non-empty vectors this is the count the accuracy is computed
    from, so the accuracy is the trace divided by the number of samples. *)
Theorem confusion_matrix_consistent (preds test_labels : list Z) :
  length preds = length test_labels ->
  exists m,
    confusion_matrix test_labels preds = Ok m /\
    matrix_sum m = length preds /\
    trace m = matches preds test_labels /\
    (preds <> [] ->
     count_correct preds test_labels = Ok (trace m) /\
     test_accuracy preds test_labels
     = Ok (Qmake (Z.of_nat (trace m)) (Pos.of_nat (matrix_sum m)))).
Proof.
  intros Hlen.
  set (labels := unique_labels (test_labels ++ preds)).
  set (pairs := combine test_labels preds).
  assert (Hnd : NoDup labels) by apply unique_labels_NoDup.
  assert (Hin : forall tp, In tp pairs -> In (fst tp) labels /\ In (snd tp) labels).
  { intros [t p] H. unfold labels. rewrite !unique_labels_In. simpl.
    split; apply in_or_app;
      [ left; eapply in_combine_l | right; eapply in_combine_r ]; eassumption. }
  assert (Hsum : matrix_sum
                   (map (fun i => map (fun j => count_pair i j pairs) labels) labels)
                 = length preds).
  { unfold matrix_sum. rewrite map_map, (@cells_sum labels pairs Hnd Hin).
    unfold pairs. rewrite length_combine, <- Hlen. apply Nat.min_id. }
  assert (Htr : trace (map (fun i => map (fun j => count_pair i j pairs) labels) labels)
                = matches preds test_labels).
  { unfold trace.
    pose proof (trace_from_diagonal (fun i j => count_pair i j pairs) [] labels)
      as Hdiag.
    simpl in Hdiag. rewrite Hdiag.
    rewrite (@diagonal_sum labels pairs Hnd Hin), matches_sym. reflexivity. }
  exists (map (fun i => map (fun j => count_pair i j pairs) labels) labels).
  split; [ | split; [ exact Hsum | split; [ exact Htr | ] ] ].
  - unfold confusion_matrix. now rewrite (proj2 (Nat.eqb_eq _ _) (eq_sym Hlen)).
  - intros Hne.
    assert (Hcc : count_correct preds test_labels = Ok (matches preds test_labels)).
    { unfold count_correct. destruct preds as [| p ps]; [ congruence | ].
      destruct test_labels; [ discriminate | reflexivity ]. }
    rewrite Htr, Hsum. split; [ exact Hcc | ].
    unfold test_accuracy. rewrite Hcc. simpl.
    apply true_div_Ok. destruct preds; [ congruence | discriminate ].
Qed.

(** Five test samples, two of them misclassified. *)
Lemma confusion_matrix_consistent_witness :
  exists m,
    confusion_matrix [0; 1; 2; 2; 1]%Z [0; 2; 2; 2; 0]%Z = Ok m /\
    matrix_sum m = length [0; 2; 2; 2; 0]%Z /\
    trace m = matches [0; 2; 2; 2; 0]%Z [0; 1; 2; 2; 1]%Z /\
    ([0; 2; 2; 2; 0]%Z <> [] ->
     count_correct [0; 2; 2; 2; 0]%Z [0; 1; 2; 2; 1]%Z = Ok (trace m) /\
     test_accuracy [0; 2; 2; 2; 0]%Z [0; 1; 2; 2; 1]%Z
     = Ok (Qmake (Z.of_nat (trace m)) (Pos.of_nat (matrix_sum m)))).
Proof.
  apply (@confusion_matrix_consistent [0; 2; 2; 2; 0]%Z [0; 1; 2; 2; 1]%Z).
  reflexivity.
Defined.

(** * Further properties of the notebooks' code *)

(** ** Label encoding, continued *)

Lemma Forall2_nth_error {A B : Type} (R : A -> B -> Prop) (l1 : list A)
      (l2 : list B) (i : nat) (a : A) (b : B) :
  Forall2 R l1 l2 -> nth_error l1 i = Some a -> nth_error l2 i = Some b -> R a b.
Proof.
  intros H. revert i. induction H as [| x y l1 l2 Hxy _ IH]; intros i Ha Hb.
  - destruct i; discriminate.
  - destruct i as [| i]; simpl in Ha, Hb.
    + injection Ha as <-. injection Hb as <-. exact Hxy.
    + eapply IH; eassumption.
Qed.

Lemma encode_species_injective (a b : string) (n : Z) :
  encode_species a = Ok n -> encode_species b = Ok n -> a = b.
Proof.
  unfold encode_species.
  destruct (String.eqb_spec a "setosa"); destruct (String.eqb_spec b "setosa");
    try (subst; intros; congruence);
    destruct (String.eqb_spec a "versicolor");
    destruct (String.eqb_spec b "versicolor");
    try (subst; intros; congruence);
    destruct (String.eqb_spec a "virginica");
    destruct (String.eqb_spec b "virginica");
    subst; intros; congruence.
Qed.

(** X1: in an encoded column the label of every row is the code of that
    row's species, and two rows carry the same label exactly when they have
    the same species: the encoding merges no two species. *)
Theorem encoded_labels_separate_species (column : list string) (ys : list Z) :
  encode_labels column = Ok ys ->
  forall i j si sj yi yj,
    nth_error column i = Some si -> nth_error column j = Some sj ->
    nth_error ys i = Some yi -> nth_error ys j = Some yj ->
    encode_species si = Ok yi /\ (yi = yj <-> si = sj).
Proof.
  intros H i j si sj yi yj Hsi Hsj Hyi Hyj.
  unfold encode_labels in H. apply map_list_Ok_Forall2 in H.
  pose proof (Forall2_nth_error _ H Hsi Hyi) as Hi.
  pose proof (Forall2_nth_error _ H Hsj Hyj) as Hj.
  simpl in Hi, Hj. split; [ exact Hi | split ].
  - intros <-. eapply encode_species_injective; eassumption.
  - intros <-. congruence.
Qed.

Lemma encoded_labels_separate_species_witness :
  encode_species "setosa" = Ok 0%Z /\
  (0%Z = 2%Z <-> "setosa"%string = "virginica"%string).
Proof.
  apply (@encoded_labels_separate_species
           ["setosa"; "virginica"; "setosa"]%string [0; 2; 0]%Z eq_refl
           0 1 "setosa"%string "virginica"%string 0%Z 2%Z);
    reflexivity.
Defined.

(** ** Exploring the table *)

Lemma mask_rows_filter {A : Type} (f : A -> bool) (rows : list A) :
  mask_rows (map f rows) rows = filter f rows.
Proof.
  unfold mask_rows. induction rows as [| r rows IH]; simpl; [ reflexivity | ].
  destruct (f r); simpl; now rewrite IH.
Qed.

Lemma select_species_filter {F : Type} (dataset : list (iris_row F)) (name : string) :
  select_species dataset name
  = filter (fun r => String.eqb (species r) name) dataset.
Proof. unfold select_species. apply mask_rows_filter. Qed.

Lemma existsb_eqb_In (s : string) (seen : list string) :
  existsb (String.eqb s) seen = true <-> In s seen.
Proof.
  rewrite existsb_exists. split.
  - intros (x & Hx & E). apply String.eqb_eq in E. now subst.
  - intros H. exists s. split; [ exact H | apply String.eqb_refl ].
Qed.

Lemma unique_from_In (column seen : list string) (s : string) :
  In s (unique_from seen column) <-> In s column /\ ~ In s seen.
Proof.
  revert seen; induction column as [| c column IH]; intros seen; simpl.
  - tauto.
  - destruct (existsb (String.eqb c) seen) eqn:E.
    + apply existsb_eqb_In in E. rewrite IH. split.
      * tauto.
      * intros [[-> | H] Hn]; tauto.
    + assert (Hc : ~ In c seen).
      { intros H. apply existsb_eqb_In in H. congruence. }
      simpl. rewrite IH. simpl. split.
      * intros [-> | [H Hn]]; [ tauto | tauto ].
      * intros [[-> | H] Hn]; [ tauto | ].
        destruct (String.eqb_spec c s); [ tauto | right; tauto ].
Qed.

Lemma unique_from_NoDup (column seen : list string) :
  NoDup (unique_from seen column).
Proof.
  revert seen; induction column as [| c column IH]; intros seen; simpl.
  - constructor.
  - destruct (existsb (String.eqb c) seen); [ apply IH | ].
    constructor; [ | apply IH ].
    rewrite unique_from_In. simpl. tauto.
Qed.

Lemma dict_set_fresh (n : list (string * nat)) (name : string) (v : nat) :
  ~ In name (map fst n) -> dict_set n name v = n ++ [(name, v)].
Proof.
  induction n as [| [k w] n IH]; simpl; intros H; [ reflexivity | ].
  destruct (String.eqb_spec name k) as [-> | _]; [ tauto | ].
  rewrite IH; tauto.
Qed.

Lemma fold_dict_set (f : string -> nat) (names : list string)
      (n : list (string * nat)) :
  NoDup names -> (forall k, In k names -> ~ In k (map fst n)) ->
  fold_left (fun n name => dict_set n name (f name)) names n
  = n ++ map (fun name => (name, f name)) names.
Proof.
  intros Hnd. revert n. induction Hnd as [| k names Hk _ IH]; intros n Hfresh; simpl.
  - now rewrite app_nil_r.
  - rewrite dict_set_fresh by (apply Hfresh; now left).
    rewrite IH.
    + now rewrite <- app_assoc.
    + intros k' Hk'. rewrite map_app, in_app_iff. simpl.
      intros [H | [<- | []]]; [ | contradiction ].
      apply (Hfresh k'); [ now right | exact H ].
Qed.

Lemma list_sum_at_name (names : list string) (a : string) :
  NoDup names -> In a names ->
  list_sum (map (fun k => if String.eqb a k then 1 else 0) names) = 1.
Proof.
  induction 1 as [| h t Hnotin _ IH]; simpl; intros Hin; [ contradiction | ].
  destruct Hin as [-> | Hin].
  - rewrite String.eqb_refl. rewrite list_sum_map_zero; [ reflexivity | ].
    intros b Hb. destruct (String.eqb_spec a b); [ subst; contradiction | reflexivity ].
  - destruct (String.eqb_spec a h); [ subst; contradiction | ]. simpl. now apply IH.
Qed.

(** Counting the rows of each key, over keys without repetition that
    include every row's key, counts every row once. *)
Lemma counts_by_key_sum {A : Type} (key : A -> string) (names : list string)
      (rows : list A) :
  NoDup names -> (forall r, In r rows -> In (key r) names) ->
  list_sum (map (fun k => length (filter (fun r => String.eqb (key r) k) rows))
                names)
  = length rows.
Proof.
  intros Hnd. induction rows as [| r rows IH]; intros Hin.
  - simpl. apply list_sum_map_zero. reflexivity.
  - simpl length. rewrite <- IH by (intros q Hq; apply Hin; now right).
    rewrite (map_ext _
      (fun k => (if String.eqb (key r) k then 1 else 0)
                + length (filter (fun r => String.eqb (key r) k) rows))).
    + rewrite list_sum_map_add, list_sum_at_name; [ reflexivity | exact Hnd | ].
      apply Hin. now left.
    + intros k. simpl. destruct (String.eqb (key r) k); reflexivity.
Qed.

(** X2: the dictionary of species counts has one entry per species that
    occurs in the table, in order of first appearance and without
    repetition; each entry is the number of rows of that species, which is
    positive, and the entries add up to the number of rows. *)
Theorem species_counts_partition {F : Type} (dataset : list (iris_row F)) :
  map fst (species_counts dataset) = unique (map (@species F) dataset) /\
  NoDup (map fst (species_counts dataset)) /\
  (forall name, In name (map fst (species_counts dataset)) <->
                exists r, In r dataset /\ species r = name) /\
  (forall name v, In (name, v) (species_counts dataset) ->
     v = length (filter (fun r => String.eqb (species r) name) dataset) /\ 0 < v) /\
  list_sum (map snd (species_counts dataset)) = length dataset.
Proof.
  assert (Hcounts : species_counts dataset
            = map (fun name => (name, length (select_species dataset name)))
                  (unique (map (@species F) dataset))).
  { unfold species_counts.
    rewrite (fold_dict_set (fun name => length (select_species dataset name)));
      [ reflexivity | apply unique_from_NoDup | intros k _ [] ]. }
  assert (Hkeys : map fst (species_counts dataset) = unique (map (@species F) dataset)).
  { rewrite Hcounts, map_map. simpl. apply map_id. }
  assert (Hin : forall name, In name (unique (map (@species F) dataset)) <->
                             exists r, In r dataset /\ species r = name).
  { intros name. unfold unique. rewrite unique_from_In, in_map_iff. simpl.
    split.
    - intros [(r & Hr & Hin) _]. now exists r.
    - intros (r & Hin & Hr). split; [ now exists r | tauto ]. }
  split; [ exact Hkeys | split; [ | split; [ | split ] ] ].
  - rewrite Hkeys. apply unique_from_NoDup.
  - intros name. rewrite Hkeys. apply Hin.
  - intros name v Hv. rewrite Hcounts in Hv. apply in_map_iff in Hv.
    destruct Hv as (k & E & Hk). injection E as -> <-.
    rewrite select_species_filter. split; [ reflexivity | ].
    apply Hin in Hk. destruct Hk as (r & Hr & Hname).
    assert (Hf : In r (filter (fun r => String.eqb (species r) name) dataset)).
    { apply filter_In. split; [ exact Hr | now apply String.eqb_eq ]. }
    destruct (filter (fun r => String.eqb (species r) name) dataset);
      [ contradiction | simpl; lia ].
  - rewrite Hcounts, map_map. simpl.
    rewrite (map_ext _
      (fun k => length (filter (fun r => String.eqb (species r) k) dataset)))
      by (intros k; now rewrite select_species_filter).
    apply counts_by_key_sum; [ apply unique_from_NoDup | ].
    intros r Hr. apply Hin. now exists r.
Qed.

Example toy_species_counts :
  species_counts toy_table = [("setosa", 2); ("versicolor", 1)]%string.
Proof. reflexivity. Qed.

(** ** The loader of the regression notebook *)

(** X3: the regression notebook's loader is built over the setosa rows with
    the batch size [len(x)]: when the table has a setosa row the loader
    exists and every pass is a single batch of all setosa rows in table
    order, each as the pair of its one-element feature vector and its
    target; when it has none, the batch size is zero and the loader's
    constructor raises. *)
Theorem setosa_loader_full_batch {F : Type} (dataset : list (iris_row F)) :
  let rows := filter (fun r => String.eqb (species r) "setosa") dataset in
  (rows = [] ->
   setosa_loader dataset
   = Raise (ValueError "batch_size should be a positive integer value")) /\
  (rows <> [] ->
   exists dl,
     setosa_loader dataset = Ok dl /\
     dl_batch_size dl = length rows /\
     dl_shuffle dl = false /\
     forall drawn,
       iterate dl drawn
       = Ok [map (fun r => ([sepal_length r], sepal_width r)) rows]).
Proof.
  intros rows.
  assert (Hxy : forall rs : list (iris_row F),
            combine (add_axis (map (@sepal_length F) rs)) (map (@sepal_width F) rs)
            = map (fun r => ([sepal_length r], sepal_width r)) rs).
  { induction rs as [| r rs IH]; simpl; [ reflexivity | now rewrite IH ]. }
  assert (Hload : setosa_loader dataset
            = DataLoader (map (fun r => ([sepal_length r], sepal_width r)) rows)
                         (length rows) false).
  { unfold setosa_loader, setosa_xy, regression_loader, TensorDataset. simpl.
    rewrite select_species_filter. fold rows.
    unfold add_axis. rewrite !length_map, Nat.eqb_refl. simpl.
    fold (add_axis (map (@sepal_length F) rows)). now rewrite Hxy. }
  split.
  - intros E. rewrite Hload, E. reflexivity.
  - intros Hne.
    set (pairs := map (fun r => ([sepal_length r], sepal_width r)) rows) in *.
    assert (Hpairs : pairs <> []).
    { unfold pairs. destruct rows; [ congruence | discriminate ]. }
    assert (Hle : length pairs <= length rows).
    { unfold pairs. rewrite length_map. apply Nat.le_refl. }
    exists (mk_loader pairs (length rows) false).
    assert (Hdl : DataLoader pairs (length rows) false
                  = Ok (mk_loader pairs (length rows) false)).
    { unfold DataLoader. destruct rows; [ congruence | reflexivity ]. }
    split; [ now rewrite Hload | split; [ reflexivity | split; [ reflexivity | ] ] ].
    intros drawn.
    destruct (@iterate_full_batch _ pairs (length rows) false drawn Hpairs Hle)
      as (dl & Hdl' & _ & Hit & _ & Heq); [ discriminate | ].
    assert (dl = mk_loader pairs (length rows) false) by congruence; subst dl.
    rewrite Hit, (Heq eq_refl). reflexivity.
Qed.

Example toy_setosa_loader :
  (dl <- setosa_loader toy_table ;; iterate dl [])
  = Ok [[([51], 35); ([49], 30)]]%Z.
Proof. vm_compute. reflexivity. Qed.

(** ** The batches of a pass *)

Section BatchSizes.

Lemma n_batches_0 (bs : nat) : 0 < bs -> n_batches 0 bs = 0.
Proof. intros H. unfold n_batches. apply Nat.div_small. lia. Qed.

Lemma n_batches_step (bs m : nat) :
  0 < bs -> n_batches (bs + m) bs = S (n_batches m bs).
Proof.
  intros H. unfold n_batches.
  replace (bs + m + bs - 1) with (1 * bs + (m + bs - 1)) by lia.
  rewrite Nat.div_add_l by lia. reflexivity.
Qed.

Lemma n_batches_partial (bs c : nat) : 0 < c -> c <= bs -> n_batches c bs = 1.
Proof.
  intros Hc Hle. unfold n_batches.
  replace (c + bs - 1) with (1 * bs + (c - 1)) by lia.
  rewrite Nat.div_add_l by lia. rewrite Nat.div_small by lia. reflexivity.
Qed.

Lemma batch_sampler_count (bs : nat) (rest cur : list nat) :
  0 < bs -> length cur < bs ->
  length (batch_sampler bs cur rest) = n_batches (length cur + length rest) bs.
Proof.
  intros Hbs. revert cur; induction rest as [| idx rest IH]; intros cur Hcur; simpl.
  - rewrite Nat.add_0_r. destruct cur as [| i cur]; simpl.
    + symmetry. now apply n_batches_0.
    + symmetry. apply n_batches_partial; simpl in *; lia.
  - destruct (Nat.eqb_spec (length (cur ++ [idx])) bs) as [E | E];
      rewrite length_app in E; simpl in E.
    + simpl. rewrite (IH []) by (simpl; lia). simpl.
      replace (length cur + S (length rest)) with (bs + length rest) by lia.
      symmetry. now apply n_batches_step.
    + rewrite IH by (rewrite length_app; simpl; lia).
      rewrite length_app. simpl. f_equal. lia.
Qed.

Lemma Forall_removelast_cons {A : Type} (P : A -> Prop) (a : A) (l : list A) :
  (l <> [] -> P a) -> Forall P (removelast l) -> Forall P (removelast (a :: l)).
Proof.
  intros Ha Hl. destruct l as [| b l]; [ constructor | ].
  change (removelast (a :: b :: l)) with (a :: removelast (b :: l)).
  constructor; [ apply Ha; discriminate | exact Hl ].
Qed.

Lemma batch_sampler_sizes (bs : nat) (rest cur : list nat) :
  0 < bs -> length cur < bs ->
  Forall (fun b => 1 <= length b <= bs) (batch_sampler bs cur rest) /\
  Forall (fun b => length b = bs) (removelast (batch_sampler bs cur rest)).
Proof.
  intros Hbs. revert cur; induction rest as [| idx rest IH]; intros cur Hcur; simpl.
  - destruct cur as [| i cur]; simpl; split; try constructor;
      try constructor; simpl in *; lia.
  - destruct (Nat.eqb_spec (length (cur ++ [idx])) bs) as [E | E].
    + destruct (IH []) as [H1 H2]; [ simpl; lia | ]. split.
      * constructor; [ lia | exact H1 ].
      * apply Forall_removelast_cons; [ intros _; exact E | exact H2 ].
    + apply IH. rewrite length_app in *. simpl in *. lia.
Qed.

Lemma removelast_map {A B : Type} (f : A -> B) (l : list A) :
  removelast (map f l) = map f (removelast l).
Proof.
  induction l as [| a l IH]; [ reflexivity | ].
  destruct l as [| b l]; [ reflexivity | ].
  change (removelast (map f (a :: b :: l)))
    with (f a :: removelast (map f (b :: l))).
  now rewrite IH.
Qed.

Lemma in_range_concat (k : nat) (bss : list (list nat)) :
  Forall (fun i => i < k) (concat bss) -> Forall (Forall (fun i => i < k)) bss.
Proof.
  induction bss as [| b bss IH]; simpl; intros H; [ constructor | ].
  apply Forall_app in H. destruct H as [Hb Hbss]. constructor; auto.
Qed.

Lemma rows_at_batches_lengths {A : Type} (ds : list A) (bss : list (list nat)) :
  Forall (Forall (fun i => i < length ds)) bss ->
  map (@length A) (map (rows_at ds) bss) = map (@length nat) bss.
Proof.
  induction 1 as [| b bss Hb _ IH]; simpl; [ reflexivity | ].
  now rewrite rows_at_length, IH.
Qed.

Lemma Forall_map_length {A B : Type} (P : nat -> Prop) (l1 : list (list A))
      (l2 : list (list B)) :
  map (@length A) l1 = map (@length B) l2 ->
  Forall (fun b => P (length b)) l2 -> Forall (fun b => P (length b)) l1.
Proof.
  revert l2; induction l1 as [| a l1 IH]; intros [| b l2] E H; simpl in E;
    try discriminate; [ constructor | ].
  injection E as Ea El. inversion H as [| ? ? Hb Hl2]; subst.
  constructor; [ now rewrite Ea | eapply IH; eassumption ].
Qed.

End BatchSizes.

(** X4: a pass over a loader yields [ceil(len(dataset) / batch_size)]
    batches; every batch but the last holds exactly [batch_size] samples,
    the last at least one and at most [batch_size], and together they hold
    as many samples as the dataset; so a completed epoch of the training
    loop has taken that many optimizer steps and collected that many
    losses. *)
Theorem batches_of_a_pass
        (T : Type) (L : Learner T) (dataset : list (Feat L * T))
        (batch_size : nat) (shuffle : bool) (drawn : list nat)
        (dl : loader (Feat L * T)) :
  DataLoader dataset batch_size shuffle = Ok dl ->
  well_drawn dl drawn ->
  exists batches,
    iterate dl drawn = Ok batches /\
    length batches = n_batches (length dataset) batch_size /\
    Forall (fun b => length b = batch_size) (removelast batches) /\
    Forall (fun b => 1 <= length b <= batch_size) batches /\
    length (concat batches) = length dataset /\
    forall (st st' : state L) e,
      epoch_loss dl drawn st e = Ok st' ->
      length (losses st') = n_batches (length dataset) batch_size.
Proof.
  intros Hdl Hdrawn.
  unfold DataLoader in Hdl.
  destruct (Nat.eqb_spec batch_size 0) as [| Hbs]; [ discriminate | ].
  injection Hdl as <-.
  set (dl := mk_loader dataset batch_size shuffle) in *.
  pose proof (@sampler_order_perm _ dl drawn Hdrawn) as Hperm. simpl in Hperm.
  pose proof (@perm_in_range _ _ Hperm) as Hrange.
  set (idx := batch_sampler batch_size [] (sampler_order dl drawn)).
  assert (Hidx : Forall (Forall (fun i => i < length dataset)) idx).
  { apply in_range_concat. unfold idx. now rewrite batch_sampler_concat. }
  assert (Hit : iterate dl drawn = Ok (map (rows_at dataset) idx)).
  { unfold iterate. simpl. apply take_batches_in_range.
    unfold idx. now rewrite batch_sampler_concat. }
  assert (Hlens : map (@length _) (map (rows_at dataset) idx) = map (@length nat) idx)
    by now apply rows_at_batches_lengths.
  assert (Hcount : length (map (rows_at dataset) idx)
                   = n_batches (length dataset) batch_size).
  { rewrite length_map. unfold idx.
    rewrite batch_sampler_count by (simpl; lia). simpl.
    apply Permutation_length in Hperm. rewrite length_seq in Hperm.
    now rewrite Hperm. }
  destruct (@batch_sampler_sizes batch_size (sampler_order dl drawn) [])
    as [Hall Hfull]; [ lia | simpl; lia | ].
  fold idx in Hall, Hfull.
  exists (map (rows_at dataset) idx).
  split; [ exact Hit | split; [ exact Hcount | split; [ | split; [ | split ] ] ] ].
  - rewrite removelast_map.
    apply (@Forall_map_length _ _ (fun n => n = batch_size) _ (removelast idx));
      [ | exact Hfull ].
    rewrite <- removelast_map, <- !removelast_map. now rewrite Hlens.
  - apply (@Forall_map_length _ _ (fun n => 1 <= n <= batch_size) _ idx);
      [ exact Hlens | exact Hall ].
  - rewrite rows_at_concat. unfold idx. rewrite batch_sampler_concat. simpl.
    rewrite rows_at_length by exact Hrange.
    apply Permutation_length in Hperm. now rewrite length_seq in Hperm.
  - intros st st' e Hep. apply epoch_loss_spec in Hep.
    destruct Hep as (bs & Hbs' & _ & Hl & _).
    assert (bs = map (rows_at dataset) idx) by congruence; subst bs.
    now rewrite Hl, batch_losses_length.
Qed.

(** The three samples in batches of two: a full batch and a last batch of
    one. *)
Lemma batches_of_a_pass_witness :
  exists batches,
    iterate (Toy.shuffled true) [1; 0; 2] = Ok batches /\
    length batches = n_batches (length Toy.samples) 2 /\
    Forall (fun b => length b = 2) (removelast batches) /\
    Forall (fun b => 1 <= length b <= 2) batches /\
    length (concat batches) = length Toy.samples /\
    forall (st st' : state (Toy.learner true)) e,
      epoch_loss (Toy.shuffled true) [1; 0; 2] st e = Ok st' ->
      length (losses st') = n_batches (length Toy.samples) 2.
Proof.
  apply (@batches_of_a_pass Z (Toy.learner true) Toy.samples 2 true [1; 0; 2]
                            (Toy.shuffled true)).
  - reflexivity.
  - intros _. apply perm_swap.
Defined.

(** ** The classifier's predictions *)

Lemma argmax_from_bound {V : Type} (gt : V -> V -> bool) (rest : list V)
      (best_i : nat) (best : V) (i : nat) :
  best_i < i -> argmax_from gt best_i best i rest < i + length rest.
Proof.
  revert best_i best i; induction rest as [| v rest IH]; intros bi best i H; simpl.
  - lia.
  - destruct (gt v best).
    + specialize (IH i v (S i)). lia.
    + specialize (IH bi best (S i)). lia.
Qed.

Lemma argmax_bound {V : Type} (gt : V -> V -> bool) (row : list V) (i : nat) :
  argmax gt row = Ok i -> i < length row.
Proof.
  destruct row as [| v rest]; simpl; [ discriminate | ].
  intros H. injection H as <-.
  pose proof (@argmax_from_bound V gt rest 0 v 1). lia.
Qed.

Lemma in_range_target_ok (y : Z) : (0 <= y <= 2)%Z -> target_ok y = true.
Proof.
  intros H. unfold target_ok.
  destruct (Z.leb_spec 0 y); [ | lia ]. destruct (Z.ltb_spec y 3); [ | lia ].
  reflexivity.
Qed.

Lemma for_each_ext_in {T : Type} (L : Learner T) {A : Type}
      (f g : state L -> A -> result (state L)) (xs : list A) (st : state L) :
  (forall s x, In x xs -> f s x = g s x) ->
  for_each f st xs = for_each g st xs.
Proof.
  revert st. induction xs as [| x xs IH]; intros st H; simpl; [ reflexivity | ].
  rewrite (H st x) by now left.
  destruct (g st x) as [s' |]; simpl; [ | reflexivity ].
  apply IH. intros s y Hy. apply H. now right.
Qed.

Lemma targets_rejected {A : Type} (b : list (A * Z)) (xy : A * Z) :
  In xy b -> target_ok (snd xy) = false ->
  forallb target_ok (map snd b) = false.
Proof.
  intros Hin Hbad. destruct (forallb target_ok (map snd b)) eqn:E; [ | reflexivity ].
  rewrite forallb_forall in E. rewrite <- Hbad. symmetry. apply E.
  apply in_map. exact Hin.
Qed.

Lemma targets_accepted {A : Type} (b : list (A * Z)) :
  Forall (fun xy => target_ok (snd xy) = true) b ->
  forallb target_ok (map snd b) = true.
Proof.
  intros H. apply forallb_forall. intros y Hy.
  apply in_map_iff in Hy. destruct Hy as (xy & <- & Hxy).
  rewrite Forall_forall in H. now apply H.
Qed.

(** In a well-drawn pass over a dataset of accepted targets every batch has
    accepted targets only. *)
Lemma batches_accepted {A : Type} (dl : loader (A * Z)) (drawn : list nat)
      (batches : list (list (A * Z))) :
  Forall (fun xy => target_ok (snd xy) = true) (dl_dataset dl) ->
  well_drawn dl drawn -> iterate dl drawn = Ok batches ->
  Forall (fun b => forallb target_ok (map snd b) = true) batches.
Proof.
  intros Hok Hd Hit.
  pose proof (iterate_covers Hd Hit) as Hperm.
  apply Permutation_sym in Hperm.
  pose proof (Permutation_Forall Hperm Hok) as Hall.
  apply Forall_concat in Hall.
  eapply Forall_impl; [ | exact Hall ]. intros b. apply targets_accepted.
Qed.

Section Classifier43Facts.

Variables (F P G O : Type).
Variable lin : P -> F * F * F * F -> F * F * F.
Variable cross_entropy : list (list F) -> list Z -> F.
Variable autograd : P -> list (F * F * F * F) -> list Z -> G.
Variables (g0 : G) (gplus : G -> G -> G) (to_none : bool).
Variable adam : O -> P -> G -> O * P.
Variable gtb : F -> F -> bool.
Variables (f0 : F) (fplus : F -> F -> F) (fdiv : F -> nat -> F).

Local Abbreviation model :=
  (LogisticRegressor lin cross_entropy autograd g0 gplus to_none adam gtb
                     f0 fplus fdiv).
Local Abbreviation train_batch :=
  (@logistic_train_batch F P G O lin cross_entropy autograd g0 gplus to_none
                         adam gtb f0 fplus fdiv).
Local Abbreviation eval_batch_ce :=
  (@logistic_eval_batch F P G O lin cross_entropy autograd g0 gplus to_none
                        adam gtb f0 fplus fdiv).
Local Abbreviation epoch_acc_ce :=
  (@logistic_epoch_acc F P G O lin cross_entropy autograd g0 gplus to_none
                       adam gtb f0 fplus fdiv).
Local Abbreviation fit_acc_ce :=
  (@logistic_fit_acc F P G O lin cross_entropy autograd g0 gplus to_none
                     adam gtb f0 fplus fdiv).
Local Abbreviation validate_ce :=
  (@logistic_validate F P G O lin cross_entropy autograd g0 gplus to_none
                      adam gtb f0 fplus fdiv).
Local Abbreviation epoch_val_ce :=
  (@logistic_epoch_val F P G O lin cross_entropy autograd g0 gplus to_none
                       adam gtb f0 fplus fdiv).
Local Abbreviation fit_val_ce :=
  (@logistic_fit_val F P G O lin cross_entropy autograd g0 gplus to_none
                     adam gtb f0 fplus fdiv).
Local Abbreviation accepted :=
  (fun b : list (Feat model * Z) => forallb target_ok (map snd b) = true).

Lemma logistic_three_scores (p : P) (xb : F * F * F * F) :
  length (logistic_forward lin p xb) = 3.
Proof.
  unfold logistic_forward. destruct (lin p xb) as [[s0 s1] s2]. reflexivity.
Qed.

Lemma logistic_scores_nonempty : scores_nonempty model.
Proof.
  intros p x E. pose proof (logistic_three_scores p x) as H.
  simpl in E. rewrite E in H. discriminate.
Qed.

(** On accepted targets the loops on this model are the loops over a
    learner; a rejected target stops the batch with the loss's error. *)
Lemma logistic_train_batch_accepts (st : state model) (b : list (Feat model * Z)) :
  forallb target_ok (map snd b) = true ->
  train_batch st b = train_batch_acc (L := model) st b.
Proof.
  intros H. unfold logistic_train_batch, train_batch_acc, CrossEntropyLoss.
  rewrite H. reflexivity.
Qed.

Lemma logistic_train_batch_rejects (st : state model) (b : list (Feat model * Z)) :
  forallb target_ok (map snd b) = false -> train_batch st b = Raise IndexError.
Proof.
  intros H. unfold logistic_train_batch, CrossEntropyLoss. rewrite H. reflexivity.
Qed.

Lemma logistic_eval_batch_accepts (st : state model) (b : list (Feat model * Z)) :
  forallb target_ok (map snd b) = true ->
  eval_batch_ce st b = eval_batch (L := model) st b.
Proof.
  intros H. unfold logistic_eval_batch, eval_batch, CrossEntropyLoss.
  rewrite H. reflexivity.
Qed.

Lemma logistic_epoch_acc_accepts (dl : loader (Feat model * Z)) (drawn : list nat)
      (st : state model) (e : nat) :
  (forall batches, iterate dl drawn = Ok batches -> Forall accepted batches) ->
  epoch_acc_ce dl drawn st e = epoch_acc (L := model) dl drawn st e.
Proof.
  intros H. unfold logistic_epoch_acc, epoch_acc.
  destruct (iterate dl drawn) as [batches |] eqn:Hit; [ | reflexivity ].
  cbn [Py.bind].
  rewrite (@for_each_ext_in _ model _ train_batch (train_batch_acc (L := model)));
    [ reflexivity | ].
  intros s b Hb. apply logistic_train_batch_accepts.
  specialize (H _ eq_refl). rewrite Forall_forall in H. now apply H.
Qed.

Lemma logistic_validate_accepts (dl : loader (Feat model * Z)) (drawn : list nat)
      (st : state model) :
  (forall batches, iterate dl drawn = Ok batches -> Forall accepted batches) ->
  validate_ce dl drawn st = validate (L := model) dl drawn st.
Proof.
  intros H. unfold logistic_validate, validate.
  destruct (iterate dl drawn) as [batches |] eqn:Hit; [ | reflexivity ].
  cbn [Py.bind].
  rewrite (@for_each_ext_in _ model _ eval_batch_ce (eval_batch (L := model)));
    [ reflexivity | ].
  intros s b Hb. apply logistic_eval_batch_accepts.
  specialize (H _ eq_refl). rewrite Forall_forall in H. now apply H.
Qed.

Lemma logistic_epoch_val_accepts (train_dl val_dl : loader (Feat model * Z))
      (drawn : list nat) (st : state model) (e : nat) :
  (forall batches, iterate train_dl drawn = Ok batches -> Forall accepted batches) ->
  (forall batches, iterate val_dl drawn = Ok batches -> Forall accepted batches) ->
  epoch_val_ce train_dl val_dl drawn st e
  = epoch_val (L := model) train_dl val_dl drawn st e.
Proof.
  intros Ht Hv. unfold logistic_epoch_val, epoch_val.
  destruct (iterate train_dl drawn) as [batches |] eqn:Hit; [ | reflexivity ].
  cbn [Py.bind].
  rewrite (@for_each_ext_in _ model _ train_batch (train_batch_acc (L := model))).
  - destruct (for_each _ _ batches) as [s1 |]; [ | reflexivity ]. cbn [Py.bind].
    destruct (true_div _ _); [ | reflexivity ]. cbn [Py.bind].
    destruct (mean _ _); [ | reflexivity ]. cbn [Py.bind].
    now rewrite (@logistic_validate_accepts val_dl drawn s1 Hv).
  - intros s b Hb. apply logistic_train_batch_accepts.
    specialize (Ht _ eq_refl). rewrite Forall_forall in Ht. now apply Ht.
Qed.

Lemma logistic_fit_acc_accepts (dl : loader (Feat model * Z))
      (draws : nat -> list nat) (n : nat) (st : state model) :
  (forall k batches, iterate dl (draws k) = Ok batches -> Forall accepted batches) ->
  fit_acc_ce dl draws n st = fit_acc (L := model) dl draws n st.
Proof.
  intros H. unfold logistic_fit_acc, fit_acc. apply for_each_ext_in.
  intros s k _. apply logistic_epoch_acc_accepts. apply H.
Qed.

Lemma logistic_fit_val_accepts (train_dl val_dl : loader (Feat model * Z))
      (draws : nat -> list nat) (n : nat) (st : state model) :
  (forall k batches, iterate train_dl (draws k) = Ok batches ->
                     Forall accepted batches) ->
  (forall k batches, iterate val_dl (draws k) = Ok batches ->
                     Forall accepted batches) ->
  fit_val_ce train_dl val_dl draws n st
  = fit_val (L := model) train_dl val_dl draws n st.
Proof.
  intros Ht Hv. unfold logistic_fit_val, fit_val. apply for_each_ext_in.
  intros s k _. apply logistic_epoch_val_accepts; [ apply Ht | apply Hv ].
Qed.

Lemma for_each_logistic_rejects (bs : list (list (Feat model * Z))) :
  Forall (fun b => b <> []) bs ->
  Exists (fun b => forallb target_ok (map snd b) = false) bs ->
  forall st : state model, for_each train_batch st bs = Raise IndexError.
Proof.
  intros Hne Hex.
  induction Hex as [b bs Hb | b bs Hex IH]; intros st; simpl.
  - now rewrite logistic_train_batch_rejects.
  - inversion Hne as [| b' bs' Hbne Hrest]; subst.
    destruct (forallb target_ok (map snd b)) eqn:Hb.
    + rewrite logistic_train_batch_accepts by exact Hb.
      destruct (@train_batch_acc_total model st b logistic_scores_nonempty Hbne)
        as [s' Hs'].
      rewrite Hs'. cbn [Py.bind]. now apply IH.
    + now rewrite logistic_train_batch_rejects.
Qed.

Lemma logistic_epoch_acc_rejects (dl : loader (Feat model * Z)) (drawn : list nat)
      (st : state model) (e : nat) :
  well_drawn dl drawn ->
  Exists (fun xy => target_ok (snd xy) = false) (dl_dataset dl) ->
  epoch_acc_ce dl drawn st e = Raise IndexError.
Proof.
  intros Hd Hex.
  destruct (@iterate_ok _ dl drawn (@sampler_order_perm _ dl drawn Hd))
    as (batches & Hit & _ & Hperm & Hfull).
  apply Exists_exists in Hex. destruct Hex as (xy & Hin & Hbad).
  apply (Permutation_in _ (Permutation_sym Hperm)) in Hin.
  apply in_concat in Hin. destruct Hin as (b & Hb & Hxy).
  unfold logistic_epoch_acc. rewrite Hit. cbn [Py.bind].
  rewrite for_each_logistic_rejects; [ reflexivity | exact Hfull | ].
  apply Exists_exists. exists b. split; [ exact Hb | ].
  now apply targets_rejected with xy.
Qed.

(** X5: the classifier with its three output scores never fails to
    predict: for any parameters and any test samples [predict] returns one
    class per sample, each of them 0, 1 or 2, the labels of the three
    species; training it with accuracy bookkeeping over a non-empty dataset
    whose labels are all 0, 1 or 2 completes, and does what the loop does
    over a learner whose loss is defined everywhere; over a dataset with a
    label the loss rejects, the first epoch stops with the loss's
    [IndexError]. *)
Theorem logistic_regressor_predicts_a_species :
  (forall (p : Params model) (test_samples : list (Feat model)),
     exists preds,
       predict model p test_samples = Ok preds /\
       length preds = length test_samples /\
       Forall (fun y => y = 0%Z \/ y = 1%Z \/ y = 2%Z) preds) /\
  (forall (dl : loader (Feat model * Z)) draws n (st : state model),
     (forall k, well_drawn dl (draws k)) ->
     (dl_dataset dl <> [] ->
      Forall (fun xy => (0 <= snd xy <= 2)%Z) (dl_dataset dl) ->
      exists s_n,
        fit_acc_ce dl draws n st = Ok s_n /\
        fit_acc (L := model) dl draws n st = Ok s_n) /\
     (Exists (fun xy => target_ok (snd xy) = false) (dl_dataset dl) ->
      0 < n ->
      fit_acc_ce dl draws n st = Raise IndexError)).
Proof.
  split.
  - intros p xs. induction xs as [| x xs (preds & Hp & Hlen & Hall)].
    + exists []. repeat split; constructor.
    + pose proof (logistic_three_scores p x) as H3.
      destruct (argmax gtb (logistic_forward lin p x)) as [i |] eqn:Hi.
      * exists (Z.of_nat i :: preds).
        apply argmax_bound in Hi as Hb. rewrite H3 in Hb.
        split; [ | split ].
        -- unfold predict, argmax_dim1 in *. simpl in *. rewrite Hi. simpl.
           now rewrite Hp.
        -- simpl. now rewrite Hlen.
        -- constructor; [ lia | exact Hall ].
      * destruct (logistic_forward lin p x); discriminate.
  - intros dl draws n st Hdrawn. split.
    + intros Hds Hrange.
      assert (Hok : Forall (fun xy : Feat model * Z => target_ok (snd xy) = true)
                           (dl_dataset dl)).
      { eapply Forall_impl; [ | exact Hrange ].
        intros xy. apply in_range_target_ok. }
      destruct (@run_total _ model (fun s e => epoch_acc dl (draws e) s e) n st)
        as [s_n Hs].
      { intros s e. apply epoch_acc_total; auto. apply logistic_scores_nonempty. }
      exists s_n. split; [ | exact Hs ].
      rewrite logistic_fit_acc_accepts; [ exact Hs | ].
      intros k batches Hit. now apply batches_accepted with dl (draws k).
    + intros Hex Hn. destruct n as [| n]; [ lia | ].
      unfold logistic_fit_acc. cbn [seq for_each].
      rewrite logistic_epoch_acc_rejects; [ reflexivity | apply Hdrawn | exact Hex ].
Qed.

End Classifier43Facts.

(** ** Validation and test accuracy are the accuracy of the parameters in
    force *)

Section AccuracyOf.

Variable L : Learner Z.

Lemma hits_app (p : Params L) (a b : list (Feat L * Z)) :
  hits L p (a ++ b) = hits L p a + hits L p b.
Proof. unfold hits. now rewrite filter_app, length_app. Qed.

Lemma hits_concat (p : Params L) (bs : list (list (Feat L * Z))) :
  hits L p (concat bs) = list_sum (map (hits L p) bs).
Proof.
  induction bs as [| b bs IH]; [ reflexivity | ].
  simpl. now rewrite hits_app, IH.
Qed.

Lemma hits_perm (p : Params L) (a b : list (Feat L * Z)) :
  Permutation a b -> hits L p a = hits L p b.
Proof.
  unfold hits. induction 1 as [| x a b _ IH | x y a | a b c _ IH1 _ IH2]; simpl.
  - reflexivity.
  - destruct (hit L p x); simpl; now rewrite IH.
  - destruct (hit L p x), (hit L p y); reflexivity.
  - now rewrite IH1.
Qed.

(** X9. The validation pass of section 3.4 measures the model as it is when
    the pass starts: whatever the batch size of the validation loader and
    the order it draws, the accuracy it returns is the fraction of the
    validation samples whose highest score is their label, under the
    parameters of the incoming state; it lies between 0 and 1; the loss it
    returns is the mean of the batch losses under the same parameters. *)
Theorem validation_measures_the_current_model
        (val_dl : loader (Feat L * Z)) (drawn : list nat) (st st' : state L)
        (acc : Q) (avg : Scalar L) :
  well_drawn val_dl drawn ->
  validate val_dl drawn st = Ok (st', acc, avg) ->
  accuracy_of L (params st) (dl_dataset val_dl) = Ok acc /\
  (0 <= acc <= 1)%Q /\
  exists batches,
    iterate val_dl drawn = Ok batches /\
    avg = sdiv L (py_sum L (map (batch_loss L (params st)) batches))
               (length batches).
Proof.
  intros Hd Hv.
  destruct (validate_inv _ _ _ Hv) as (batches & Hit & Hrun & Hdiv & Hmean).
  destruct (for_each_eval_batch _ _ Hrun) as (_ & _ & _ & Hl & Hn & _).
  simpl in Hl, Hn.
  assert (Hh : n_correct st' = hits L (params st) (dl_dataset val_dl)).
  { rewrite Hn, <- hits_concat. apply hits_perm. now apply iterate_covers with drawn. }
  unfold accuracy_of. rewrite <- Hh. split; [ exact Hdiv | ].
  destruct (true_div_Ok_inv _ _ Hdiv) as [Hne ->]. split.
  - apply fraction_in_unit_interval; [ exact Hne | ]. rewrite Hh. apply hits_le.
  - exists batches. split; [ exact Hit | ].
    destruct (@mean_Ok_inv _ L _ _ Hmean) as [_ ->].
    now rewrite Hl, length_map.
Qed.

Lemma map_fst_combine {A B : Type} (l : list A) (l' : list B) :
  length l = length l' -> map fst (combine l l') = l.
Proof.
  revert l'. induction l as [| a l IH]; intros [| b l'] H; simpl in *;
    try discriminate; [ reflexivity | ].
  f_equal. apply IH. now injection H.
Qed.

Lemma map_snd_combine {A B : Type} (l : list A) (l' : list B) :
  length l = length l' -> map snd (combine l l') = l'.
Proof.
  revert l'. induction l as [| a l IH]; intros [| b l'] H; simpl in *;
    try discriminate; [ reflexivity | ].
  f_equal. apply IH. now injection H.
Qed.

(** X10. Section 4's test accuracy, computed from the stored predictions,
    is the accuracy of the parameters that made them on the test samples
    paired with their labels: with one label per sample the two agree on
    every value; on a non-empty test set the value exists and lies between
    0 and 1; on an empty one [sum] of an empty comparison fails. *)
Theorem test_accuracy_is_accuracy_of_the_model
        (p : Params L) (test_samples : list (Feat L))
        (test_labels preds : list Z) :
  length test_samples = length test_labels ->
  predict L p test_samples = Ok preds ->
  (forall q, test_accuracy preds test_labels = Ok q <->
             accuracy_of L p (combine test_samples test_labels) = Ok q) /\
  (test_samples <> [] ->
   exists q, test_accuracy preds test_labels = Ok q /\ (0 <= q <= 1)%Q) /\
  (test_samples = [] -> test_accuracy preds test_labels = Raise AttributeError).
Proof.
  intros Hlen Hp. unfold predict in Hp.
  set (b := combine test_samples test_labels).
  assert (Hx : map fst b = test_samples) by now apply map_fst_combine.
  assert (Hy : map snd b = test_labels) by now apply map_snd_combine.
  assert (Hb : length b = length test_samples).
  { unfold b. rewrite length_combine. lia. }
  rewrite <- Hx in Hp.
  destruct (@matches_hits L p b preds Hp) as [Hlp Hm].
  assert (Hne : test_samples <> [] ->
                test_accuracy preds test_labels = accuracy_of L p b).
  { intros Hn. unfold test_accuracy, accuracy_of.
    assert (Hbn : b <> []).
    { intros E. rewrite E in Hb. destruct test_samples; [ now apply Hn | discriminate ]. }
    rewrite <- Hy, (@count_correct_total L p b preds Hbn Hp). simpl. now rewrite Hlp. }
  assert (He : test_samples = [] ->
               test_accuracy preds test_labels = Raise AttributeError).
  { intros E. rewrite E in Hb. destruct b; [ | discriminate ].
    destruct preds; [ | discriminate ]. reflexivity. }
  split; [ | split; [ | exact He ] ].
  - intros q. destruct test_samples as [| x xs] eqn:E.
    + rewrite (He eq_refl). unfold accuracy_of.
      destruct b; [ | discriminate ]. simpl. split; intros H; discriminate H.
    + rewrite Hne by discriminate. reflexivity.
  - intros Hn. rewrite (Hne Hn). unfold accuracy_of.
    assert (Hl0 : length b <> 0).
    { rewrite Hb. destruct test_samples; [ now elim Hn | discriminate ]. }
    rewrite (true_div_Ok _ Hl0). eexists. split; [ reflexivity | ].
    apply fraction_in_unit_interval; [ exact Hl0 | apply hits_le ].
Qed.

End AccuracyOf.

Lemma validation_measures_the_current_model_witness :
  well_drawn (Toy.held_out true) [] /\
  accuracy_of (Toy.learner true) 1%Z (dl_dataset (Toy.held_out true))
    = Ok (3 # 3)%Q.
Proof.
  assert (Hd : well_drawn (Toy.held_out true) []) by (intros H; discriminate H).
  split; [ exact Hd | ].
  apply (@validation_measures_the_current_model (Toy.learner true)
           (Toy.held_out true) []
           (Toy.init true 1%Z)
           (set_n_correct (set_losses (Toy.init true 1%Z) [2%Z]) 3)
           (3 # 3)%Q 2%Z Hd).
  vm_compute. reflexivity.
Defined.

Lemma test_accuracy_is_accuracy_of_the_model_witness :
  test_accuracy [0%Z; 1%Z; 1%Z] [0%Z; 1%Z; 0%Z] = Ok (2 # 3)%Q <->
  accuracy_of (Toy.learner true) 1%Z
              (combine [0%Z; 1%Z; 2%Z] [0%Z; 1%Z; 0%Z]) = Ok (2 # 3)%Q.
Proof.
  refine (proj1 (@test_accuracy_is_accuracy_of_the_model (Toy.learner true) 1%Z
                   [0%Z; 1%Z; 2%Z] [0%Z; 1%Z; 0%Z] [0%Z; 1%Z; 1%Z] _ _) _).
  - reflexivity.
  - vm_compute. reflexivity.
Defined.

(** ** The three training loops compared *)

Section LoopsCompared.

Variable L : Learner Z.

Local Abbreviation batch := (list (Feat L * Z)).
Local Abbreviation reset st := (set_n_correct (set_losses st []) 0).

Lemma reset_keeps_model (s1 s2 : state L) :
  same_model s1 s2 -> same_model (reset s1) (reset s2).
Proof. intros H. exact H. Qed.

(** X6. One epoch of section 3.4's loop that completes: the model at its end
    is the one the training batches leave; the validation figures of the
    printed line are computed under these end-of-epoch parameters, the
    training figures batch by batch under the parameters in force when each
    batch started; afterwards [losses] and [n_correct] hold the validation
    values, not the training ones. *)
Theorem epoch_val_report
        (train_dl val_dl : loader (Feat L * Z)) (drawn : list nat)
        (st st' : state L) (e : nat) :
  epoch_val train_dl val_dl drawn st e = Ok st' ->
  exists batches val_batches,
    iterate train_dl drawn = Ok batches /\
    iterate val_dl drawn = Ok val_batches /\
    same_model st' (run_model batches st) /\
    let p' := params (run_model batches st) in
    losses st' = map (batch_loss L p') val_batches /\
    n_correct st' = list_sum (map (hits L p') val_batches) /\
    stdout st' = stdout st ++
      [ValLine e
         (sdiv L (py_sum L (batch_losses st batches)) (length batches))
         (sdiv L (py_sum L (map (batch_loss L p') val_batches)) (length val_batches))
         (Qmake (Z.of_nat (epoch_hits st batches))
                (Pos.of_nat (length (dl_dataset train_dl))))
         (Qmake (Z.of_nat (list_sum (map (hits L p') val_batches)))
                (Pos.of_nat (length (dl_dataset val_dl))))].
Proof.
  intros H.
  destruct (epoch_val_inv _ _ _ _ _ H)
    as (batches & s1 & tacc & tavg & s2 & vacc & vavg
        & Hit & Hrun & Hdiv & Hmean & Hval & ->).
  destruct (for_each_train_batch_acc _ _ Hrun) as (Hsm & Hl & Hn & Hout).
  simpl in Hl, Hn, Hout.
  destruct (validate_inv _ _ _ Hval) as (vb & Hvit & Hvrun & Hvdiv & Hvmean).
  destruct (for_each_eval_batch _ _ Hvrun) as (Hp2 & Hg2 & Ho2 & Hl2 & Hn2 & Hout2).
  simpl in Hp2, Hg2, Ho2, Hl2, Hn2, Hout2.
  assert (Hsm0 : same_model s1 (run_model batches st)).
  { eapply same_model_trans; [ exact Hsm | ].
    apply run_model_same_model. apply reset_keeps_model, same_model_refl. }
  assert (Hp1 : params s1 = params (run_model batches st)) by apply Hsm0.
  assert (Hbl : batch_losses (reset st) batches = batch_losses st batches)
    by (apply batch_losses_same_model, reset_keeps_model, same_model_refl).
  assert (Heh : epoch_hits (reset st) batches = epoch_hits st batches)
    by (apply epoch_hits_same_model, reset_keeps_model, same_model_refl).
  exists batches, vb. split; [ exact Hit | ]. split; [ exact Hvit | ].
  split.
  { destruct Hsm0 as (A1 & A2 & A3). repeat split; simpl; congruence. }
  cbv zeta. rewrite <- Hp1. split; [ exact Hl2 | ]. split; [ exact Hn2 | ].
  simpl. rewrite Hout2, Hout. f_equal. f_equal.
  destruct (@mean_Ok_inv _ L _ _ Hmean) as [_ ->].
  destruct (@mean_Ok_inv _ L _ _ Hvmean) as [_ ->].
  destruct (true_div_Ok_inv _ _ Hdiv) as [_ ->].
  destruct (true_div_Ok_inv _ _ Hvdiv) as [_ ->].
  rewrite Hl, Hl2, Hn, Hn2, Hbl, Heh, batch_losses_length, length_map.
  reflexivity.
Qed.

Lemma train_batch_acc_replay (a c a' : state L) (b : batch) :
  same_model a c -> train_batch_acc a b = Ok a' ->
  exists c', train_batch_acc c b = Ok c' /\ same_model a' c'.
Proof.
  intros Hsm Ha.
  assert (Hc : exists c', train_batch_acc c b = Ok c').
  { unfold train_batch_acc in *. destruct Hsm as (Hp & _). rewrite <- Hp.
    destruct (argmax_dim1 _ _) as [hp |]; [ | discriminate Ha ]. simpl in *.
    destruct (count_correct _ _); [ | discriminate Ha ]. simpl.
    eexists. reflexivity. }
  destruct Hc as [c' Hc]. exists c'. split; [ exact Hc | ].
  destruct (@train_batch_acc_trains L _ _ _ Ha) as [H1 _].
  destruct (@train_batch_acc_trains L _ _ _ Hc) as [H2 _].
  eapply same_model_trans; [ exact H1 | ].
  eapply same_model_trans; [ apply optimize_same_model; exact Hsm | ].
  apply same_model_sym. exact H2.
Qed.

Lemma for_each_train_batch_acc_replay (bs : list batch) (a c a' : state L) :
  same_model a c -> for_each (train_batch_acc (L := L)) a bs = Ok a' ->
  exists c', for_each (train_batch_acc (L := L)) c bs = Ok c'.
Proof.
  revert a c. induction bs as [| b bs IH]; intros a c Hsm H; simpl in *.
  - eexists. reflexivity.
  - inv_bind H as a1 Ha1.
    destruct (train_batch_acc_replay _ Hsm Ha1) as (c1 & Hc1 & Hsm1).
    rewrite Hc1. simpl. now apply IH with a1.
Qed.

(** An epoch with validation trains as the epoch without it does, and its
    line carries the same training figures. *)
Lemma epoch_val_as_epoch_acc (train_dl val_dl : loader (Feat L * Z))
      (drawn : list nat) (a b a' : state L) (e : nat) :
  same_model a b ->
  epoch_val train_dl val_dl drawn a e = Ok a' ->
  exists b' tl vl ta va,
    epoch_acc train_dl drawn b e = Ok b' /\
    same_model a' b' /\
    stdout a' = stdout a ++ [ValLine e tl vl ta va] /\
    stdout b' = stdout b ++ [AccLine e tl ta].
Proof.
  intros Hsm H.
  destruct (epoch_val_inv _ _ _ _ _ H)
    as (batches & s1 & tacc & tavg & s2 & vacc & vavg
        & Hit & Hrun & Hdiv & Hmean & Hval & ->).
  destruct (for_each_train_batch_acc_replay _ (reset_keeps_model Hsm) Hrun)
    as [s1b Hrunb].
  destruct (for_each_train_batch_acc _ _ Hrun) as (Hm & Hl & Hn & Hout).
  destruct (for_each_train_batch_acc _ _ Hrunb) as (Hmb & Hlb & Hnb & Houtb).
  simpl in Hl, Hn, Hout, Hlb, Hnb, Houtb.
  rewrite (batch_losses_same_model _ (reset_keeps_model Hsm)) in Hl.
  rewrite (epoch_hits_same_model _ (reset_keeps_model Hsm)) in Hn.
  destruct (validate_frame _ _ _ Hval) as [Hf Hfo].
  exists (print s1b (AccLine e tavg tacc)), tavg, vavg, tacc, vacc.
  split; [ | split; [ | split ] ].
  - unfold epoch_acc. rewrite Hit. simpl. rewrite Hrunb. simpl.
    rewrite Hnb, <- Hn, Hdiv. simpl. rewrite Hlb, <- Hl, Hmean. reflexivity.
  - assert (Hs : same_model s2 s1b).
    { eapply same_model_trans; [ exact Hf | ].
      eapply same_model_trans; [ exact Hm | ].
      eapply same_model_trans;
        [ apply run_model_same_model, reset_keeps_model; exact Hsm | ].
      apply same_model_sym. exact Hmb. }
    exact Hs.
  - simpl. now rewrite Hfo, Hout.
  - simpl. now rewrite Houtb.
Qed.

(** X7. Validation is transparent to training: when the loop of section 3.4
    completes, the loop of section 3.3 run from the same state on the same
    training batches completes as well, ends with the same parameters,
    gradient buffer and optimizer state, and prints, epoch for epoch, the
    same training loss and training accuracy. *)
Theorem validation_is_transparent_to_training
        (train_dl val_dl : loader (Feat L * Z)) (draws : nat -> list nat)
        (n : nat) (st s : state L) :
  fit_val train_dl val_dl draws n st = Ok s ->
  exists s' lines,
    fit_acc train_dl draws n st = Ok s' /\
    same_model s s' /\
    Forall2 (fun e line => exists tl vl ta va, line = ValLine e tl vl ta va)
            (seq 0 n) lines /\
    stdout s = stdout st ++ lines /\
    stdout s' = stdout st ++ map (@train_part _) lines.
Proof.
  revert s. induction n as [| n IH]; intros s H.
  - injection H as <-. exists st, []. simpl. rewrite app_nil_r.
    repeat split; try reflexivity. constructor.
  - unfold fit_val in H. rewrite seq_S, for_each_snoc in H. simpl in H.
    inv_bind H as a Ha.
    destruct (IH a Ha) as (b & lines & Hb & Hsm & Hall & Houta & Houtb).
    destruct (epoch_val_as_epoch_acc _ _ _ _ Hsm H)
      as (b' & tl & vl & ta & va & Hb' & Hsm' & Hout & Hout').
    exists b', (lines ++ [ValLine n tl vl ta va]).
    split; [ | split; [ exact Hsm' | split; [ | split ] ] ].
    + unfold fit_acc in *. rewrite seq_S, for_each_snoc. simpl.
      rewrite Hb. simpl. exact Hb'.
    + rewrite seq_S. apply Forall2_app; [ exact Hall | ].
      constructor; [ | constructor ]. simpl. now exists tl, vl, ta, va.
    + rewrite Hout, Houta. now rewrite <- app_assoc.
    + rewrite Hout', Houtb, map_app. now rewrite <- app_assoc.
Qed.

(** An epoch that also counts correct predictions trains as the loss-only
    epoch does, and its line carries the same mean loss. *)
Lemma epoch_acc_as_epoch_loss (dl : loader (Feat L * Z))
      (drawn : list nat) (a b a' : state L) (e : nat) :
  same_model a b ->
  epoch_acc dl drawn a e = Ok a' ->
  exists b' avg_loss accuracy,
    epoch_loss dl drawn b e = Ok b' /\
    same_model a' b' /\
    stdout a' = stdout a ++ [AccLine e avg_loss accuracy] /\
    stdout b' = stdout b ++ [LossLine e avg_loss].
Proof.
  intros Hsm H.
  destruct (epoch_acc_inv _ _ _ _ H)
    as (batches & s1 & acc & avg & Hit & Hrun & Hdiv & Hmean & ->).
  destruct (for_each_train_batch_acc _ _ Hrun) as (Hm & Hl & Hn & Hout).
  destruct (for_each_train_batch_loss batches (set_losses b []))
    as (s1b & Hrunb & Hmb & Hlb & _ & Houtb).
  simpl in Hl, Hout, Hlb, Houtb.
  assert (Hsm0 : same_model (reset a) (set_losses b [])) by exact Hsm.
  rewrite (batch_losses_same_model _ Hsm0) in Hl.
  exists (print s1b (LossLine e avg)), avg, acc.
  split; [ | split; [ | split ] ].
  - unfold epoch_loss. rewrite Hit. simpl. rewrite Hrunb. simpl.
    rewrite Hlb, <- Hl, Hmean. reflexivity.
  - assert (Hs : same_model s1 s1b).
    { eapply same_model_trans; [ exact Hm | ].
      eapply same_model_trans; [ apply run_model_same_model; exact Hsm0 | ].
      apply same_model_sym. exact Hmb. }
    exact Hs.
  - simpl. now rewrite Hout.
  - simpl. now rewrite Houtb.
Qed.

(** X8. Counting correct predictions is transparent to training: when the
    loop of section 3.3 completes, the loss-only loop of section 3.2 run
    from the same state on the same batches completes as well, ends with
    the same parameters, gradient buffer and optimizer state, and prints,
    epoch for epoch, the same mean loss. *)
Theorem accuracy_bookkeeping_is_transparent_to_training
        (dl : loader (Feat L * Z)) (draws : nat -> list nat)
        (n : nat) (st s : state L) :
  fit_acc dl draws n st = Ok s ->
  exists s' lines,
    fit_loss dl draws n st = Ok s' /\
    same_model s s' /\
    Forall2 (fun e line => exists avg_loss accuracy,
               line = AccLine e avg_loss accuracy)
            (seq 0 n) lines /\
    stdout s = stdout st ++ lines /\
    stdout s' = stdout st ++ map (@loss_part _) lines.
Proof.
  revert s. induction n as [| n IH]; intros s H.
  - injection H as <-. exists st, []. simpl. rewrite app_nil_r.
    repeat split; try reflexivity. constructor.
  - unfold fit_acc in H. rewrite seq_S, for_each_snoc in H. simpl in H.
    inv_bind H as a Ha.
    destruct (IH a Ha) as (b & lines & Hb & Hsm & Hall & Houta & Houtb).
    destruct (epoch_acc_as_epoch_loss _ _ _ Hsm H)
      as (b' & avg & acc & Hb' & Hsm' & Hout & Hout').
    exists b', (lines ++ [AccLine n avg acc]).
    split; [ | split; [ exact Hsm' | split; [ | split ] ] ].
    + unfold fit_loss in *. rewrite seq_S, for_each_snoc. simpl.
      rewrite Hb. simpl. exact Hb'.
    + rewrite seq_S. apply Forall2_app; [ exact Hall | ].
      constructor; [ | constructor ]. simpl. now exists avg, acc.
    + rewrite Hout, Houta. now rewrite <- app_assoc.
    + rewrite Hout', Houtb, map_app. now rewrite <- app_assoc.
Qed.

End LoopsCompared.

Lemma epoch_val_report_witness :
  exists batches val_batches,
    iterate (Toy.shuffled true) [1; 0; 2] = Ok batches /\
    iterate (Toy.held_out true) [1; 0; 2] = Ok val_batches /\
    same_model (mk_state (Toy.learner true) (-10)%Z None tt [662%Z] 0
                         [ValLine 0 5%Z 662%Z (2 # 3)%Q (0 # 3)%Q])
               (run_model batches (Toy.init true 0%Z)).
Proof.
  destruct (@epoch_val_report (Toy.learner true) (Toy.shuffled true)
              (Toy.held_out true) [1; 0; 2] (Toy.init true 0%Z)
              (mk_state (Toy.learner true) (-10)%Z None tt [662%Z] 0
                        [ValLine 0 5%Z 662%Z (2 # 3)%Q (0 # 3)%Q]) 0)
    as (batches & vb & H1 & H2 & H3 & _).
  - vm_compute. reflexivity.
  - exists batches, vb. repeat split; [ exact H1 | exact H2 | apply H3 .. ].
Defined.

Lemma validation_is_transparent_to_training_witness :
  exists s',
    fit_acc (Toy.shuffled true) (fun _ => [1; 0; 2]) 2 (Toy.init true 0%Z) = Ok s' /\
    params s' = (-220)%Z.
Proof.
  destruct (@validation_is_transparent_to_training (Toy.learner true)
              (Toy.shuffled true) (Toy.held_out true) (fun _ => [1; 0; 2]) 2
              (Toy.init true 0%Z)
              (mk_state (Toy.learner true) (-220)%Z None tt [291722%Z] 0
                        [ValLine 0 5%Z 662%Z (2 # 3)%Q (0 # 3)%Q;
                         ValLine 1 2095%Z 291722%Z (1 # 3)%Q (0 # 3)%Q]))
    as (s' & lines & H1 & H2 & _).
  - vm_compute. reflexivity.
  - exists s'. split; [ exact H1 | ]. symmetry. apply H2.
Defined.

Lemma accuracy_bookkeeping_is_transparent_to_training_witness :
  exists s',
    fit_loss (Toy.shuffled true) (fun _ => [1; 0; 2]) 2 (Toy.init true 0%Z) = Ok s' /\
    params s' = (-220)%Z.
Proof.
  destruct (@accuracy_bookkeeping_is_transparent_to_training (Toy.learner true)
              (Toy.shuffled true) (fun _ => [1; 0; 2]) 2 (Toy.init true 0%Z)
              (mk_state (Toy.learner true) (-220)%Z None tt [221%Z; 3969%Z] 1
                        [AccLine 0 5%Z (2 # 3)%Q; AccLine 1 2095%Z (1 # 3)%Q]))
    as (s' & lines & H1 & H2 & _).
  - vm_compute. reflexivity.
  - exists s'. split; [ exact H1 | ]. symmetry. apply H2.
Defined.

(** ** The rows and columns of the confusion matrix *)

Section ConfusionRows.

Lemma row_sum (labels : list Z) (i : Z) (pairs : list (Z * Z)) :
  NoDup labels -> (forall tp, In tp pairs -> In (snd tp) labels) ->
  list_sum (map (fun j => count_pair i j pairs) labels)
  = length (filter (fun tp => Z.eqb (fst tp) i) pairs).
Proof.
  intros Hnd. induction pairs as [| tp pairs IH]; intros Hin.
  - apply list_sum_map_zero. reflexivity.
  - rewrite (map_ext _ _ (fun j => count_pair_cons i j tp pairs)).
    rewrite list_sum_map_add, IH by (intros q Hq; apply Hin; now right).
    simpl. destruct (Z.eqb (fst tp) i); simpl.
    + rewrite list_sum_at; [ reflexivity | exact Hnd | apply Hin; now left ].
    + rewrite list_sum_map_zero; reflexivity.
Qed.

Lemma column_sum (labels : list Z) (j : Z) (pairs : list (Z * Z)) :
  NoDup labels -> (forall tp, In tp pairs -> In (fst tp) labels) ->
  list_sum (map (fun i => count_pair i j pairs) labels)
  = length (filter (fun tp => Z.eqb (snd tp) j) pairs).
Proof.
  intros Hnd. induction pairs as [| tp pairs IH]; intros Hin.
  - apply list_sum_map_zero. reflexivity.
  - rewrite (map_ext _ _ (fun i => count_pair_cons i j tp pairs)).
    rewrite list_sum_map_add, IH by (intros q Hq; apply Hin; now right).
    rewrite list_sum_at; [ | exact Hnd | apply Hin; now left ].
    simpl. destruct (Z.eqb (snd tp) j); reflexivity.
Qed.

Lemma support_fst (l : Z) (a b : list Z) :
  length a = length b ->
  length (filter (fun tp => Z.eqb (fst tp) l) (combine a b)) = support l a.
Proof.
  unfold support. revert b.
  induction a as [| x a IH]; intros [| y b] H; simpl in *; try discriminate;
    [ reflexivity | ].
  rewrite (Z.eqb_sym l x). destruct (Z.eqb x l); simpl; rewrite IH; auto.
Qed.

Lemma support_snd (l : Z) (a b : list Z) :
  length a = length b ->
  length (filter (fun tp => Z.eqb (snd tp) l) (combine a b)) = support l b.
Proof.
  unfold support. revert b.
  induction a as [| x a IH]; intros [| y b] H; simpl in *; try discriminate;
    [ reflexivity | ].
  rewrite (Z.eqb_sym l y). destruct (Z.eqb y l); simpl; rewrite IH; auto.
Qed.

Lemma Forall2_map_self {A B : Type} (P : A -> B -> Prop) (f : A -> B) (l : list A) :
  (forall a, In a l -> P a (f a)) -> Forall2 P l (map f l).
Proof.
  induction l as [| a l IH]; intros H; simpl; constructor.
  - apply H. now left.
  - apply IH. intros x Hx. apply H. now right.
Qed.

Lemma nth_map_at {A B : Type} (f : A -> B) (l : list A) (k : nat) (a : A) (d : B) :
  nth_error l k = Some a -> nth k (map f l) d = f a.
Proof.
  revert k. induction l as [| x l IH]; intros [| k] H; simpl in *;
    try discriminate.
  - now injection H as ->.
  - now apply IH.
Qed.

Lemma in_combine_labels (a b : list Z) (tp : Z * Z) :
  In tp (combine a b) ->
  In (fst tp) (unique_labels (a ++ b)) /\ In (snd tp) (unique_labels (a ++ b)).
Proof.
  destruct tp as [t p]. intros H. simpl.
  rewrite !unique_labels_In, !in_app_iff. split.
  - left. eapply in_combine_l. exact H.
  - right. eapply in_combine_r. exact H.
Qed.

(** X11. The matrix of [confusion_matrix(test_labels, preds)] in section 4:
    with labels and predictions of different lengths the call is rejected;
    otherwise the matrix is square, indexed in increasing order by the
    labels that occur among the true labels or the predictions; the row of
    a label sums to the number of test samples carrying that label, its
    column to the number of samples predicted as that label; with labels
    and predictions among 0, 1, 2 it is at most 3 by 3. *)
Theorem confusion_matrix_rows_are_true_labels (test_labels preds : list Z) :
  (length test_labels <> length preds ->
   raises (confusion_matrix test_labels preds)) /\
  (length test_labels = length preds ->
   exists m,
     confusion_matrix test_labels preds = Ok m /\
     let labels := unique_labels (test_labels ++ preds) in
     StronglySorted Z.lt labels /\
     (forall l, In l labels <-> In l test_labels \/ In l preds) /\
     Forall2 (fun l row => length row = length labels /\
                           list_sum row = support l test_labels) labels m /\
     (forall k l, nth_error labels k = Some l ->
        list_sum (map (fun row => nth k row 0) m) = support l preds) /\
     ((forall y, In y (test_labels ++ preds) -> (0 <= y <= 2)%Z) ->
      length m <= 3)).
Proof.
  unfold confusion_matrix. split; intros Hlen.
  - apply Nat.eqb_neq in Hlen. rewrite Hlen. eexists. reflexivity.
  - rewrite Hlen, Nat.eqb_refl. eexists. split; [ reflexivity | ].
    set (labels := unique_labels (test_labels ++ preds)).
    set (pairs := combine test_labels preds).
    assert (Hnd : NoDup labels) by apply unique_labels_NoDup.
    assert (Hin : forall tp, In tp pairs -> In (fst tp) labels /\ In (snd tp) labels)
      by (intros tp; apply in_combine_labels).
    cbv zeta. split; [ apply unique_labels_sorted | ]. split; [ | split; [ | split ] ].
    + intros l. unfold labels. now rewrite unique_labels_In, in_app_iff.
    + apply Forall2_map_self. intros l _. split; [ apply length_map | ].
      rewrite row_sum by (first [ exact Hnd | intros tp Htp; now apply Hin ]).
      now apply support_fst.
    + intros k l Hk. rewrite map_map.
      rewrite (map_ext (fun i => nth k (map (fun j => count_pair i j pairs) labels) 0)
                       (fun i => count_pair i l pairs))
        by (intros i; now apply (nth_map_at (fun j => count_pair i j pairs))).
      rewrite column_sum by (first [ exact Hnd | intros tp Htp; now apply Hin ]).
      now apply support_snd.
    + intros Hcodes. rewrite length_map.
      change 3 with (length [0%Z; 1%Z; 2%Z]).
      apply NoDup_incl_length; [ exact Hnd | ].
      intros l Hl. unfold labels in Hl. rewrite unique_labels_In in Hl.
      specialize (Hcodes l Hl).
      simpl. lia.
Qed.

End ConfusionRows.

(** ** From the table to the loaders *)

Lemma train_test_split_ok {A B : Type} (x : list A) (y : list B)
      (n_test : nat) (drawn : list nat) :
  length x = length y -> n_test < length x ->
  Permutation drawn (seq 0 (length x)) ->
  train_test_split x y n_test drawn
  = Ok (rows_at x (firstn (length x - n_test) (skipn n_test drawn)),
        rows_at x (firstn n_test drawn),
        rows_at y (firstn (length x - n_test) (skipn n_test drawn)),
        rows_at y (firstn n_test drawn)).
Proof.
  intros Hlen Hn Hperm.
  assert (Hr : Forall (fun i => i < length x) drawn) by now apply perm_in_range.
  assert (Htr : Forall (fun i => i < length x)
                       (firstn (length x - n_test) (skipn n_test drawn)))
    by now apply in_range_firstn, in_range_skipn.
  assert (Hte : Forall (fun i => i < length x) (firstn n_test drawn))
    by now apply in_range_firstn.
  unfold train_test_split, split_indices.
  rewrite <- Hlen, Nat.eqb_refl. cbn [negb].
  destruct (Nat.leb_spec (length x) n_test) as [Hle | _]; [ lia | ].
  rewrite (@take_rows_in_range _ x _ Htr), (@take_rows_in_range _ x _ Hte).
  assert (Htr' : Forall (fun i => i < length y)
                        (firstn (length x - n_test) (skipn n_test drawn)))
    by (rewrite <- Hlen; exact Htr).
  assert (Hte' : Forall (fun i => i < length y) (firstn n_test drawn))
    by (rewrite <- Hlen; exact Hte).
  rewrite (@take_rows_in_range _ y _ Htr'), (@take_rows_in_range _ y _ Hte').
  reflexivity.
Qed.

Lemma encode_labels_length (column : list string) (y : list Z) :
  encode_labels column = Ok y -> length y = length column.
Proof.
  intros H. apply map_list_Ok_Forall2 in H.
  symmetry. eapply Forall2_length. exact H.
Qed.

Lemma encode_labels_range (column : list string) (y : list Z) :
  encode_labels column = Ok y -> Forall (fun n => (0 <= n <= 2)%Z) y.
Proof.
  intros H. apply map_list_Ok_Forall2 in H.
  induction H as [| s n column y Hs _ IH]; constructor; [ | exact IH ].
  now apply encode_species_range in Hs.
Qed.

(** The preparation on a table that leaves 105 training rows. *)
Lemma prepare_ok
        (F : Type) (dataset : list (iris_row F)) (n_test : nat)
        (drawn_test drawn_val : list nat) (y : list Z) :
  encode_labels (map (@species F) dataset) = Ok y ->
  n_test + 105 = length dataset ->
  Permutation drawn_test (seq 0 (length dataset)) ->
  Permutation drawn_val (seq 0 105) ->
  exists train_dl val_dl x_test y_test,
    prepare dataset n_test drawn_test drawn_val
      = Ok (train_dl, val_dl, x_test, y_test) /\
    length (dl_dataset train_dl) = 90 /\
    length (dl_dataset val_dl) = 15 /\
    length x_test = n_test /\ length y_test = n_test /\
    (forall d, iterate val_dl d = Ok [dl_dataset val_dl]) /\
    Permutation (dl_dataset train_dl ++ dl_dataset val_dl ++ combine x_test y_test)
                (combine (map (@features F) dataset) y).
Proof.
  intros Hy HN Hpt Hpv.
  set (x := map (@features F) dataset).
  assert (Hlx : length x = length dataset) by apply length_map.
  assert (Hly : length y = length dataset).
  { rewrite (encode_labels_length _ Hy). apply length_map. }
  assert (Hxy : length x = length y) by congruence.
  assert (Hlt : n_test < length x) by lia.
  rewrite <- Hlx in Hpt.
  pose proof (Permutation_length Hpt) as Hdl. rewrite length_seq in Hdl.
  pose proof (@perm_in_range _ _ Hpt) as Hr.
  set (train := firstn (length x - n_test) (skipn n_test drawn_test)).
  set (test := firstn n_test drawn_test).
  assert (Htr : Forall (fun i => i < length x) train)
    by now apply in_range_firstn, in_range_skipn.
  assert (Hte : Forall (fun i => i < length x) test) by now apply in_range_firstn.
  assert (Htrain : train = skipn n_test drawn_test).
  { apply firstn_all2. rewrite length_skipn. lia. }
  assert (Hltr : length train = 105).
  { rewrite Htrain, length_skipn. lia. }
  assert (Hlte : length test = n_test).
  { unfold test. rewrite length_firstn. lia. }
  assert (Htd : TensorDataset (rows_at x train) (rows_at y train)
                = Ok (rows_at (combine x y) train)).
  { unfold TensorDataset. rewrite !rows_at_length by (first [ exact Htr | now rewrite <- Hxy ]).
    rewrite Nat.eqb_refl. now rewrite rows_at_combine. }
  assert (Hlc : length (combine x y) = length x).
  { rewrite length_combine. lia. }
  assert (Hl105 : length (rows_at (combine x y) train) = 105).
  { rewrite rows_at_length by now rewrite Hlc. exact Hltr. }
  destruct (@val_loader_single_batch _ _ _ Hl105 Hpv)
    as (train_dl & val_dl & Hld & Hdt & Hdv & Hv15 & Hone).
  exists train_dl, val_dl, (rows_at x test), (rows_at y test).
  assert (Hpart : Permutation (dl_dataset train_dl ++ dl_dataset val_dl)
                              (rows_at (combine x y) train)).
  { rewrite Hdt, Hdv, <- rows_at_app, firstn_skipn.
    apply rows_at_perm. now rewrite Hl105. }
  split; [ | split; [ | split; [ exact Hv15 | split; [ | split; [ | split ] ] ] ] ].
  - unfold prepare. rewrite Hy. cbn [Py.bind]. fold x.
    rewrite (@train_test_split_ok _ _ x y n_test drawn_test Hxy Hlt Hpt). cbn [Py.bind].
    fold train test. rewrite Htd. cbn [Py.bind]. rewrite Hld. reflexivity.
  - apply Permutation_length in Hpart.
    rewrite length_app, Hv15, Hl105 in Hpart. lia.
  - now rewrite rows_at_length.
  - rewrite rows_at_length; [ exact Hlte | now rewrite <- Hxy ].
  - exact Hone.
  - rewrite app_assoc, <- rows_at_combine by assumption.
    apply perm_trans
      with (rows_at (combine x y) train ++ rows_at (combine x y) test).
    { now apply Permutation_app_tail. }
    rewrite <- rows_at_app. apply rows_at_perm. rewrite Hlc.
    apply perm_trans with (test ++ train); [ apply Permutation_app_comm | ].
    unfold test. rewrite Htrain, firstn_skipn. exact Hpt.
Qed.

(** X12. Sections 2.1 to 2.3 and 3.4 in sequence on a table of recognized
    species with 105 rows left after the test rows are taken out: they
    succeed; the training loader holds 90 samples, the validation loader
    15 (served as one batch), the test set the requested number; the three
    parts together are a rearrangement of the table's rows, each feature
    vector still paired with the code of its own species. *)
Theorem prepare_partitions_the_table
        (F : Type) (dataset : list (iris_row F)) (n_test : nat)
        (drawn_test drawn_val : list nat) (y : list Z) :
  encode_labels (map (@species F) dataset) = Ok y ->
  n_test + 105 = length dataset ->
  Permutation drawn_test (seq 0 (length dataset)) ->
  Permutation drawn_val (seq 0 105) ->
  exists train_dl val_dl x_test y_test,
    prepare dataset n_test drawn_test drawn_val
      = Ok (train_dl, val_dl, x_test, y_test) /\
    length (dl_dataset train_dl) = 90 /\
    length (dl_dataset val_dl) = 15 /\
    length x_test = n_test /\ length y_test = n_test /\
    (forall d, iterate val_dl d = Ok [dl_dataset val_dl]) /\
    Permutation (dl_dataset train_dl ++ dl_dataset val_dl ++ combine x_test y_test)
                (combine (map (@features F) dataset) y).
Proof. apply prepare_ok. Qed.

Lemma prepare_partitions_the_table_witness :
  exists train_dl val_dl x_test y_test,
    prepare iris_like_table 45 (rev (seq 0 75) ++ seq 75 75) (rev (seq 0 105))
      = Ok (train_dl, val_dl, x_test, y_test) /\
    length (dl_dataset train_dl) = 90 /\
    length (dl_dataset val_dl) = 15 /\
    length x_test = 45 /\ length y_test = 45 /\
    (forall d, iterate val_dl d = Ok [dl_dataset val_dl]) /\
    Permutation (dl_dataset train_dl ++ dl_dataset val_dl ++ combine x_test y_test)
                (combine (map (@features Z) iris_like_table) iris_like_labels).
Proof.
  apply (@prepare_partitions_the_table Z iris_like_table 45
           (rev (seq 0 75) ++ seq 75 75) (rev (seq 0 105)) iris_like_labels).
  - vm_compute. reflexivity.
  - reflexivity.
  - change (seq 0 (length iris_like_table)) with (seq 0 75 ++ seq 75 75).
    apply Permutation_app_tail, Permutation_sym, Permutation_rev.
  - apply Permutation_sym, Permutation_rev.
Defined.

(** The same preparation evaluated: the test part holds the rows 74 down to
    30, so 25 rows of versicolor and 20 of setosa. *)
Example iris_like_test_part :
  (r <- prepare iris_like_table 45 (rev (seq 0 75) ++ seq 75 75) (rev (seq 0 105)) ;;
   Ok (map (fun x => fst (fst (fst x))) (snd (fst r)), snd r))
  = Ok (map Z.of_nat (rev (seq 30 45)), repeat 1%Z 25 ++ repeat 0%Z 20).
Proof. vm_compute. reflexivity. Qed.

(** X13. The lengths [90, 15] of section 3.4 are fixed in the code: on a
    table of recognized species that leaves any other number of rows than
    105 after the test rows are taken out, the preparation stops with
    [random_split]'s error. *)
Theorem prepare_needs_105_training_rows
        (F : Type) (dataset : list (iris_row F)) (n_test : nat)
        (drawn_test drawn_val : list nat) (y : list Z) :
  encode_labels (map (@species F) dataset) = Ok y ->
  n_test < length dataset ->
  length dataset - n_test <> 105 ->
  Permutation drawn_test (seq 0 (length dataset)) ->
  prepare dataset n_test drawn_test drawn_val
  = Raise (ValueError
      "Sum of input lengths does not equal the length of the input dataset!").
Proof.
  intros Hy Hlt HN Hpt.
  set (x := map (@features F) dataset).
  assert (Hlx : length x = length dataset) by apply length_map.
  assert (Hly : length y = length dataset).
  { rewrite (encode_labels_length _ Hy). apply length_map. }
  assert (Hxy : length x = length y) by congruence.
  rewrite <- Hlx in Hpt, Hlt, HN.
  pose proof (Permutation_length Hpt) as Hdl. rewrite length_seq in Hdl.
  pose proof (@perm_in_range _ _ Hpt) as Hr.
  set (train := firstn (length x - n_test) (skipn n_test drawn_test)).
  assert (Htr : Forall (fun i => i < length x) train)
    by now apply in_range_firstn, in_range_skipn.
  assert (Hltr : length train = length x - n_test).
  { unfold train. rewrite length_firstn, length_skipn. lia. }
  unfold prepare. rewrite Hy. cbn [Py.bind]. fold x.
  rewrite (@train_test_split_ok _ _ x y n_test drawn_test Hxy Hlt Hpt). cbn [Py.bind]. fold train.
  unfold TensorDataset.
  rewrite !rows_at_length by (first [ exact Htr | now rewrite <- Hxy ]).
  rewrite Nat.eqb_refl. cbn [Py.bind].
  unfold train_val_loaders, random_split.
  rewrite length_combine, !rows_at_length
    by (first [ exact Htr | now rewrite <- Hxy ]).
  rewrite Nat.min_id, Hltr.
  change (list_sum [90; 15]) with 105.
  destruct (Nat.eqb_spec 105 (length x - n_test)) as [E | _];
    [ now elim HN | reflexivity ].
Qed.

Lemma prepare_needs_105_training_rows_witness :
  prepare toy_table 1 [2; 0; 1] []
  = Raise (ValueError
      "Sum of input lengths does not equal the length of the input dataset!").
Proof.
  apply (@prepare_needs_105_training_rows Z toy_table 1 [2; 0; 1] []
           [0%Z; 1%Z; 0%Z]).
  - vm_compute. reflexivity.
  - vm_compute. lia.
  - vm_compute. lia.
  - apply perm_trans with [0; 2; 1]; [ apply perm_swap | ].
    apply perm_skip, perm_swap.
Defined.

(** ** The regression notebook's run as gradient descent *)

Section FullBatchDescent.

Variable T : Type.
Variable L : Learner T.

(** Adding a gradient to a zero-filled buffer yields that gradient. *)
Hypothesis gadd_gzero : forall g, gadd L (gzero L) g = g.

Lemma full_batch_epoch (dl : loader (Feat L * T)) (ds : list (Feat L * T))
      (drawn : list nat) (s : state L) (e : nat) :
  iterate dl drawn = Ok [ds] -> cleared s ->
  exists s',
    epoch_loss dl drawn s e = Ok s' /\
    (opt s', params s') = fresh_step L (opt s, params s) ds /\
    cleared s' /\
    stdout s' = stdout s ++
      [LossLine e (sdiv L (sadd L (szero L) (batch_loss L (params s) ds)) 1)].
Proof.
  intros Hit Hc.
  destruct (for_each_train_batch_loss [ds] (set_losses s []))
    as (s1 & Hrun & Hsm & Hl & _ & Hout).
  simpl in Hl, Hout.
  exists (print s1 (LossLine e (sdiv L (sadd L (szero L) (batch_loss L (params s) ds)) 1))).
  assert (Hc0 : cleared (set_losses s [])) by exact Hc.
  split; [ | split; [ | split ] ].
  - unfold epoch_loss. rewrite Hit. cbn [Py.bind]. rewrite Hrun. cbn [Py.bind].
    rewrite Hl. reflexivity.
  - destruct Hsm as (Hp & _ & Ho). simpl. rewrite Hp, Ho.
    apply (optimize_fresh gadd_gzero ds Hc0).
  - apply cleared_same_model with (optimize ds (set_losses s []));
      [ apply same_model_sym; exact Hsm | apply optimize_cleared ].
  - simpl. now rewrite Hout.
Qed.

(** X14. The regression notebook's run is gradient descent on the whole
    dataset: with the loader of section 2.1 and a cleared gradient buffer at
    the start, [n] epochs complete and are [n] optimizer steps, each on the
    gradient of the loss over all samples at the current parameters, and
    epoch [k] prints the loss over all samples at the parameters before its
    step (as the mean of one value). *)
Theorem regression_run_is_gradient_descent
        (x : list (Feat L)) (y : list T) (dl : loader (Feat L * T))
        (draws : nat -> list nat) (n : nat) (st : state L) :
  x <> [] -> length x = length y ->
  regression_loader x y = Ok dl ->
  cleared st ->
  let descent k :=
    Nat.iter k (fun om => fresh_step L om (combine x y)) (opt st, params st) in
  exists s,
    fit_loss dl draws n st = Ok s /\
    (opt s, params s) = descent n /\
    cleared s /\
    stdout s = stdout st ++
      map (fun k => LossLine k
             (sdiv L (sadd L (szero L)
                           (batch_loss L (snd (descent k)) (combine x y))) 1))
          (seq 0 n).
Proof.
  intros Hx Hlen Hdl Hc descent.
  assert (Hit : forall drawn, iterate dl drawn = Ok [combine x y]).
  { intros drawn.
    destruct (@regression_loader_full_batch _ _ x y drawn Hx Hlen) as (dl' & Hdl' & Hit).
    congruence. }
  induction n as [| n IH].
  - exists st. simpl. rewrite app_nil_r. auto.
  - destruct IH as (s & Hrun & Hom & Hcs & Hout).
    destruct (@full_batch_epoch dl (combine x y) (draws n) s n (Hit (draws n)) Hcs)
      as (s' & Hep & Hom' & Hcs' & Hout').
    exists s'. split; [ | split; [ | split; [ exact Hcs' | ] ] ].
    + unfold fit_loss in *. rewrite seq_S, for_each_snoc, Hrun. exact Hep.
    + rewrite Hom', Hom. reflexivity.
    + rewrite Hout', Hout, seq_S, map_app, <- app_assoc. simpl.
      rewrite <- Hom. reflexivity.
Qed.

End FullBatchDescent.

Lemma regression_run_is_gradient_descent_witness :
  exists s,
    @fit_loss Z (Toy.learner false)
              (mk_loader (combine [1; -1; 2] [1; 0; 1])%Z 3 false)
              (fun _ => []) 2 (Toy.init false 0%Z) = Ok s /\
    (opt s, params s)
    = Nat.iter 2 (fun om => fresh_step (Toy.learner false) om
                                       (combine [1; -1; 2] [1; 0; 1])%Z)
               (tt, 0%Z).
Proof.
  destruct (@regression_run_is_gradient_descent Z (Toy.learner false)
              (fun g => eq_refl) [1; -1; 2]%Z [1; 0; 1]%Z
              (mk_loader (combine [1; -1; 2] [1; 0; 1])%Z 3 false)
              (fun _ => []) 2 (Toy.init false 0%Z))
    as (s & H1 & H2 & _).
  - discriminate.
  - reflexivity.
  - reflexivity.
  - left. reflexivity.
  - exists s. split; [ exact H1 | exact H2 ].
Defined.

(** ** The classification notebook from the table to the assessment *)

Section ValidationRuns.

Variable L : Learner Z.

Lemma validate_total (val_dl : loader (Feat L * Z)) (drawn : list nat)
      (batches : list (list (Feat L * Z))) (st : state L) :
  scores_nonempty L -> dl_dataset val_dl <> [] ->
  iterate val_dl drawn = Ok batches ->
  batches <> [] -> Forall (fun b => b <> []) batches ->
  exists st' acc avg, validate val_dl drawn st = Ok (st', acc, avg).
Proof.
  intros Hsc Hds Hit Hbs Hfull.
  assert (Hlen0 : length (dl_dataset val_dl) <> 0).
  { destruct (dl_dataset val_dl); [ congruence | discriminate ]. }
  destruct (@for_each_eval_batch_total L batches
              (set_n_correct (set_losses st []) 0) Hsc Hfull) as [s1 Hs1].
  destruct (for_each_eval_batch _ _ Hs1) as (_ & _ & _ & Hl & _ & _).
  assert (Hne : losses s1 <> []).
  { rewrite Hl. simpl. destruct batches; [ congruence | discriminate ]. }
  eexists. eexists. eexists. unfold validate. rewrite Hit. cbn [Py.bind].
  rewrite Hs1. cbn [Py.bind].
  rewrite (@true_div_Ok (n_correct s1) _ Hlen0). cbn [Py.bind].
  rewrite (@mean_nonempty _ L _ Hne). reflexivity.
Qed.

Lemma epoch_val_total (train_dl val_dl : loader (Feat L * Z)) (drawn : list nat)
      (val_batches : list (list (Feat L * Z))) (st : state L) (e : nat) :
  scores_nonempty L ->
  dl_dataset train_dl <> [] -> well_drawn train_dl drawn ->
  dl_dataset val_dl <> [] ->
  iterate val_dl drawn = Ok val_batches ->
  val_batches <> [] -> Forall (fun b => b <> []) val_batches ->
  exists st', epoch_val train_dl val_dl drawn st e = Ok st'.
Proof.
  intros Hsc Hds Hdrawn Hvds Hvit Hvbs Hvfull.
  destruct (@epoch_acc_total L train_dl drawn st e Hsc Hds Hdrawn) as [s Hs].
  destruct (epoch_acc_inv _ _ _ _ Hs)
    as (batches & s1 & acc & avg & Hit & Hrun & Hdiv & Hmean & _).
  destruct (@validate_total val_dl drawn val_batches s1 Hsc Hvds Hvit Hvbs Hvfull)
    as (s2 & vacc & vavg & Hval).
  eexists. unfold epoch_val. rewrite Hit. cbn [Py.bind].
  rewrite Hrun. cbn [Py.bind]. rewrite Hdiv. cbn [Py.bind].
  rewrite Hmean. cbn [Py.bind]. rewrite Hval. reflexivity.
Qed.

Lemma epoch_val_prints (train_dl val_dl : loader (Feat L * Z)) (drawn : list nat)
      (st st' : state L) (e : nat) :
  epoch_val train_dl val_dl drawn st e = Ok st' ->
  exists line, stdout st' = stdout st ++ [line].
Proof.
  intros H.
  destruct (epoch_val_inv _ _ _ _ _ H)
    as (batches & s1 & tacc & tavg & s2 & vacc & vavg
        & _ & Hrun & _ & _ & Hval & ->).
  destruct (for_each_train_batch_acc _ _ Hrun) as (_ & _ & _ & Hout).
  destruct (validate_frame _ _ _ Hval) as [_ Hout2].
  eexists. simpl. rewrite Hout2, Hout. reflexivity.
Qed.

Lemma test_accuracy_total (p : Params L) (test_samples : list (Feat L))
      (test_labels preds : list Z) :
  test_samples <> [] -> length test_samples = length test_labels ->
  predict L p test_samples = Ok preds ->
  exists acc, test_accuracy preds test_labels = Ok acc /\ (0 <= acc <= 1)%Q.
Proof.
  intros Hne Hlen Hp. unfold predict in Hp.
  set (b := combine test_samples test_labels).
  assert (Hx : map fst b = test_samples) by now apply map_fst_combine.
  assert (Hy : map snd b = test_labels) by now apply map_snd_combine.
  assert (Hb : length b = length test_samples).
  { unfold b. rewrite length_combine. lia. }
  assert (Hbn : b <> []).
  { intros E. rewrite E in Hb. destruct test_samples; [ now apply Hne | discriminate ]. }
  rewrite <- Hx in Hp.
  destruct (@matches_hits L p b preds Hp) as [Hlp _].
  assert (Hl0 : length preds <> 0).
  { rewrite Hlp. destruct b; [ now elim Hbn | discriminate ]. }
  unfold test_accuracy.
  rewrite <- Hy, (@count_correct_total L p b preds Hbn Hp). cbn [Py.bind].
  rewrite (true_div_Ok _ Hl0). eexists. split; [ reflexivity | ].
  apply fraction_in_unit_interval; [ exact Hl0 | ].
  rewrite Hlp. apply hits_le.
Qed.

End ValidationRuns.

Section Notebook.

Variables (F P G O : Type).
Variable lin : P -> F * F * F * F -> F * F * F.
Variable cross_entropy : list (list F) -> list Z -> F.
Variable autograd : P -> list (F * F * F * F) -> list Z -> G.
Variables (g0 : G) (gplus : G -> G -> G) (to_none : bool).
Variable adam : O -> P -> G -> O * P.
Variable gtb : F -> F -> bool.
Variables (f0 : F) (fplus : F -> F -> F) (fdiv : F -> nat -> F).

Local Abbreviation model :=
  (LogisticRegressor lin cross_entropy autograd g0 gplus to_none adam gtb
                     f0 fplus fdiv).

(** X15. The classification notebook runs from the table to the
    assessment: on a table of recognized species that leaves 105 rows after
    a non-empty test part is taken out, with every random order a
    permutation of the indices it is drawn for, the preparation succeeds,
    the loop with validation, whose loss rejects labels out of range,
    completes any number of epochs and prints one line per epoch, the
    trained model predicts a class for every test sample, the test accuracy
    is a fraction between 0 and 1, and the confusion matrix counts every
    test sample once. *)
Theorem classification_notebook_completes
        (dataset : list (iris_row F)) (n_test : nat)
        (drawn_test drawn_val : list nat) (y : list Z)
        (draws : nat -> list nat) (n : nat) (st : state model) :
  encode_labels (map (@species F) dataset) = Ok y ->
  0 < n_test ->
  n_test + 105 = length dataset ->
  Permutation drawn_test (seq 0 (length dataset)) ->
  Permutation drawn_val (seq 0 105) ->
  (forall k, Permutation (draws k) (seq 0 90)) ->
  exists (train_dl val_dl : loader (Feat model * Z)) x_test y_test
         (s : state model) preds acc m,
    prepare dataset n_test drawn_test drawn_val
      = Ok (train_dl, val_dl, x_test, y_test) /\
    @logistic_fit_val F P G O lin cross_entropy autograd g0 gplus to_none
                      adam gtb f0 fplus fdiv train_dl val_dl draws n st = Ok s /\
    length (stdout s) = length (stdout st) + n /\
    predict model (params s) x_test = Ok preds /\
    length preds = n_test /\
    test_accuracy preds y_test = Ok acc /\ (0 <= acc <= 1)%Q /\
    confusion_matrix y_test preds = Ok m /\
    matrix_sum m = n_test.
Proof.
  intros Hy Hpos HN Hpt Hpv Hdraws.
  destruct (@prepare_ok F dataset n_test drawn_test
              drawn_val y Hy HN Hpt Hpv)
    as (train_dl & val_dl & x_test & y_test
        & Hprep & H90 & H15 & Hxt & Hyt & Hone & Hperm).
  assert (Hsc : scores_nonempty model) by apply logistic_scores_nonempty.
  assert (Hparts : Forall (fun xy : Feat model * Z => target_ok (snd xy) = true)
                          (dl_dataset train_dl) /\
                   Forall (fun xy : Feat model * Z => target_ok (snd xy) = true)
                          (dl_dataset val_dl)).
  { pose proof (encode_labels_range _ Hy) as Hrange.
    assert (Hall : Forall (fun xy : F * F * F * F * Z => target_ok (snd xy) = true)
                          (combine (map (@features F) dataset) y)).
    { apply Forall_forall. intros [a b] Hin. apply in_combine_r in Hin.
      rewrite Forall_forall in Hrange. apply in_range_target_ok. now apply Hrange. }
    pose proof (Permutation_Forall (Permutation_sym Hperm) Hall) as Hsplit.
    apply Forall_app in Hsplit. destruct Hsplit as [Htr Hrest].
    apply Forall_app in Hrest. destruct Hrest as [Hva _]. now split. }
  destruct Hparts as [Htrain_ok Hval_ok].
  assert (Htds : dl_dataset train_dl <> []).
  { intros E. rewrite E in H90. discriminate. }
  assert (Hvds : dl_dataset val_dl <> []).
  { intros E. rewrite E in H15. discriminate. }
  assert (Htw : forall k, well_drawn train_dl (draws k)).
  { intros k _. rewrite H90. apply Hdraws. }
  assert (Hep : forall (s : state model) e,
            exists s', @epoch_val model train_dl val_dl (draws e) s e = Ok s').
  { intros s e.
    apply (@epoch_val_total model train_dl val_dl (draws e) [dl_dataset val_dl]);
      auto.
    discriminate. }
  destruct (@run_total _ model
              (fun s e => @epoch_val model train_dl val_dl (draws e) s e) n st Hep)
    as [s Hs].
  destruct (@run_lines _ model
              (fun s e => @epoch_val model train_dl val_dl (draws e) s e)
              (fun a e a' => @epoch_val_prints model train_dl val_dl (draws e) a a' e)
              n st s Hs) as [Hlines _].
  destruct (@argmax_dim1_total model (params s) x_test Hsc) as [preds Hp].
  assert (Hlp : length preds = n_test).
  { rewrite (@predict_length model (params s) x_test preds Hp). exact Hxt. }
  assert (Hxne : x_test <> []).
  { intros E. rewrite E in Hxt. simpl in Hxt. lia. }
  destruct (@test_accuracy_total model (params s) x_test y_test preds Hxne
              (eq_trans Hxt (eq_sym Hyt)) Hp) as (acc & Hacc & Hunit).
  assert (Hce : @logistic_fit_val F P G O lin cross_entropy autograd g0 gplus
                  to_none adam gtb f0 fplus fdiv train_dl val_dl draws n st = Ok s).
  { rewrite logistic_fit_val_accepts; [ exact Hs | | ].
    - intros k batches Hit. now apply batches_accepted with train_dl (draws k).
    - intros k batches Hit. rewrite Hone in Hit. injection Hit as <-.
      constructor; [ now apply targets_accepted | constructor ]. }
  exists train_dl, val_dl, x_test, y_test, s, preds, acc.
  eexists. repeat (split; [ eassumption | ]).
  unfold confusion_matrix. rewrite Hyt, Hlp, Nat.eqb_refl.
  split; [ reflexivity | ].
  unfold matrix_sum. rewrite map_map.
  rewrite cells_sum;
    [ rewrite length_combine; lia | apply unique_labels_NoDup
    | intros tp; apply in_combine_labels ].
Qed.

End Notebook.

Lemma classification_notebook_completes_witness :
  exists (train_dl val_dl : loader (Feat toy_classifier * Z)) x_test y_test
         (s : state toy_classifier) preds acc m,
    prepare iris_like_table 45 (rev (seq 0 75) ++ seq 75 75) (rev (seq 0 105))
      = Ok (train_dl, val_dl, x_test, y_test) /\
    @logistic_fit_val Z Z Z unit toy_lin toy_loss toy_grad 0%Z Z.add true
                      (fun (o : unit) w g => (o, (w - g)%Z)) Z.gtb 0%Z Z.add
                      (fun s n => (s / Z.of_nat n)%Z)
                      train_dl val_dl (fun _ => rev (seq 0 90)) 2
                      (mk_state toy_classifier 1%Z None tt [] 0 []) = Ok s /\
    length (stdout s) = 2 /\
    predict toy_classifier (params s) x_test = Ok preds /\
    length preds = 45 /\
    test_accuracy preds y_test = Ok acc /\ (0 <= acc <= 1)%Q /\
    confusion_matrix y_test preds = Ok m /\
    matrix_sum m = 45.
Proof.
  apply (@classification_notebook_completes Z Z Z unit
           toy_lin toy_loss toy_grad 0%Z Z.add true
           (fun (o : unit) w g => (o, (w - g)%Z)) Z.gtb 0%Z Z.add
           (fun s n => (s / Z.of_nat n)%Z)
           iris_like_table 45 (rev (seq 0 75) ++ seq 75 75) (rev (seq 0 105))
           iris_like_labels (fun _ => rev (seq 0 90)) 2
           (mk_state toy_classifier 1%Z None tt [] 0 [])).
  - vm_compute. reflexivity.
  - lia.
  - reflexivity.
  - change (seq 0 (length iris_like_table)) with (seq 0 75 ++ seq 75 75).
    apply Permutation_app_tail, Permutation_sym, Permutation_rev.
  - apply Permutation_sym, Permutation_rev.
  - intros k. apply Permutation_sym, Permutation_rev.
Defined.

(** The same run evaluated: two printed lines, the trained weight, the test
    accuracy and the confusion matrix of the 45 test rows. *)
Example iris_like_run :
  (r <- prepare iris_like_table 45 (rev (seq 0 75) ++ seq 75 75) (rev (seq 0 105)) ;;
   s <- @logistic_fit_val Z Z Z unit toy_lin toy_loss toy_grad 0%Z Z.add true
          (fun (o : unit) w g => (o, (w - g)%Z)) Z.gtb 0%Z Z.add
          (fun s n => (s / Z.of_nat n)%Z)
          (fst (fst (fst r))) (snd (fst (fst r))) (fun _ => rev (seq 0 90)) 2
          (mk_state toy_classifier 1%Z None tt [] 0 []) ;;
   preds <- predict toy_classifier (params s) (snd (fst r)) ;;
   acc <- test_accuracy preds (snd r) ;;
   m <- confusion_matrix (snd r) preds ;;
   Ok (params s, stdout s, acc, m))
  = Ok ((-10264402534655)%Z,
        [ValLine 0 45886619%Z 15%Z (64 # 90)%Q (15 # 15)%Q;
         ValLine 1 21156218627399454976667%Z 15%Z (58 # 90)%Q (0 # 15)%Q],
        (0 # 45)%Q, [[0; 0; 20]; [25; 0; 0]; [0; 0; 0]]).
Proof. vm_compute. reflexivity. Qed.

(** A label 3 among the samples: the loop on the classifier stops with the
    loss's error, where the loop over a learner whose loss is defined
    everywhere would go on. *)
Example label_out_of_range :
  @logistic_fit_acc Z Z Z unit toy_lin toy_loss toy_grad 0%Z Z.add true
     (fun (o : unit) w g => (o, (w - g)%Z)) Z.gtb 0%Z Z.add
     (fun s n => (s / Z.of_nat n)%Z)
     (mk_loader [((1, 1, 1, 1), 1); ((2, 2, 2, 2), 3)]%Z 32 true)
     (fun _ => [1; 0]) 1 (mk_state toy_classifier 1%Z None tt [] 0 [])
  = Raise IndexError /\
  (s <- @fit_acc toy_classifier
          (mk_loader [((1, 1, 1, 1), 1); ((2, 2, 2, 2), 3)]%Z 32 true)
          (fun _ => [1; 0]) 1 (mk_state toy_classifier 1%Z None tt [] 0 []) ;;
   Ok (stdout s))
  = Ok [AccLine 0 1%Z (1 # 2)%Q].
Proof. split; vm_compute; reflexivity. Qed.
